(** * WinDock release script: a shallow embedding of [release.py]

    The release pipeline of [release.py] ([ReleaseManager] and [main]) is
    embedded as state-passing functions over an explicit world: a file
    system, the current working directory, the console, the log of
    external calls, and the attributes of the [ReleaseManager] object.
    External programs ([git], [gh], [curl], [shasum], [build.sh], ...) and
    the optional GitPython library are oracles supplied by an environment
    record; everything the script itself computes (version arithmetic,
    regular-expression substitution, control flow, exception handling) is
    executable.

    A Python [str] is held as the bytes of its UTF-8 encoding ([string],
    or [list ascii] inside the text algorithms), a [bytes] object as its
    bytes. The text algorithms ([int], [str.strip], [str.split],
    [str.splitlines], the class [[\d\.]] of the regular expressions) read
    one character at a time from these bytes and follow the Unicode
    database of the interpreter for decimal digits and white space. Files
    opened in text mode go through the codec of the locale, an oracle of
    the environment, and through the translation of line ends. *)

From Stdlib Require Import ZArith NArith Lia Bool.
From Stdlib Require Import Ascii.
From Stdlib Require String.
From stdpp Require Import gmap strings list fin_maps.

Local Open Scope Z_scope.

(** ** Text helpers *)

Module Text.

Definition chars (s : string) : list ascii := String.list_ascii_of_string s.
Definition text (l : list ascii) : string := String.string_of_list_ascii l.

(** The double-quote character and the one-character string holding it. *)
Definition dq_char : ascii := "034"%char.
Definition dq : string := String dq_char EmptyString.

Definition ascii_eqb (a b : ascii) : bool := Ascii.eqb a b.

Definition is_digit (c : ascii) : bool :=
  let n := N_of_ascii c in ((48 <=? n) && (n <=? 57))%N.

Definition digit_val (c : ascii) : N := (N_of_ascii c - 48)%N.

Definition digit_char (d : N) : ascii := ascii_of_N (48 + d)%N.

(** *** Characters beyond ASCII *)

(** A text is held as the bytes of its UTF-8 encoding, so a character
    beyond U+007F takes two to four bytes, all of them 128 or more. *)

Definition is_ascii (c : ascii) : bool := (N_of_ascii c <? 128)%N.

Definition is_continuation (c : ascii) : bool :=
  let n := N_of_ascii c in ((128 <=? n) && (n <? 192))%N.

Definition low_bits (c : ascii) : N := (N_of_ascii c - 128)%N.

(** The character at the front of a text: its code point and the number
    of its bytes. [None] when the text is empty or its first bytes are no
    well-formed character (a stray continuation byte, a truncated or
    overlong sequence, a surrogate): no [str] holds such bytes. *)
Definition utf8_front (s : list ascii) : option (N * nat) :=
  match s with
  | [] => None
  | a :: t =>
      let n := N_of_ascii a in
      if (n <? 128)%N then Some (n, 1%nat)
      else if ((194 <=? n) && (n <? 224))%N then
        match t with
        | b :: _ =>
            if is_continuation b
            then Some (((n - 192) * 64 + low_bits b)%N, 2%nat)
            else None
        | _ => None
        end
      else if ((224 <=? n) && (n <? 240))%N then
        match t with
        | b :: c :: _ =>
            let cp := ((n - 224) * 4096 + low_bits b * 64 + low_bits c)%N in
            if is_continuation b && is_continuation c
               && (2048 <=? cp)%N && negb ((55296 <=? cp) && (cp <? 57344))%N
            then Some (cp, 3%nat)
            else None
        | _ => None
        end
      else if ((240 <=? n) && (n <? 245))%N then
        match t with
        | b :: c :: d :: _ =>
            let cp := ((n - 240) * 262144 + low_bits b * 4096
                       + low_bits c * 64 + low_bits d)%N in
            if is_continuation b && is_continuation c && is_continuation d
               && (65536 <=? cp)%N && (cp <? 1114112)%N
            then Some (cp, 4%nat)
            else None
        | _ => None
        end
      else None
  end.

(** The code points of the digit zero of each script, in the Unicode
    database of the interpreter (version 14.0): the characters of category
    Nd are these and the nine code points after each. *)
Definition decimal_zeros : list N :=
  [48; 1632; 1776; 1984; 2406; 2534; 2662; 2790; 2918; 3046; 3174; 3302;
   3430; 3558; 3664; 3792; 3872; 4160; 4240; 6112; 6160; 6470; 6608; 6784;
   6800; 6992; 7088; 7232; 7248; 42528; 43216; 43264; 43472; 43504; 43600;
   44016; 65296; 66720; 68912; 69734; 69872; 69942; 70096; 70384; 70736;
   70864; 71248; 71360; 71472; 71904; 72016; 72784; 73040; 73120; 92768;
   92864; 93008; 120782; 120792; 120802; 120812; 120822; 123200; 123632;
   125264; 130032]%N.

(** The value of a decimal digit ([\d], [str.isdecimal]). *)
Definition decimal_value (cp : N) : option N :=
  (fun zero => (cp - zero)%N)
    <$> find (fun zero => (zero <=? cp) && (cp <? zero + 10))%N decimal_zeros.

(** [str.isspace] of a character. *)
Definition is_unicode_space (cp : N) : bool :=
  existsb (N.eqb cp)
    [9; 10; 11; 12; 13; 28; 29; 30; 31; 32; 133; 160; 5760; 8192; 8193; 8194;
     8195; 8196; 8197; 8198; 8199; 8200; 8201; 8202; 8232; 8233; 8239; 8287;
     12288]%N.

(** The line boundaries of [str.splitlines] other than CR LF. *)
Definition is_line_break (cp : N) : bool :=
  existsb (N.eqb cp) [10; 11; 12; 13; 28; 29; 30; 133; 8232; 8233]%N.

(** The number of bytes of the white-space character, of the decimal
    digit (with its value) and of the line boundary at the front of a
    text. *)
Definition front_space (s : list ascii) : option nat :=
  match utf8_front s with
  | Some (cp, k) => if is_unicode_space cp then Some k else None
  | None => None
  end.

Definition front_digit (s : list ascii) : option (N * nat) :=
  match utf8_front s with
  | Some (cp, k) => (fun d => (d, k)) <$> decimal_value cp
  | None => None
  end.

Definition front_break (s : list ascii) : option nat :=
  match s with
  | "013"%char :: "010"%char :: _ => Some 2%nat
  | _ =>
      match utf8_front s with
      | Some (cp, k) => if is_line_break cp then Some k else None
      | None => None
      end
  end.

(** *** [str.split], [str.strip], [str.splitlines] *)

(** [str.split(sep)] for a one-character separator: never the empty list. *)
Fixpoint split_char (sep : ascii) (s : list ascii) : list (list ascii) :=
  match s with
  | [] => [[]]
  | c :: t =>
      if ascii_eqb c sep then [] :: split_char sep t
      else match split_char sep t with
           | p :: ps => (c :: p) :: ps
           | [] => [[c]]
           end
  end.

(** [str.lstrip()]: [fuel] bounds the number of characters dropped. *)
Fixpoint lstrip_fuel (fuel : nat) (s : list ascii) : list ascii :=
  match fuel with
  | O => s
  | S f =>
      match front_space s with
      | Some k => lstrip_fuel f (drop k s)
      | None => s
      end
  end.

Definition lstrip (s : list ascii) : list ascii := lstrip_fuel (length s) s.

(** [s.isspace() or not s] *)
Definition blank (s : list ascii) : bool :=
  match lstrip s with [] => true | _ => false end.

(** [str.rstrip()]: the text up to its last character that is no white
    space. *)
Fixpoint rstrip (s : list ascii) : list ascii :=
  match s with
  | [] => []
  | c :: t => if blank s then [] else c :: rstrip t
  end.

Definition strip (s : list ascii) : list ascii := rstrip (lstrip s).

(** [str.split()] with no argument: maximal runs of characters that are no
    white space. [skip] counts the bytes of a white-space character still
    to be dropped, [cur] is the current piece, reversed. *)
Fixpoint words_go (skip : nat) (cur : list ascii) (s : list ascii)
  : list (list ascii) :=
  match s with
  | [] => match cur with [] => [] | _ => [rev cur] end
  | c :: t =>
      match skip with
      | S k => words_go k cur t
      | O =>
          match front_space s with
          | Some k =>
              match cur with
              | [] => words_go (k - 1) [] t
              | _ => rev cur :: words_go (k - 1) [] t
              end
          | None => words_go 0 (c :: cur) t
          end
      end
  end.

Definition words (s : list ascii) : list (list ascii) := words_go 0 [] s.

(** *** [int] *)

(** The characters of an integer literal brought to ASCII, as [int] does
    before it reads them: a white-space character beyond ASCII becomes a
    space, a decimal digit beyond ASCII the ASCII digit of its value; any
    other character beyond ASCII makes the literal invalid ([None]). *)
Fixpoint to_ascii_fuel (fuel : nat) (s : list ascii) : option (list ascii) :=
  match s with
  | [] => Some []
  | c :: t =>
      match fuel with
      | O => None
      | S f =>
          if is_ascii c then (fun r => c :: r) <$> to_ascii_fuel f t
          else
            match utf8_front s with
            | Some (cp, k) =>
                if is_unicode_space cp
                then (fun r => " "%char :: r) <$> to_ascii_fuel f (drop k s)
                else
                  match decimal_value cp with
                  | Some d => (fun r => digit_char d :: r) <$> to_ascii_fuel f (drop k s)
                  | None => None
                  end
            | None => None
            end
      end
  end.

Definition to_ascii (s : list ascii) : option (list ascii) :=
  to_ascii_fuel (length s) s.

(** The white space [int] skips around an ASCII literal: space, TAB, LF,
    VT, FF and CR (not the separators FS, GS, RS, US). *)
Definition is_c_space (c : ascii) : bool :=
  let n := N_of_ascii c in ((n =? 32) || ((9 <=? n) && (n <=? 13)))%N.

Fixpoint skip_c_space (s : list ascii) : list ascii :=
  match s with
  | c :: t => if is_c_space c then skip_c_space t else s
  | [] => []
  end.

Definition trim_c_space (s : list ascii) : list ascii :=
  rev (skip_c_space (rev (skip_c_space s))).

(** The digits of [int(s)] after the sign: decimal digits, single
    underscores allowed between two digits. [seen] tells whether the
    previous character was a digit. *)
Fixpoint parse_digits (acc : N) (seen : bool) (s : list ascii) : option N :=
  match s with
  | [] => if seen then Some acc else None
  | c :: t =>
      if is_digit c then parse_digits (acc * 10 + digit_val c)%N true t
      else if ascii_eqb c "_"%char && seen then parse_digits acc false t
      else None
  end.

(** [int(s)]: [None] stands for [ValueError]. *)
Definition py_int (s : list ascii) : option Z :=
  literal ← to_ascii s;
  match trim_c_space literal with
  | c :: t =>
      if ascii_eqb c "-"%char then (fun n => - Z.of_N n) <$> parse_digits 0%N false t
      else if ascii_eqb c "+"%char then Z.of_N <$> parse_digits 0%N false t
      else Z.of_N <$> parse_digits 0%N false (c :: t)
  | [] => None
  end.

(** Decimal digits of a natural number, most significant first. *)
Fixpoint digits_fuel (fuel : nat) (n : N) (acc : list ascii) : list ascii :=
  match fuel with
  | O => acc
  | S f =>
      let acc' := digit_char (n mod 10)%N :: acc in
      if (n / 10 =? 0)%N then acc' else digits_fuel f (n / 10)%N acc'
  end.

Definition digits_of_N (n : N) : list ascii :=
  digits_fuel (S (N.to_nat (N.log2 n))) n [].

(** [str(z)] for an [int]. *)
Definition str_of_Z (z : Z) : list ascii :=
  if z <? 0 then "-"%char :: digits_of_N (Z.to_N (- z))
  else digits_of_N (Z.to_N z).

Fixpoint is_prefix (p s : list ascii) : bool :=
  match p, s with
  | [], _ => true
  | a :: p', b :: s' => ascii_eqb a b && is_prefix p' s'
  | _ :: _, [] => false
  end.

(** [sub in s]. *)
Fixpoint contains (sub s : list ascii) : bool :=
  is_prefix sub s || match s with [] => false | _ :: t => contains sub t end.

(** [s.split(sep)] for a non-empty separator; [skip] counts the characters
    of a separator still to be dropped, [cur] is the current piece, reversed. *)
Fixpoint split_go (sep : list ascii) (skip : nat) (cur s : list ascii)
  : list (list ascii) :=
  match s with
  | [] => [rev cur]
  | c :: t =>
      match skip with
      | S k => split_go sep k cur t
      | O =>
          if is_prefix sep s
          then rev cur :: split_go sep (length sep - 1) [] t
          else split_go sep 0 (c :: cur) t
      end
  end.

Definition split_str (sep s : list ascii) : list (list ascii) :=
  split_go sep 0 [] s.

(** [s.splitlines()]: the lines end at LF, CR, CR LF, VT, FF, FS, GS, RS,
    NEL, LS and PS; no empty last line. *)
Fixpoint splitlines_go (skip : nat) (cur : list ascii) (s : list ascii)
  : list (list ascii) :=
  match s with
  | [] => match cur with [] => [] | _ => [rev cur] end
  | c :: t =>
      match skip with
      | S k => splitlines_go k cur t
      | O =>
          match front_break s with
          | Some k => rev cur :: splitlines_go (k - 1) [] t
          | None => splitlines_go 0 (c :: cur) t
          end
      end
  end.

Definition splitlines (s : list ascii) : list (list ascii) :=
  splitlines_go 0 [] s.

(** What a file opened for reading in text mode gives for its line ends:
    CR LF and a lone CR become LF. *)
Fixpoint universal_newlines (s : list ascii) : list ascii :=
  match s with
  | [] => []
  | c :: t =>
      if ascii_eqb c "013"%char then
        match t with
        | d :: u =>
            if ascii_eqb d "010"%char then universal_newlines t
            else "010"%char :: universal_newlines t
        | [] => ["010"%char]
        end
      else c :: universal_newlines t
  end.

(** The bytes are the UTF-8 encoding of a text. *)
Fixpoint valid_utf8_fuel (fuel : nat) (s : list ascii) : bool :=
  match s with
  | [] => true
  | _ :: _ =>
      match fuel with
      | O => false
      | S f =>
          match utf8_front s with
          | Some (_, k) => valid_utf8_fuel f (drop k s)
          | None => false
          end
      end
  end.

Definition valid_utf8 (s : list ascii) : bool := valid_utf8_fuel (length s) s.

(** The value read from a run of digits, starting from [acc]. *)
Definition dval (acc : N) (ds : list ascii) : N :=
  fold_left (fun a c => (a * 10 + digit_val c)%N) ds acc.

End Text.

(** ** Exceptions, the world and the environment *)

(** The exceptions the script can meet; all are subclasses of [Exception]. *)
Inductive exn : Type :=
  | RuntimeError (msg : string)
  | CalledProcessError (argv : list string) (returncode : Z)
  | FileNotFoundError (path : string)
  | IsADirectoryError (path : string)
  | NotADirectoryError (path : string)
  | FileExistsError (path : string)
  | ValueError (msg : string)
  | AttributeError (msg : string)
  | IndexError
  | UnboundLocalError (name : string)
  | ReError (msg : string)
  | PlistError
  | GitPythonError (msg : string)
  | PermissionError (path : string)
  | OSError (msg : string)
  | TypeError (msg : string)
  | OverflowError (msg : string)
  | UnicodeDecodeError
  | UnicodeEncodeError.

Definition is_CalledProcessError (e : exn) : bool :=
  match e with CalledProcessError _ _ => true | _ => false end.

Definition is_FileNotFoundError (e : exn) : bool :=
  match e with FileNotFoundError _ => true | _ => false end.

(** [except Exception]. *)
Definition any_Exception (e : exn) : bool := true.

(** [str(e)], abbreviated: the texts only reach the console. *)
Definition exn_str (e : exn) : string :=
  match e with
  | RuntimeError msg => msg
  | CalledProcessError argv _ =>
      "Command " +:+ default "" (head argv) +:+ " returned non-zero exit status"
  | FileNotFoundError p => "No such file or directory: " +:+ p
  | IsADirectoryError p => "Is a directory: " +:+ p
  | NotADirectoryError p => "Not a directory: " +:+ p
  | FileExistsError p => "File exists: " +:+ p
  | ValueError msg => msg
  | AttributeError msg => msg
  | IndexError => "list index out of range"
  | UnboundLocalError n => "local variable " +:+ n +:+ " referenced before assignment"
  | ReError msg => msg
  | PlistError => "Invalid file"
  | GitPythonError msg => msg
  | PermissionError p => "Permission denied: " +:+ p
  | OSError msg => msg
  | TypeError msg => msg
  | OverflowError msg => msg
  | UnicodeDecodeError => "codec can't decode byte"
  | UnicodeEncodeError => "codec can't encode character"
  end.

Inductive outcome (A : Type) : Type :=
  | Ok (a : A)
  | Raise (e : exn).
Arguments Ok {A} a.
Arguments Raise {A} e.

(** A file-system entry: a regular file with its content, or a directory
    (an application bundle is a directory). *)
Inductive node : Type :=
  | File (content : string)
  | Dir.

(** What [subprocess.run] learns from the program it starts.
    [LaunchFailed]: the program could not be started at all. *)
Inductive proc_result : Type :=
  | Exited (returncode : Z) (stdout stderr : string)
  | LaunchFailed.

(** The GitPython calls of the script. *)
Inductive git_op : Type :=
  | GpRepo (path : string)
  | GpAdd (file : string)
  | GpCommit (message : string)
  | GpRemote (name : string)
  | GpPush (refspec : option string)
  | GpCreateTag (name message : string)
  | GpTags
  | GpIterCommits (rev : option string).

(** The answer of a GitPython call: an exception, or the part of the
    result the script reads (the ERROR bit of each [PushInfo], tag names,
    commit summaries). *)
Record gp_answer : Type := {
  gp_raise : option exn;
  gp_error_flags : list bool;
  gp_names : list string
}.

(** What [os.stat] and the formatting of the modification time give for
    a directory entry: its size and the time as printed, or the exception
    of [stat], [fromtimestamp] or [strftime]. *)
Inductive stat_answer : Type :=
  | Stat (st_size : N) (mod_time : string)
  | StatError (e : exn).

(** An external call, as logged. *)
Inductive call : Type :=
  | Proc (argv : list string) (in_dir : string)
  | GitPy (op : git_op)
  | Archive (zip_path : string).

(** ** Regular expressions of the script *)

(** The three patterns of the script are sequences of literal text and of
    the class repetition [[\d\.]+]; [re.sub] and its replacement templates
    are modelled for such patterns (which have no groups and never match
    the empty string). Each pattern starts with an ASCII letter, so a match
    starts at a byte that begins a character, and copying the bytes at
    which no match starts copies the characters between the matches. *)
Module Re.
Import Text.

Inductive atom : Type :=
  | Lit (s : list ascii)
  | DigitDotPlus.

(** The class [[\d\.]] on a [str] pattern: the dot and the decimal digits
    of every script. [class_len s] is the number of bytes of the class
    character at the front of [s], [0] when there is none. *)
Definition class_len (s : list ascii) : nat :=
  match s with
  | c :: _ =>
      if ascii_eqb c "." then 1%nat
      else match front_digit s with
           | Some (_, k) => k
           | None => 0%nat
           end
  | [] => 0%nat
  end.

(** Greedy repetition [[\d\.]+] followed by the continuation [k]: take a
    class character, then as many more as allow [k] to succeed; the
    continuation is tried after the longest run first, then after shorter
    ones, down to one character. [fuel] bounds the number of characters. *)
Fixpoint repeat_class (fuel : nat) (k : list ascii -> option (list ascii))
  (s : list ascii) : option (list ascii) :=
  match fuel with
  | O => None
  | S f =>
      match class_len s with
      | O => None
      | n =>
          match repeat_class f k (drop n s) with
          | Some r => Some r
          | None => k (drop n s)
          end
      end
  end.

(** [match_here p s]: the text left after a match of [p] at the start of
    [s], if there is one. *)
Fixpoint match_here (p : list atom) (s : list ascii) : option (list ascii) :=
  match p with
  | [] => Some s
  | Lit l :: p' =>
      if is_prefix l s then match_here p' (drop (length l) s) else None
  | DigitDotPlus :: p' => repeat_class (length s) (match_here p') s
  end.

(** A parsed replacement template: literal characters and references to
    the whole match ([\g<0>]). *)
Inductive piece : Type :=
  | Ch (c : ascii)
  | Whole.

Definition is_octal (c : ascii) : bool :=
  let n := N_of_ascii c in ((48 <=? n) && (n <=? 55))%N.

Definition is_ascii_letter (c : ascii) : bool :=
  let n := N_of_ascii c in
  (((65 <=? n) && (n <=? 90)) || ((97 <=? n) && (n <=? 122)))%N.

Definition backslash : ascii := "092"%char.

(** The one-letter escapes of a template. *)
Definition simple_escape (c : ascii) : option ascii :=
  if ascii_eqb c "a" then Some "007"%char
  else if ascii_eqb c "b" then Some "008"%char
  else if ascii_eqb c "f" then Some "012"%char
  else if ascii_eqb c "n" then Some "010"%char
  else if ascii_eqb c "r" then Some "013"%char
  else if ascii_eqb c "t" then Some "009"%char
  else if ascii_eqb c "v" then Some "011"%char
  else if ascii_eqb c backslash then Some backslash
  else None.

Definition octal_char (ds : list ascii) : ascii :=
  ascii_of_N (fold_left (fun a c => (a * 8 + digit_val c)%N) ds 0%N mod 256).

(** The character of an octal escape with three digits, as bytes: two
    bytes from U+0080 on. *)
Definition octal_pieces (ds : list ascii) : list ascii :=
  let v := fold_left (fun a c => (a * 8 + digit_val c)%N) ds 0%N in
  if (v <? 128)%N then [ascii_of_N v]
  else [ascii_of_N (192 + v / 64); ascii_of_N (128 + v mod 64)].

(** The text before the first [>], for the name of a group reference. *)
Fixpoint until_gt (s : list ascii) : option (list ascii) :=
  match s with
  | [] => None
  | c :: t => if ascii_eqb c ">" then Some [] else (fun n => c :: n) <$> until_gt t
  end.

(** [parse_template]: [skip] characters already consumed by an escape are
    dropped. [None] is [re.error] (or the [IndexError] of an unknown group
    name): the patterns have no groups, so the only valid reference is
    the whole match, [\g<0>] with the number written in any way [int]
    reads as zero. *)
Fixpoint parse_template_go (skip : nat) (s : list ascii) : option (list piece) :=
  match s with
  | [] => Some []
  | c :: t =>
      match skip with
      | S k => parse_template_go k t
      | O =>
          if ascii_eqb c backslash then
            match t with
            | [] => None
            | e :: u =>
                if ascii_eqb e "g" then
                  match u with
                  | lt :: v =>
                      if ascii_eqb lt "<" then
                        match until_gt v with
                        | Some name =>
                            match py_int name with
                            | Some 0 =>
                                (fun r => Whole :: r)
                                  <$> parse_template_go (length name + 3) t
                            | _ => None
                            end
                        | None => None
                        end
                      else None
                  | [] => None
                  end
                else if ascii_eqb e "0" then
                  match u with
                  | d1 :: d2 :: _ =>
                      if is_octal d1 && is_octal d2
                      then (fun r => Ch (octal_char [d1; d2]) :: r) <$> parse_template_go 3 t
                      else if is_octal d1
                      then (fun r => Ch (octal_char [d1]) :: r) <$> parse_template_go 2 t
                      else (fun r => Ch (octal_char []) :: r) <$> parse_template_go 1 t
                  | [d1] =>
                      if is_octal d1
                      then (fun r => Ch (octal_char [d1]) :: r) <$> parse_template_go 2 t
                      else (fun r => Ch (octal_char []) :: r) <$> parse_template_go 1 t
                  | [] => (fun r => Ch (octal_char []) :: r) <$> parse_template_go 1 t
                  end
                else if is_digit e then
                  match u with
                  | d1 :: d2 :: _ =>
                      if is_octal e && is_octal d1 && is_octal d2
                      then
                        if (fold_left (fun a c => (a * 8 + digit_val c)%N) [e; d1; d2] 0 <=? 255)%N
                        then (fun r => map Ch (octal_pieces [e; d1; d2]) ++ r)
                               <$> parse_template_go 3 t
                        else None
                      else None
                  | _ => None
                  end
                else
                  match simple_escape e with
                  | Some x => (fun r => Ch x :: r) <$> parse_template_go 1 t
                  | None =>
                      if is_ascii_letter e then None
                      else (fun r => Ch c :: Ch e :: r) <$> parse_template_go 1 t
                  end
            end
          else (fun r => Ch c :: r) <$> parse_template_go 0 t
      end
  end.

Definition parse_template (repl : list ascii) : option (list piece) :=
  parse_template_go 0 repl.

Definition instantiate (tmpl : list piece) (matched : list ascii) : list ascii :=
  concat (map (fun pc => match pc with Ch c => [c] | Whole => matched end) tmpl).

(** The scan of [re.sub]: at each position the leftmost match is replaced
    and the scan resumes after it; otherwise the character is copied. *)
Fixpoint sub_go (fuel : nat) (p : list atom) (tmpl : list piece)
  (s : list ascii) : list ascii :=
  match fuel with
  | O => s
  | S f =>
      match s with
      | [] => []
      | c :: t =>
          match match_here p s with
          | Some rest =>
              if (length rest <? length s)%nat
              then instantiate tmpl (take (length s - length rest) s)
                     ++ sub_go f p tmpl rest
              else c :: sub_go f p tmpl t
          | None => c :: sub_go f p tmpl t
          end
      end
  end.

(** [re.sub(pattern, repl, s)] on strings; [None] when the template is
    rejected. *)
Definition re_sub (p : list atom) (repl s : string) : option string :=
  tmpl ← parse_template (chars repl);
  Some (text (sub_go (length (chars s)) p tmpl (chars s))).

(** [version "[\d\.]+"] *)
Definition version_pattern : list atom :=
  [Lit (chars ("version " +:+ dq)); DigitDotPlus; Lit (chars dq)].

(** [url "https://github\.com/barnuri/win-dock/releases/download/v[\d\.]+/WinDock\.zip"] *)
Definition url_pattern : list atom :=
  [Lit (chars ("url " +:+ dq +:+ "https://github.com/barnuri/win-dock/releases/download/v"));
   DigitDotPlus;
   Lit (chars ("/WinDock.zip" +:+ dq))].

(** [sha256 :no_check] *)
Definition no_check_pattern : list atom := [Lit (chars "sha256 :no_check")].

End Re.

(** The state the script acts on. The last six fields are the attributes
    of the [ReleaseManager] object ([None]: attribute holding [None] or
    not yet set) and the local variable [original_dir] of
    [submit_to_homebrew] ([None]: unbound). *)
Record World : Type := mkWorld {
  fs : gmap string node;
  cwd : string;
  console : list string;
  calls : list call;
  current_version : option string;
  new_version : option string;
  tag_name : option string;
  release_notes : option string;
  dry_run : bool;
  original_dir : option string
}.

Definition set_fs (f : gmap string node) (w : World) : World :=
  mkWorld f (cwd w) (console w) (calls w) (current_version w) (new_version w)
    (tag_name w) (release_notes w) (dry_run w) (original_dir w).
Definition set_cwd (d : string) (w : World) : World :=
  mkWorld (fs w) d (console w) (calls w) (current_version w) (new_version w)
    (tag_name w) (release_notes w) (dry_run w) (original_dir w).
Definition set_console (c : list string) (w : World) : World :=
  mkWorld (fs w) (cwd w) c (calls w) (current_version w) (new_version w)
    (tag_name w) (release_notes w) (dry_run w) (original_dir w).
Definition set_calls (c : list call) (w : World) : World :=
  mkWorld (fs w) (cwd w) (console w) c (current_version w) (new_version w)
    (tag_name w) (release_notes w) (dry_run w) (original_dir w).
Definition set_current_version (v : option string) (w : World) : World :=
  mkWorld (fs w) (cwd w) (console w) (calls w) v (new_version w)
    (tag_name w) (release_notes w) (dry_run w) (original_dir w).
Definition set_new_version (v : option string) (w : World) : World :=
  mkWorld (fs w) (cwd w) (console w) (calls w) (current_version w) v
    (tag_name w) (release_notes w) (dry_run w) (original_dir w).
Definition set_tag_name (v : option string) (w : World) : World :=
  mkWorld (fs w) (cwd w) (console w) (calls w) (current_version w) (new_version w)
    v (release_notes w) (dry_run w) (original_dir w).
Definition set_release_notes (v : option string) (w : World) : World :=
  mkWorld (fs w) (cwd w) (console w) (calls w) (current_version w) (new_version w)
    (tag_name w) v (dry_run w) (original_dir w).
Definition set_dry_run (b : bool) (w : World) : World :=
  mkWorld (fs w) (cwd w) (console w) (calls w) (current_version w) (new_version w)
    (tag_name w) (release_notes w) b (original_dir w).
Definition set_original_dir (v : option string) (w : World) : World :=
  mkWorld (fs w) (cwd w) (console w) (calls w) (current_version w) (new_version w)
    (tag_name w) (release_notes w) (dry_run w) v.

(** Everything outside the script. The oracles see how many external calls
    came before ([nat]), so the same command may answer differently at
    different times. A started program may change any file; it cannot
    change the script's working directory.

    [plist_dump d] is what [plistlib.dump] writes for the dictionary [d]
    and the exception it ends with, if any (a value it cannot write);
    [plist_dump_none d] is what it has written of [d] when it meets the
    value [None] under the two version keys. [decode] and [encode] are the
    codec of the locale, used by files opened in text mode: from the bytes
    of a file to a text and back, [None] where the codec fails. The output
    of a program run with [text=True] is given as the decoded text. *)
Record Env : Type := mkEnv {
  root_dir : string;              (* [Path(__file__).resolve().parent] *)
  root_parent : string;           (* [root_dir.parent] *)
  HAVE_GITPYTHON : bool;          (* [find_spec("git") is not None] *)
  have_pygithub : bool;           (* [find_spec("github") is not None] *)
  today : string;                 (* [datetime.now().strftime('%Y-%m-%d')] *)
  plist_load : string -> option (gmap string string);
  plist_dump : gmap string string -> string * option exn;
  plist_dump_none : gmap string string -> string;
  decode : string -> option string;
  encode : string -> option string;
  chmod_error : nat -> string -> option exn;     (* [os.chmod] refused *)
  iterdir_error : nat -> string -> option exn;   (* [Path.iterdir] refused *)
  stat : nat -> string -> stat_answer;
  run_process : nat -> list string -> string -> gmap string node
                -> proc_result * gmap string node;
  gitpython : nat -> git_op -> gp_answer;
  zip_bytes : gmap string node -> option string
}.

(** ** The monad of the script: state and exceptions *)

Definition M (A : Type) : Type := World -> outcome A * World.

Definition ret {A} (a : A) : M A := fun w => (Ok a, w).

Definition bind {A B} (m : M A) (k : A -> M B) : M B :=
  fun w =>
    match m w with
    | (Ok a, w') => k a w'
    | (Raise e, w') => (Raise e, w')
    end.

Definition raise {A} (e : exn) : M A := fun w => (Raise e, w).

Declare Scope py_scope.
Delimit Scope py_scope with py.
Notation "x <- m ;; k" := (bind m (fun x => k))
  (at level 100, m at next level, right associativity) : py_scope.
Notation "m ;; k" := (bind m (fun _ => k))
  (at level 100, right associativity) : py_scope.
Local Open Scope py_scope.

(** [try: body except <classes> as e: handler e]. *)
Definition try_except {A} (body : M A) (classes : exn -> bool)
  (handler : exn -> M A) : M A :=
  fun w =>
    match body w with
    | (Raise e, w') => if classes e then handler e w' else (Raise e, w')
    | r => r
    end.

(** [try: body finally: final]: an exception of [final] replaces the
    outcome of [body]. *)
Definition try_finally {A} (body : M A) (final : M unit) : M A :=
  fun w =>
    match body w with
    | (r, w') =>
        match final w' with
        | (Ok _, w'') => (r, w'')
        | (Raise e, w'') => (Raise e, w'')
        end
    end.

Definition get {A} (f : World -> A) : M A := fun w => (Ok (f w), w).
Definition modify (f : World -> World) : M unit := fun w => (Ok tt, f w).

Definition when (b : bool) (m : M unit) : M unit := if b then m else ret tt.

Fixpoint for_each {A} (l : list A) (body : A -> M unit) : M unit :=
  match l with
  | [] => ret tt
  | x :: t => body x ;; for_each t body
  end.

Definition print (line : string) : M unit :=
  modify (fun w => set_console (console w ++ [line]) w).

(** [f"{x}"] for an attribute that may hold [None]. *)
Definition fmt (v : option string) : string := default "None" v.

(** Reading an attribute that [__init__] does not set. *)
Definition attr (name : string) (f : World -> option string) : M string :=
  v <- get f ;;
  match v with
  | Some s => ret s
  | None => raise (AttributeError ("'ReleaseManager' object has no attribute " +:+ name))
  end.

(** ** File-system and process primitives *)

(** Paths are absolute strings joined with ["/"]. Links and the existence
    of parent directories are not modelled; of the access rights, only
    those [os.chmod], [Path.iterdir] and [os.stat] meet in [build_app]
    (oracles of the environment). *)

Definition path_exists (p : string) : M bool :=
  get (fun w => bool_decide (is_Some (fs w !! p))).

Definition is_dir (p : string) : M bool :=
  get (fun w => match fs w !! p with Some Dir => true | _ => false end).

(** [Path.unlink] / [os.unlink]. *)
Definition unlink (p : string) : M unit :=
  fun w =>
    match fs w !! p with
    | Some (File _) => (Ok tt, set_fs (delete p (fs w)) w)
    | Some Dir => (Raise (IsADirectoryError p), w)
    | None => (Raise (FileNotFoundError p), w)
    end.

(** [open(p, "rb").read()]. *)
Definition read_file (p : string) : M string :=
  fun w =>
    match fs w !! p with
    | Some (File c) => (Ok c, w)
    | Some Dir => (Raise (IsADirectoryError p), w)
    | None => (Raise (FileNotFoundError p), w)
    end.

(** [open(p, "wb").write(c)]: the file is created or replaced. *)
Definition write_file (p c : string) : M unit :=
  fun w =>
    match fs w !! p with
    | Some Dir => (Raise (IsADirectoryError p), w)
    | _ => (Ok tt, set_fs (<[p := File c]> (fs w)) w)
    end.

Definition below (dir p : string) : bool :=
  String.prefix (dir +:+ "/") p.

(** [shutil.rmtree]. *)
Definition rmtree (p : string) : M unit :=
  fun w =>
    match fs w !! p with
    | Some Dir =>
        (Ok tt, set_fs (filter (fun kv => below p kv.1 = false) (delete p (fs w))) w)
    | Some (File _) => (Raise (NotADirectoryError p), w)
    | None => (Raise (FileNotFoundError p), w)
    end.

(** [Path.mkdir(exist_ok=True)]. *)
Definition mkdir (p : string) : M unit :=
  fun w =>
    match fs w !! p with
    | Some Dir => (Ok tt, w)
    | Some (File _) => (Raise (FileExistsError p), w)
    | None => (Ok tt, set_fs (<[p := Dir]> (fs w)) w)
    end.

Definition getcwd : M string := get cwd.

Definition chdir (p : string) : M unit :=
  fun w =>
    match fs w !! p with
    | Some Dir => (Ok tt, set_cwd p w)
    | Some (File _) => (Raise (NotADirectoryError p), w)
    | None => (Raise (FileNotFoundError p), w)
    end.

(** [shutil.copy2(src, dst)] for a file [src] named [name]: into [dst] when
    [dst] is a directory. *)
Definition copy2 (src name dst : string) : M unit :=
  c <- read_file src ;;
  d <- is_dir dst ;;
  write_file (if d then dst +:+ "/" +:+ name else dst) c.

(** The captured result of a finished process. *)
Record completed : Type := mkCompleted {
  returncode : Z;
  stdout : string;
  stderr : string
}.

Section Primitives.
Variable env : Env.

(** [open(p, "r").read()]: the bytes of the file are decoded by the codec
    of the locale, then CR LF and CR become LF. *)
Definition read_text (p : string) : M string :=
  data <- read_file p ;;
  match decode env data with
  | Some content => ret (Text.text (Text.universal_newlines (Text.chars content)))
  | None => raise UnicodeDecodeError
  end.

(** [open(p, "w").write(c)] where the line separator is LF: opening the
    file empties it; the text is encoded at once, so a text the codec
    refuses leaves the file empty. *)
Definition write_text (p c : string) : M unit :=
  match encode env c with
  | Some data => write_file p data
  | None => write_file p "" ;; raise UnicodeEncodeError
  end.

(** [os.chmod(p, 0o755)]. *)
Definition chmod (p : string) : M unit :=
  fun w =>
    match fs w !! p with
    | Some _ =>
        match chmod_error env (length (calls w)) p with
        | Some e => (Raise e, w)
        | None => (Ok tt, w)
        end
    | None => (Raise (FileNotFoundError p), w)
    end.

(** [subprocess.run(argv, check=check)]: the call is logged, the program
    may change files; a program that cannot be started raises
    [FileNotFoundError], a non-zero exit under [check=True] raises
    [CalledProcessError]. Captured output is taken to be decodable. *)
Definition subprocess_run (argv : list string) (check : bool) : M completed :=
  fun w =>
    let w1 := set_calls (calls w ++ [Proc argv (cwd w)]) w in
    match run_process env (length (calls w)) argv (cwd w) (fs w) with
    | (LaunchFailed, _) => (Raise (FileNotFoundError (default "" (head argv))), w1)
    | (Exited rc out err, fs') =>
        let w2 := set_fs fs' w1 in
        if check && negb (rc =? 0)
        then (Raise (CalledProcessError argv rc), w2)
        else (Ok (mkCompleted rc out err), w2)
    end.

(** A GitPython call: logged, then answered by the oracle. *)
Definition gitpy (op : git_op) : M gp_answer :=
  fun w =>
    let a := gitpython env (length (calls w)) op in
    let w1 := set_calls (calls w ++ [GitPy op]) w in
    match gp_raise a with
    | Some e => (Raise e, w1)
    | None => (Ok a, w1)
    end.

(** [shutil.make_archive(base, "zip", release_dir, "WinDock.app")]. *)
Definition make_archive (zip_path : string) : M unit :=
  fun w =>
    let w1 := set_calls (calls w ++ [Archive zip_path]) w in
    match zip_bytes env (fs w) with
    | Some bytes => write_file zip_path bytes w1
    | None => (Raise (FileNotFoundError zip_path), w1)
    end.

End Primitives.

(** [try: body except ...: ...] with several clauses: [handlers e] is the
    handler of the first clause matching [e]. An exception raised by a
    handler is not caught by the other clauses. *)
Definition try_catch {A} (body : M A) (handlers : exn -> option (M A)) : M A :=
  fun w =>
    match body w with
    | (Raise e, w') =>
        match handlers e with
        | Some h => h w'
        | None => (Raise e, w')
        end
    | r => r
    end.

Definition nl : string := String "010"%char EmptyString.

(** Lifting a computation that may fail with [e]. *)
Definition or_raise {A} (o : option A) (e : exn) : M A :=
  match o with
  | Some a => ret a
  | None => raise e
  end.

(** ** Version arithmetic ([calculate_new_version]) *)

Module Version.
Import Text.

(** [parts[i]] read as an integer when [len(parts) > i], else [0]. *)
Definition component (parts : list (list ascii)) (i : nat) : option Z :=
  match parts !! i with
  | Some p => py_int p
  | None => Some 0
  end.

(** The three integers read from [current_version.split(".")]; [None] is
    the [ValueError] of [int]. *)
Definition parse_version (cur : string) : option (Z * Z * Z) :=
  let parts := split_char "." (chars cur) in
  major ← py_int (default [] (head parts));
  minor ← component parts 1;
  patch ← component parts 2;
  Some (major, minor, patch).

(** The [if]/[elif] chain on [version_type]. *)
Definition bump (version_type : string) (v : Z * Z * Z) : Z * Z * Z :=
  let '(major, minor, patch) := v in
  if String.eqb version_type "major" then (major + 1, 0, 0)
  else if String.eqb version_type "minor" then (major, minor + 1, 0)
  else if String.eqb version_type "patch" then (major, minor, patch + 1)
  else (major, minor, patch).

(** [f"{major}.{minor}.{patch}"] *)
Definition format_version (v : Z * Z * Z) : string :=
  let '(major, minor, patch) := v in
  text (str_of_Z major ++ "."%char :: str_of_Z minor ++ "."%char :: str_of_Z patch).

(** The three choices of the command line. *)
Inductive BumpKind : Type := Major | Minor | Patch.

Definition kind_name (k : BumpKind) : string :=
  match k with
  | Major => "major"
  | Minor => "minor"
  | Patch => "patch"
  end.

(** Semantic-versioning precedence on triples. *)
Definition version_lt (a b : Z * Z * Z) : Prop :=
  let '(a1, a2, a3) := a in
  let '(b1, b2, b3) := b in
  a1 < b1 \/ (a1 = b1 /\ (a2 < b2 \/ (a2 = b2 /\ a3 < b3))).

End Version.

(** ** The release manager *)

Section ReleaseManager.
Variable env : Env.

Definition info_plist_path : string := root_dir env +:+ "/WinDock/Info.plist".
Definition build_dir : string := root_dir env +:+ "/build".
Definition release_dir : string := build_dir +:+ "/Build/Products/Release".
Definition app_path : string := release_dir +:+ "/WinDock.app".
Definition dmg_path : string := root_dir env +:+ "/WinDock.dmg".
Definition zip_path : string := root_dir env +:+ "/WinDock.zip".
Definition build_script : string := root_dir env +:+ "/build.sh".
Definition local_formula_path : string :=
  root_dir env +:+ "/homebrew-tap/Formula/windock.rb".
Definition release_notes_path : string := root_dir env +:+ "/release_notes.md".
Definition homebrew_tap_dir : string := root_parent env +:+ "/homebrew-windock-temp".
Definition tap_formula_dir : string := homebrew_tap_dir +:+ "/Formula".
Definition tap_formula_path : string := tap_formula_dir +:+ "/windock.rb".
Definition scratch_zip : string := "/tmp/WinDock.zip".

(** *** [cleanup_stale_resources] *)

Definition remove_stale (file : string * string) : M unit :=
  let '(file_path, name) := file in
  e <- path_exists file_path ;;
  when e
    (try_catch
       (unlink file_path ;;
        print ("🗑️ Removed existing " +:+ name))
       (fun e => Some (print ("⚠️ Warning: Could not remove " +:+ name +:+ ": " +:+ exn_str e)))).

Definition unmount_line (line : list ascii) : M unit :=
  when (Text.contains (Text.chars "WinDock") line
        && Text.contains (Text.chars "/Volumes/") line)
    (let parts := Text.split_str (Text.chars " on ") line in
     match parts !! 1%nat with
     | Some part =>
         let volume_path :=
           Text.text (default [] (head (Text.split_str (Text.chars " (") part))) in
         try_catch
           (subprocess_run env ["hdiutil"; "detach"; volume_path] false ;;
            print ("🗑️ Unmounted " +:+ volume_path))
           (fun _ => Some (ret tt))
     | None => ret tt
     end).

Definition cleanup_stale_resources : M unit :=
  print "🧹 Cleaning up stale resources..." ;;
  for_each [(dmg_path, "WinDock.dmg"); (zip_path, "WinDock.zip")] remove_stale ;;
  try_catch
    (result <- subprocess_run env ["mount"] false ;;
     when (returncode result =? 0)
       (for_each (Text.splitlines (Text.chars (stdout result))) unmount_line))
    (fun _ => Some (ret tt)).

(** *** [get_current_version] *)

Definition get_current_version : M unit :=
  try_catch
    (data <- read_file info_plist_path ;;
     plist_data <- or_raise (plist_load env data) PlistError ;;
     match plist_data !! "CFBundleShortVersionString" with
     | Some v =>
         modify (set_current_version (Some v)) ;;
         print ("📊 Current version: " +:+ v)
     | None =>
         modify (set_current_version (Some "1.0.0")) ;;
         print "📊 No existing version found, defaulting to: 1.0.0"
     end)
    (fun e => Some (raise (RuntimeError ("❌ Error reading Info.plist: " +:+ exn_str e)))).

(** *** [calculate_new_version] *)

Definition calculate_new_version (version_type : string) : M unit :=
  try_catch
    (cur <- get current_version ;;
     cur <- or_raise cur (AttributeError "'NoneType' object has no attribute 'split'") ;;
     v <- or_raise (Version.parse_version cur)
            (ValueError "invalid literal for int() with base 10") ;;
     let new := Version.format_version (Version.bump version_type v) in
     modify (set_new_version (Some new)) ;;
     modify (set_tag_name (Some ("v" +:+ new))) ;;
     print ("📈 New version: " +:+ new))
    (fun e => Some (raise (RuntimeError ("❌ Error calculating new version: " +:+ exn_str e)))).

(** *** [update_homebrew_formula_version] *)

(** The two substitutions on the formula text; [None] when [re.sub]
    rejects a replacement template. *)
Definition formula_substitution (new : string) (content : string) : option string :=
  updated ← Re.re_sub Re.version_pattern
              ("version " +:+ Text.dq +:+ new +:+ Text.dq) content;
  Re.re_sub Re.url_pattern
    ("url " +:+ Text.dq +:+ "https://github.com/barnuri/win-dock/releases/download/v"
       +:+ new +:+ "/WinDock.zip" +:+ Text.dq)
    updated.

Definition update_homebrew_formula_version : M unit :=
  e <- path_exists local_formula_path ;;
  if negb e then
    print "⚠️ Warning: Homebrew formula file not found, skipping version update"
  else
    try_catch
      (content <- read_text env local_formula_path ;;
       new <- get new_version ;;
       updated <- or_raise (formula_substitution (fmt new) content) (ReError "bad escape") ;;
       write_text env local_formula_path updated ;;
       print ("📝 Updated Homebrew formula with version " +:+ fmt new))
      (fun e => Some
         (print ("⚠️ Warning: Error updating Homebrew formula: " +:+ exn_str e) ;;
          print "You may need to update the formula version manually.")).

(** *** [update_version_in_plist] *)

(** The file is opened for writing, and so emptied, before
    [plistlib.dump] runs; a dump that raises leaves what it had written.
    [plistlib.dump] refuses a [None] value. *)
Definition update_version_in_plist : M unit :=
  dr <- get dry_run ;;
  new <- get new_version ;;
  if dr then
    print ("🔍 [DRY RUN] Would update Info.plist with version " +:+ fmt new)
  else
    try_catch
      (data <- read_file info_plist_path ;;
       plist_data <- or_raise (plist_load env data) PlistError ;;
       match new with
       | Some v =>
           let dumped :=
             plist_dump env
               (<["CFBundleVersion" := v]>
                  (<["CFBundleShortVersionString" := v]> plist_data)) in
           write_file info_plist_path dumped.1 ;;
           match dumped.2 with
           | Some e => raise e
           | None => ret tt
           end
       | None =>
           write_file info_plist_path (plist_dump_none env plist_data) ;;
           raise (TypeError "unsupported type: <class 'NoneType'>")
       end ;;
       print ("📝 Updated Info.plist with version " +:+ fmt new) ;;
       update_homebrew_formula_version)
      (fun e => Some (raise (RuntimeError ("❌ Error updating Info.plist: " +:+ exn_str e)))).

(** *** [build_app] *)

(** The entries directly inside [dir], as [dir.iterdir()] gives them:
    the path, the name and the kind of each. *)
Definition entries (dir : string) (f : gmap string node)
  : list (string * string * node) :=
  omap (fun kv : string * node =>
          let '(p, n) := kv in
          if below dir p
          then
            let name := String.substring (String.length dir + 1)
                          (String.length p - (String.length dir + 1)) p in
            if Text.contains (Text.chars "/") (Text.chars name) then None
            else Some (p, name, n)
          else None)
       (map_to_list f).

(** [f"{size:10}"]: the number, filled with spaces on the left up to ten
    characters. *)
Definition pad10 (size : N) : string :=
  let digits := Text.str_of_Z (Z.of_N size) in
  Text.text (replicate (10 - length digits) " "%char ++ digits).

(** The body of the listing loop: [item.stat()], the time of the last
    change, and the line printed. *)
Definition list_item (item : string * string * node) : M unit :=
  let '(p, name, n) := item in
  count <- get (fun w => length (calls w)) ;;
  match stat env count p with
  | Stat size mod_time =>
      print ((match n with Dir => "d" | File _ => "-" end)
               +:+ " " +:+ pad10 size +:+ " " +:+ mod_time +:+ " " +:+ name)
  | StatError e => raise e
  end.

(** [for item in release_dir.iterdir(): ...] *)
Definition list_release_dir : M unit :=
  f <- get fs ;;
  count <- get (fun w => length (calls w)) ;;
  match iterdir_error env count release_dir with
  | Some e => raise e
  | None => for_each (entries release_dir f) list_item
  end.

Definition build_app : M unit :=
  print "🔨 Building WinDock..." ;;
  try_catch
    (chmod env build_script ;;
     subprocess_run env [build_script] true ;;
     e <- path_exists app_path ;;
     if negb e then
       raise (RuntimeError ("❌ Build failed - WinDock.app not found at " +:+ app_path))
     else
       print "✅ Build successful" ;;
       print ("Contents of " +:+ release_dir +:+ ":") ;;
       list_release_dir)
    (fun e =>
       if is_CalledProcessError e
       then Some (raise (RuntimeError ("❌ Build failed: " +:+ exn_str e)))
       else Some (raise (RuntimeError ("❌ Error during build process: " +:+ exn_str e)))).

(** *** [commit_version_bump] and [_git_commit_via_subprocess] *)

Definition _git_commit_via_subprocess (files_to_commit : list string) : M unit :=
  try_catch
    (for_each files_to_commit
       (fun file_path => subprocess_run env ["git"; "add"; file_path] true ;; ret tt) ;;
     new <- get new_version ;;
     subprocess_run env ["git"; "commit"; "-m"; "Bump version to " +:+ fmt new] true ;;
     push_result <- subprocess_run env ["git"; "push"] false ;;
     if negb (returncode push_result =? 0) then
       print ("⚠️ Warning: Could not push version bump commit: " +:+ stderr push_result) ;;
       print "You may need to push manually with 'git push'"
     else
       print "✅ Changes committed and pushed successfully")
    (fun e =>
       if is_CalledProcessError e
       then Some
         (print ("⚠️ Warning: Git operations failed: " +:+ exn_str e) ;;
          print "Continuing with release process, but you may need to commit and push manually.")
       else None).

(** The [try] block of [commit_version_bump]: the commit through
    GitPython ([GpRepo] stands for [import git] and [git.Repo]). *)
Definition commit_via_gitpython (files_to_commit : list string) : M unit :=
  gitpy env (GpRepo (root_dir env)) ;;
  for_each files_to_commit (fun file_path => gitpy env (GpAdd file_path) ;; ret tt) ;;
  new <- get new_version ;;
  gitpy env (GpCommit ("Bump version to " +:+ fmt new)) ;;
  gitpy env (GpRemote "origin") ;;
  push_info <- gitpy env (GpPush None) ;;
  match gp_error_flags push_info with
  | [] => raise IndexError
  | error :: _ =>
      if negb error then
        print "✅ Changes committed and pushed successfully"
      else
        print "⚠️ Warning: Could not push version bump commit" ;;
        print "You may need to push manually with 'git push'"
  end.

Definition commit_version_bump : M unit :=
  print "📝 Committing version bump..." ;;
  dr <- get dry_run ;;
  new <- get new_version ;;
  if dr then
    print ("🔍 [DRY RUN] Would commit and push version bump to " +:+ fmt new)
  else
    e <- path_exists local_formula_path ;;
    let files_to_commit :=
      info_plist_path :: (if e then [local_formula_path] else []) in
    if HAVE_GITPYTHON env then
      try_catch
        (commit_via_gitpython files_to_commit)
        (fun e => Some
           (print ("⚠️ Warning: Git operations with GitPython failed: " +:+ exn_str e) ;;
            print "Falling back to subprocess for git operations" ;;
            _git_commit_via_subprocess files_to_commit))
    else
      _git_commit_via_subprocess files_to_commit.


(** *** [create_tag] and [_git_tag_via_subprocess] *)

Definition _git_tag_via_subprocess : M unit :=
  try_catch
    (tag <- attr "tag_name" tag_name ;;
     subprocess_run env ["git"; "tag"; tag] true ;;
     push_result <- subprocess_run env ["git"; "push"; "origin"; tag] false ;;
     if negb (returncode push_result =? 0) then
       print ("⚠️ Warning: Could not push tag: " +:+ stderr push_result) ;;
       print ("You may need to push the tag manually with 'git push origin " +:+ tag +:+ "'")
     else
       print ("✅ Tag " +:+ tag +:+ " created and pushed successfully"))
    (fun e =>
       if is_CalledProcessError e
       then Some
         (print ("⚠️ Warning: Creating tag failed: " +:+ exn_str e) ;;
          print "Continuing with release process, but you may need to create and push the tag manually.")
       else None).

(** The [try] block of [create_tag]: the tag through GitPython. *)
Definition tag_via_gitpython (tag : string) : M unit :=
  gitpy env (GpRepo (root_dir env)) ;;
  new <- get new_version ;;
  gitpy env (GpCreateTag tag ("Version " +:+ fmt new)) ;;
  gitpy env (GpRemote "origin") ;;
  push_info <- gitpy env (GpPush (Some tag)) ;;
  match gp_error_flags push_info with
  | [] => raise IndexError
  | error :: _ =>
      if negb error then
        print ("✅ Tag " +:+ tag +:+ " created and pushed successfully")
      else
        print ("⚠️ Warning: Could not push tag " +:+ tag) ;;
        print ("You may need to push the tag manually with 'git push origin " +:+ tag +:+ "'")
  end.

Definition create_tag : M unit :=
  tag <- attr "tag_name" tag_name ;;
  print ("🏷️ Creating release tag: " +:+ tag) ;;
  dr <- get dry_run ;;
  if dr then
    print ("🔍 [DRY RUN] Would create and push tag " +:+ tag)
  else if HAVE_GITPYTHON env then
    try_catch
      (tag_via_gitpython tag)
      (fun e => Some
         (print ("⚠️ Warning: Git tag operations with GitPython failed: " +:+ exn_str e) ;;
          print "Falling back to subprocess for git tag operations" ;;
          _git_tag_via_subprocess))
  else
    _git_tag_via_subprocess.

(** *** [generate_release_notes] *)

Definition join_lines (ls : list string) : string :=
  match ls with
  | [] => ""
  | l :: t => fold_left (fun a b => a +:+ nl +:+ b) t l
  end.

Definition installation_section : string :=
  "## Installation" +:+ nl +:+ nl
  +:+ "1. Download `WinDock.dmg`" +:+ nl
  +:+ "2. Open the DMG file" +:+ nl
  +:+ "3. Drag `WinDock.app` to the Applications folder" +:+ nl
  +:+ "4. Run the app from Applications" +:+ nl.

Definition full_notes (commits : string) : string :=
  "## What's Changed" +:+ nl +:+ nl +:+ commits +:+ nl +:+ nl +:+ installation_section.

Definition basic_notes (new : option string) : string :=
  "## WinDock " +:+ fmt new +:+ nl +:+ nl +:+ "Released on " +:+ today env.

Definition log_format : list string :=
  ["git"; "log"; "--oneline"; "--pretty=format:- %s"].

(** The commit list, through GitPython. *)
Definition commits_via_gitpython : M string :=
  gitpy env (GpRepo (root_dir env)) ;;
  tags <- gitpy env GpTags ;;
  let range :=
    match head (gp_names tags) with
    | Some last_tag =>
        if String.eqb last_tag "" then None else Some (last_tag +:+ "..HEAD^")
    | None => None
    end in
  log <- gitpy env (GpIterCommits range) ;;
  ret (join_lines (map (fun summary => "- " +:+ summary) (gp_names log))).

(** The commit list, through [git describe] and [git log]. *)
Definition commits_via_subprocess : M string :=
  get_last_tag <- subprocess_run env
                    ["git"; "describe"; "--tags"; "--abbrev=0"; "HEAD^"] false ;;
  let commits_cmd :=
    if returncode get_last_tag =? 0 then
      log_format ++ [Text.text (Text.strip (Text.chars (stdout get_last_tag))) +:+ "..HEAD^"]
    else
      log_format ++ ["HEAD"] in
  log <- subprocess_run env commits_cmd true ;;
  ret (stdout log).

Definition generate_release_notes : M unit :=
  print "📝 Generating release notes..." ;;
  try_catch
    (commits <- (if HAVE_GITPYTHON env then commits_via_gitpython
                 else commits_via_subprocess) ;;
     modify (set_release_notes (Some (full_notes commits))) ;;
     write_text env release_notes_path (full_notes commits) ;;
     print "✅ Generated release notes")
    (fun e =>
       if is_CalledProcessError e
       then Some
         (print ("⚠️ Warning: Error generating release notes: " +:+ exn_str e) ;;
          new <- get new_version ;;
          modify (set_release_notes (Some (basic_notes new))) ;;
          print "Using basic release notes instead.")
       else None).

(** *** [create_github_release] *)

Definition gh_release (tag : string) : M unit :=
  new <- get new_version ;;
  let release_name := "WinDock " +:+ fmt new in
  try_catch
    (check_release <- subprocess_run env ["gh"; "release"; "view"; tag] false ;;
     (if returncode check_release =? 0 then
        print ("🔄 Release " +:+ tag +:+ " already exists, updating...") ;;
        subprocess_run env
          ["gh"; "release"; "edit"; tag; "--title"; release_name;
           "--notes-file"; release_notes_path] true ;;
        ret tt
      else
        print ("🆕 Creating new release " +:+ tag +:+ "...") ;;
        has_dmg <- path_exists dmg_path ;;
        has_zip <- path_exists zip_path ;;
        subprocess_run env
          (["gh"; "release"; "create"; tag; "--title"; release_name;
            "--notes-file"; release_notes_path]
           ++ (if has_dmg then [dmg_path] else [])
           ++ (if has_zip then [zip_path] else [])) true ;;
        ret tt) ;;
     has_dmg <- path_exists dmg_path ;;
     when has_dmg
       (print ("📤 Uploading WinDock.dmg to release " +:+ tag +:+ "...") ;;
        subprocess_run env ["gh"; "release"; "upload"; tag; dmg_path; "--clobber"] false ;;
        ret tt) ;;
     has_zip <- path_exists zip_path ;;
     when has_zip
       (print ("📤 Uploading WinDock.zip to release " +:+ tag +:+ "...") ;;
        subprocess_run env ["gh"; "release"; "upload"; tag; zip_path; "--clobber"] false ;;
        ret tt) ;;
     print "✅ GitHub release created/updated successfully")
    (fun e =>
       if is_CalledProcessError e
       then Some
         (print ("⚠️ Warning: GitHub release creation failed: " +:+ exn_str e) ;;
          print "You may need to create the release manually through the GitHub web interface.")
       else None).

Definition create_github_release : M unit :=
  print "🌐 Creating GitHub release..." ;;
  dr <- get dry_run ;;
  if dr then
    tag <- attr "tag_name" tag_name ;;
    print ("🔍 [DRY RUN] Would create GitHub release for tag " +:+ tag)
  else
    let has_pygithub := have_pygithub env in
    has_gh_cli <-
      try_catch
        (subprocess_run env ["gh"; "--version"] true ;; ret true)
        (fun e =>
           if is_CalledProcessError e || is_FileNotFoundError e
           then Some (ret false) else None) ;;
    if negb (has_gh_cli || has_pygithub) then
      print "⚠️ Neither GitHub CLI (gh) nor PyGithub found. Skipping GitHub release creation." ;;
      print "To create the release manually, go to the repository's releases page" ;;
      tag <- attr "tag_name" tag_name ;;
      print ("and create a new release with tag '" +:+ tag +:+ "'.")
    else
      has_app <- path_exists app_path ;;
      (if has_app then
         print "📦 Creating ZIP archive of WinDock.app..." ;;
         try_catch
           (make_archive env zip_path ;;
            print ("✅ Created ZIP archive: " +:+ zip_path))
           (fun e => Some
              (print ("⚠️ Warning: Failed to create ZIP archive: " +:+ exn_str e)))
       else
         print ("⚠️ Warning: App bundle not found at " +:+ app_path)) ;;
      has_dmg <- path_exists dmg_path ;;
      when (negb has_dmg)
        (print ("⚠️ Warning: DMG file not found at " +:+ dmg_path)) ;;
      when has_gh_cli
        (tag <- attr "tag_name" tag_name ;;
         gh_release tag).


(** *** [update_formula_checksum] *)

Definition asset_url (new : option string) : string :=
  "https://github.com/barnuri/win-dock/releases/download/v" +:+ fmt new +:+ "/WinDock.zip".

(** The substitution of the checksum line; [None] when [re.sub] rejects
    the replacement template. *)
Definition checksum_substitution (sha256 content : string) : option string :=
  Re.re_sub Re.no_check_pattern ("sha256 " +:+ Text.dq +:+ sha256 +:+ Text.dq) content.

Definition update_formula_checksum (formula_path : string) : M unit :=
  try_catch
    (new <- get new_version ;;
     let zip_url := asset_url new in
     print ("📥 Downloading " +:+ zip_url +:+ " to calculate checksum...") ;;
     download_result <- subprocess_run env
                          ["curl"; "-L"; "-o"; scratch_zip; zip_url] false ;;
     if negb (returncode download_result =? 0) then
       print "⚠️ Could not download ZIP file for checksum calculation"
     else
       checksum_result <- subprocess_run env
                            ["shasum"; "-a"; "256"; scratch_zip] true ;;
       sha256 <- or_raise (head (Text.words (Text.chars (stdout checksum_result))))
                   IndexError ;;
       let sha256 := Text.text sha256 in
       print ("🔍 Calculated SHA256: " +:+ sha256) ;;
       content <- read_text env formula_path ;;
       updated_content <- or_raise (checksum_substitution sha256 content)
                            (ReError "bad escape") ;;
       write_text env formula_path updated_content ;;
       print "✅ Updated formula with calculated checksum" ;;
       try_catch (unlink scratch_zip) (fun _ => Some (ret tt)))
    (fun e =>
       if is_CalledProcessError e
       then Some
         (print ("⚠️ Error calculating checksum: " +:+ exn_str e) ;;
          print "Using :no_check for SHA256")
       else Some (print ("⚠️ Error updating checksum: " +:+ exn_str e))).

(** *** [update_cask_checksum] *)

Definition update_cask_checksum (cask_path : string) : M unit :=
  try_catch
    (new <- get new_version ;;
     let zip_url := asset_url new in
     print ("📥 Downloading " +:+ zip_url +:+ " to calculate checksum...") ;;
     download_result <- subprocess_run env
                          ["curl"; "-L"; "-o"; scratch_zip; zip_url] false ;;
     if negb (returncode download_result =? 0) then
       print "⚠️ Could not download ZIP file for checksum calculation"
     else
       checksum_result <- subprocess_run env
                            ["shasum"; "-a"; "256"; scratch_zip] true ;;
       sha256 <- or_raise (head (Text.words (Text.chars (stdout checksum_result))))
                   IndexError ;;
       let sha256 := Text.text sha256 in
       print ("🔍 Calculated SHA256: " +:+ sha256) ;;
       content <- read_text env cask_path ;;
       updated_content <- or_raise (checksum_substitution sha256 content)
                            (ReError "bad escape") ;;
       write_text env cask_path updated_content ;;
       print "✅ Updated cask with calculated checksum" ;;
       try_catch (unlink scratch_zip) (fun _ => Some (ret tt)))
    (fun e =>
       if is_CalledProcessError e
       then Some
         (print ("⚠️ Error calculating checksum: " +:+ exn_str e) ;;
          print "Using :no_check for SHA256")
       else Some (print ("⚠️ Error updating checksum: " +:+ exn_str e))).

(** *** [submit_to_homebrew] *)

Definition readme_content : string :=
  "# Homebrew Tap for WinDock" +:+ nl +:+ nl
  +:+ "This is the official Homebrew tap for WinDock." +:+ nl +:+ nl
  +:+ "## Installation" +:+ nl +:+ nl
  +:+ "```bash" +:+ nl
  +:+ "brew tap barnuri/brew" +:+ nl
  +:+ "brew install windock --no-quarantine" +:+ nl
  +:+ "```" +:+ nl.

(** [original_dir = os.getcwd()] *)
Definition bind_original_dir : M unit :=
  d <- getcwd ;;
  modify (set_original_dir (Some d)).

(** [os.chdir(original_dir)]: [UnboundLocalError] when the variable was
    never assigned. *)
Definition chdir_original_dir : M unit :=
  d <- get original_dir ;;
  match d with
  | Some d => chdir d
  | None => raise (UnboundLocalError "original_dir")
  end.

(** The tap repository is there: reset it and pull. *)
Definition reset_tap : M unit :=
  print "🔄 Resetting existing homebrew tap repository..." ;;
  bind_original_dir ;;
  chdir homebrew_tap_dir ;;
  subprocess_run env ["git"; "reset"; "--hard"; "HEAD"] true ;;
  subprocess_run env ["git"; "clean"; "-fd"] true ;;
  subprocess_run env ["git"; "checkout"; "master"] false ;;
  subprocess_run env ["git"; "pull"; "origin"; "master"] true ;;
  chdir_original_dir.

(** The clone failed: create the tap repository locally. *)
Definition init_tap : M unit :=
  print "📝 Creating new homebrew tap repository..." ;;
  mkdir homebrew_tap_dir ;;
  bind_original_dir ;;
  chdir homebrew_tap_dir ;;
  subprocess_run env ["git"; "init"] true ;;
  subprocess_run env ["git"; "branch"; "-M"; "master"] true ;;
  mkdir tap_formula_dir ;;
  write_text env (homebrew_tap_dir +:+ "/README.md") readme_content ;;
  subprocess_run env ["git"; "add"; "README.md"] true ;;
  subprocess_run env ["git"; "commit"; "-m"; "Initial commit"] true ;;
  chdir_original_dir.

Definition clone_tap : M unit :=
  e <- path_exists homebrew_tap_dir ;;
  when e (rmtree homebrew_tap_dir) ;;
  print "📥 Setting up homebrew tap repository..." ;;
  try_catch
    (subprocess_run env
       ["git"; "clone"; "https://github.com/barnuri/homebrew-brew"; homebrew_tap_dir] true ;;
     ret tt)
    (fun e => if is_CalledProcessError e then Some init_tap else None).

(** Copy the formula into the tap, add the checksum, commit and push. *)
Definition publish_formula : M unit :=
  bind_original_dir ;;
  chdir homebrew_tap_dir ;;
  mkdir tap_formula_dir ;;
  e <- path_exists local_formula_path ;;
  if negb e then
    print ("⚠️ Warning: Local formula file not found at " +:+ local_formula_path)
  else
    copy2 local_formula_path "windock.rb" tap_formula_path ;;
    print ("📝 Copied formula to " +:+ tap_formula_path) ;;
    update_formula_checksum tap_formula_path ;;
    subprocess_run env ["git"; "add"; tap_formula_path] true ;;
    status_result <- subprocess_run env
                       ["git"; "status"; "--porcelain"; tap_formula_path] false ;;
    new <- get new_version ;;
    let is_new_formula :=
      Text.is_prefix (Text.chars "A")
        (Text.strip (Text.chars (stdout status_result))) in
    let commit_message :=
      if is_new_formula then "windock " +:+ fmt new +:+ " (new formula)"
      else "windock " +:+ fmt new in
    subprocess_run env ["git"; "commit"; "-m"; commit_message] true ;;
    subprocess_run env ["gh"; "--version"] true ;;
    subprocess_run env ["git"; "push"; "-u"; "origin"; "master"] true ;;
    ret tt.

Definition submit_to_homebrew : M unit :=
  print "🍺 Submitting formula to Homebrew tap..." ;;
  dr <- get dry_run ;;
  if dr then
    print "🔍 [DRY RUN] Would submit formula to Homebrew tap"
  else
    modify (set_original_dir None) ;;
    try_finally
      (try_catch
         (has_dir <- path_exists homebrew_tap_dir ;;
          has_git <- path_exists (homebrew_tap_dir +:+ "/.git") ;;
          (if has_dir && has_git then reset_tap else clone_tap) ;;
          publish_formula)
         (fun e => Some
            (print ("⚠️ Warning: Homebrew tap submission failed: " +:+ exn_str e) ;;
             print "You may need to update the formula manually in the tap repository.")))
      chdir_original_dir.

(** *** [cleanup] *)

Definition cleanup : M unit :=
  print "🧹 Cleaning up..." ;;
  e <- path_exists release_notes_path ;;
  when e
    (d <- is_dir release_notes_path ;;
     if d then rmtree release_notes_path else unlink release_notes_path) ;;
  print "✅ Cleanup completed".

(** *** [run] *)

Definition run (version_type : string) : M unit :=
  print ("🚀 Starting WinDock release process (" +:+ version_type +:+ ")...") ;;
  cleanup_stale_resources ;;
  get_current_version ;;
  calculate_new_version version_type ;;
  update_version_in_plist ;;
  build_app ;;
  commit_version_bump ;;
  create_tag ;;
  generate_release_notes ;;
  create_github_release ;;
  submit_to_homebrew ;;
  cleanup ;;
  new <- get new_version ;;
  print ("✅ Release process completed successfully! Version " +:+ fmt new +:+ " released.") ;;
  print "🍺 If Homebrew tap submission was successful, the formula will be available in your tap.".

(** *** [main], after the command line has been parsed *)

Definition main (version_type : string) (dry_run_flag : bool) : M unit :=
  when dry_run_flag (print "🔍 DRY RUN MODE: No changes will be committed or pushed") ;;
  modify (set_current_version None) ;;
  modify (set_new_version None) ;;
  modify (set_tag_name None) ;;
  modify (set_release_notes None) ;;
  modify (set_dry_run dry_run_flag) ;;
  try_catch
    (run version_type ;;
     print "🚀 Release script completed successfully!" ;;
     tag <- attr "tag_name" tag_name ;;
     print ("https://github.com/barnuri/win-dock/releases/tag/" +:+ tag))
    (fun e => Some
       (print ("❌ Error during release process: " +:+ exn_str e) ;;
        print "Reverting Info.plist to the original version..." ;;
        subprocess_run env ["git"; "restore"; info_plist_path] true ;;
        ret tt)).

(** *** [test_release_manager] of [test_release.py] *)



End ReleaseManager.

(** The exit status of the interpreter: an exception that leaves [main]
    ends the process with status 1. *)
Definition exit_status (o : outcome unit) : Z :=
  match o with
  | Ok _ => 0
  | Raise _ => 1
  end.

(** ** Vocabulary for the substitution properties *)

Module ReSpec.
Import Text Re.

(** [m] is a text matched in full by [p]. *)
Definition matched (p : list atom) (m : list ascii) : Prop :=
  match_here p m = Some [].

(** [replaces p r s o]: [o] is [s] scanned from the left, each piece
    matched by [p] replaced by [r], a character copied in place where no
    match of [p] starts. *)
Inductive replaces (p : list atom) (r : list ascii)
  : list ascii -> list ascii -> Prop :=
  | replaces_nil : replaces p r [] []
  | replaces_copy c s o :
      match_here p (c :: s) = None ->
      replaces p r s o -> replaces p r (c :: s) (c :: o)
  | replaces_match m s o :
      matched p m -> replaces p r s o -> replaces p r (m ++ s) (r ++ o).

(** Lowercase hexadecimal digits and SHA-256 digests in that notation. *)
Definition is_lower_hex (c : ascii) : bool :=
  let n := N_of_ascii c in
  (((48 <=? n) && (n <=? 57)) || ((97 <=? n) && (n <=? 102)))%N.

Definition is_sha256_digest (s : string) : bool :=
  (length (chars s) =? 64)%nat && forallb is_lower_hex (chars s).

(** The characters of a formatted version: digits, dots and minus signs. *)
Definition is_version_char (c : ascii) : bool :=
  is_digit c || ascii_eqb c "." || ascii_eqb c "-".

(** [clash x y]: [x] and [y] differ at a position they both have. *)
Fixpoint clash (x y : list ascii) : bool :=
  match x, y with
  | a :: x', b :: y' => negb (ascii_eqb a b) || clash x' y'
  | _, _ => false
  end.

(** [clash_version x k]: [x] differs from [k] followed by a version
    character, within [k] or at the character just after it. *)
Fixpoint clash_version (x k : list ascii) : bool :=
  match x, k with
  | a :: x', b :: k' => negb (ascii_eqb a b) || clash_version x' k'
  | a :: _, [] => negb (is_version_char a)
  | [], _ => false
  end.

(** The non-empty suffixes of a list. *)
Fixpoint suffixes (l : list ascii) : list (list ascii) :=
  match l with
  | [] => []
  | _ :: t => l :: suffixes t
  end.

Definition proper_suffixes (l : list ascii) : list (list ascii) :=
  suffixes (tail l).

(** Every piece of [o] that belongs to [L] is the text [t]. *)
Definition stable (L : list ascii -> Prop) (t : list ascii) (o : list ascii) : Prop :=
  forall u b v, o = u ++ b ++ v -> L b -> b = t.

(** Every piece of [s] that belongs to [L] is [t] or starts a match of [p]. *)
Definition guarded (p : list atom) (L : list ascii -> Prop) (t : list ascii)
  (s : list ascii) : Prop :=
  forall u b v, s = u ++ b ++ v -> L b -> b = t \/ match_here p (b ++ v) <> None.

End ReSpec.

(** ** Sample environments *)

(** Concrete worlds and oracles, for running the script on examples. *)
Module Demo.

Definition root : string := "/proj".
Definition plist : string := "/proj/WinDock/Info.plist".
Definition app : string := "/proj/build/Build/Products/Release/WinDock.app".
Definition tap : string := "/homebrew-windock-temp".
Definition tap_formula : string := "/homebrew-windock-temp/Formula/windock.rb".

Definition old_digest : string :=
  "0000000000000000000000000000000000000000000000000000000000000000".
Definition new_digest : string :=
  "9f86d081884c7d659a2feaa0c55ad015a3bf4f1b2b0b822cd15d6c15b0f00a08".

(** A toy property-list format: the file holds the version. *)
Definition load (s : string) : option (gmap string string) :=
  Some {[ "CFBundleShortVersionString" := s ]}.
Definition dump (d : gmap string string) : string * option exn :=
  (default "" (d !! "CFBundleShortVersionString"), None).
Definition dump_none (d : gmap string string) : string := "".

(** The codec of a UTF-8 locale. *)
Definition utf8_decode (data : string) : option string :=
  if Text.valid_utf8 (Text.chars data) then Some data else None.
Definition utf8_encode (content : string) : option string := Some content.

Definition no_gitpython (n : nat) (op : git_op) : gp_answer :=
  Build_gp_answer None [] [].

(** Every program starts; those chosen by [fails] exit 1, the others exit
    0: the build creates the bundle, the clone creates the tap directory,
    [curl] writes the scratch file and [shasum] prints [new_digest]. [gh]
    tells whether the GitHub CLI is installed. *)
Definition process (fails : list string -> bool) (gh : bool) (n : nat)
  (argv : list string) (dir : string) (f : gmap string node)
  : proc_result * gmap string node :=
  if bool_decide (head argv = Some "gh") && negb gh then (LaunchFailed, f)
  else if fails argv then (Exited 1 "" "rejected", f)
  else if bool_decide (argv = ["/proj/build.sh"]) then
    (Exited 0 "" "", <[app := Dir]> f)
  else if bool_decide (head argv = Some "curl") then
    (Exited 0 "" "", <["/tmp/WinDock.zip" := File "zip"]> f)
  else if bool_decide (head argv = Some "shasum") then
    (Exited 0 (new_digest +:+ "  /tmp/WinDock.zip" +:+ nl) "", f)
  else if bool_decide (take 2 argv = ["git"; "clone"]) then
    (Exited 0 "" "", <[tap +:+ "/.git" := Dir]> (<[tap := Dir]> f))
  else if bool_decide (take 2 argv = ["git"; "log"]) then
    (Exited 0 "- Fix dock icons" "", f)
  else
    (Exited 0 "" "", f).

Definition nothing (argv : list string) : bool := false.
Definition the_push (argv : list string) : bool := bool_decide (argv = ["git"; "push"]).
Definition the_log (argv : list string) : bool := bool_decide (take 2 argv = ["git"; "log"]).

(** An environment with a UTF-8 locale in which nothing is refused to
    [os.chmod], [Path.iterdir] and [os.stat]. *)
Definition make (git pygithub : bool)
  (run : nat -> list string -> string -> gmap string node
         -> proc_result * gmap string node)
  (gp : nat -> git_op -> gp_answer) : Env :=
  mkEnv root "" git pygithub "2025-01-01" load dump dump_none
    utf8_decode utf8_encode
    (fun _ _ => None) (fun _ _ => None) (fun _ _ => Stat 0 "Jan 01 00:00")
    run gp (fun _ => Some "zip").

Definition env (fails : list string -> bool) (gh : bool) : Env :=
  make false false (process fails gh) no_gitpython.

(** GitPython is installed but cannot open the repository. *)
Definition broken_gitpython (n : nat) (op : git_op) : gp_answer :=
  Build_gp_answer (Some (GitPythonError "InvalidGitRepositoryError")) [] [].

Definition env_gitpython : Env :=
  make true false (process nothing true) broken_gitpython.

(** A project at version 1.2.3 with a build script. *)
Definition files : gmap string node :=
  <[plist := File "1.2.3"]> (<["/proj/build.sh" := File "xcodebuild"]> (<[root := Dir]> ∅)).

Definition world (f : gmap string node) (dry : bool) : World :=
  mkWorld f root [] [] None None None None dry None.

(** A formula that already carries a checksum. *)
Definition pinned_formula : string :=
  "  version " +:+ Text.dq +:+ "1.2.3" +:+ Text.dq +:+ nl
  +:+ "  sha256 " +:+ Text.dq +:+ old_digest +:+ Text.dq +:+ nl.

(** A formula with the no-check sentinel. *)
Definition unpinned_formula : string :=
  "  version " +:+ Text.dq +:+ "1.2.3" +:+ Text.dq +:+ nl
  +:+ "  sha256 :no_check" +:+ nl.

(** A formula whose lines end with CR LF. *)
Definition cr : string := String "013"%char EmptyString.
Definition crlf_formula : string :=
  "# WinDock" +:+ cr +:+ nl
  +:+ "  version " +:+ Text.dq +:+ "1.2.3" +:+ Text.dq +:+ cr +:+ nl.

Definition local_formula : string := "/proj/homebrew-tap/Formula/windock.rb".

(** The world in which the version 1.2.4 is about to be written, with
    [formula] as the local formula. *)
Definition formula_world (formula : string) : World :=
  set_new_version (Some "1.2.4")
    (world (<[local_formula := File formula]> files) false).

(** The world in the middle of a release of 1.2.4, with [formula] copied
    into the tap. *)
Definition tap_world (formula : string) : World :=
  set_tag_name (Some "v1.2.4")
    (set_new_version (Some "1.2.4")
       (world (<[tap_formula := File formula]> files) false)).

End Demo.

(** ** Reasoning vocabulary *)

(** [wp m Q w]: running [m] from [w] ends in an outcome and a world that
    satisfy [Q]. *)
Definition wp {A} (m : M A) (Q : outcome A -> World -> Prop) (w : World) : Prop :=
  Q (m w).1 (m w).2.

(** The continuation of a postcondition through [bind]. *)
Definition wp_then {A B} (k : A -> M B) (Q : outcome B -> World -> Prop)
  : outcome A -> World -> Prop :=
  fun o w =>
    match o with
    | Ok a => wp (k a) Q w
    | Raise e => Q (Raise e) w
    end.

(** [l1] is an initial segment of [l2]. *)
Definition extends {A} (l1 l2 : list A) : Prop := exists more, l2 = l1 ++ more.

(** The world in which [main] calls [run]: the dry-run notice is printed
    and the attributes of the fresh [ReleaseManager] are in place. *)
Definition main_start (dry_run_flag : bool) (w : World) : World :=
  set_dry_run dry_run_flag
    (set_release_notes None
       (set_tag_name None
          (set_new_version None
             (set_current_version None
                (if dry_run_flag
                 then set_console
                        (console w ++ ["🔍 DRY RUN MODE: No changes will be committed or pushed"]) w
                 else w))))).








(** ** Assumptions on the environment *)

(** The part of a later world that the steps after the build leave as it
    was: the console only grows, and the attributes [dry_run], [tag_name]
    and [new_version] keep their values. *)
Definition frame (w w' : World) : Prop :=
  extends (console w) (console w')
  /\ dry_run w' = dry_run w
  /\ tag_name w' = tag_name w
  /\ new_version w' = new_version w.

(** A property of the files that no external program destroys. *)
Definition preserved (env : Env) (P : gmap string node -> Prop) : Prop :=
  forall n argv d f, P f -> P (run_process env n argv d f).2.

(** Every program other than the GitHub CLI can be started. *)
Definition tools_start (env : Env) : Prop :=
  forall n argv d f,
    head argv <> Some "gh" ->
    exists rc out err f', run_process env n argv d f = (Exited rc out err, f').

(** The GitHub CLI can be started, whatever it is asked. *)
Definition gh_installed (env : Env) : Prop :=
  forall n argv d f,
    head argv = Some "gh" ->
    exists rc out err f', run_process env n argv d f = (Exited rc out err, f').

(** The probe [gh --version] never succeeds. *)
Definition gh_unavailable (env : Env) : Prop :=
  forall n d f,
    match run_process env n ["gh"; "--version"] d f with
    | (Exited rc _ _, _) => rc <> 0
    | (LaunchFailed, _) => True
    end.

(** GitPython is absent, or none of its calls raises. *)
Definition gitpython_quiet (env : Env) : Prop :=
  HAVE_GITPYTHON env = false
  \/ forall n op, gp_raise (gitpython env n op) = None.

Record calm (env : Env) : Prop := mkCalm {
  calm_tools : tools_start env;
  calm_gh : gh_unavailable env \/ gh_installed env;
  calm_gitpython : gitpython_quiet env
}.

(** The directory [c] is neither the tap directory nor inside it. *)
Definition outside_tap (env : Env) (c : string) : Prop :=
  c <> homebrew_tap_dir env /\ below (homebrew_tap_dir env) c = false.

(** The files the steps after the build rely on: the directory [c] is
    there and, when [strict] holds, the tap path is not a regular file and
    the notes path is not a directory. *)
Definition sound_files (env : Env) (c : string) (strict : Prop)
  (f : gmap string node) : Prop :=
  f !! c = Some Dir
  /\ (strict ->
      (forall x, f !! homebrew_tap_dir env <> Some (File x))
      /\ f !! release_notes_path env <> Some Dir).

(** ** Vocabulary for the further properties *)

(** The bytes an integer literal of [int()] may hold: ASCII digits, the
    surrounding ASCII blanks, a sign, the underscore, and the bytes of
    characters beyond ASCII (digits and blanks of other scripts). *)
Definition is_int_char (c : ascii) : bool :=
  Text.is_digit c || Text.is_c_space c || Text.ascii_eqb c "+" || Text.ascii_eqb c "-"
  || Text.ascii_eqb c "_" || negb (Text.is_ascii c).

(** What [calculate_new_version] leaves behind: its outcome and the two
    attributes it sets. *)
Definition version_result (version_type cur : string) (w : World)
  : outcome unit * option string * option string :=
  let r := calculate_new_version version_type (set_current_version (Some cur) w) in
  (r.1, new_version r.2, tag_name r.2).



(** [w'] continues [w] by the external calls [done]: only the files, the
    console and the log of calls may differ. *)
Definition continues (w : World) (done : list call) (w' : World) : Prop :=
  calls w' = calls w ++ done
  /\ cwd w' = cwd w
  /\ current_version w' = current_version w
  /\ new_version w' = new_version w
  /\ tag_name w' = tag_name w
  /\ release_notes w' = release_notes w
  /\ dry_run w' = dry_run w
  /\ original_dir w' = original_dir w
  /\ extends (console w) (console w').

(** A [gh release ...] command. *)
Definition gh_release_call (c : call) : bool :=
  match c with
  | Proc ("gh" :: "release" :: _) _ => true
  | _ => false
  end.

(** The probe for the GitHub CLI. *)
Definition gh_probe (dir : string) : call := Proc ["gh"; "--version"] dir.

(** The external calls of [create_github_release]: the probe, the
    packaging of the archive and [gh release] commands. *)
Definition github_release_call (env : Env) (dir : string) (c : call) : Prop :=
  c = gh_probe dir \/ c = Archive (zip_path env) \/ gh_release_call c = true.


(** * Properties *)

(** ** Facts about the text helpers *)

Module TextFacts.
Import Text.

Lemma digit_char_val d : (d < 10)%N -> digit_val (digit_char d) = d.
Proof.
  intros H. unfold digit_val, digit_char.
  rewrite N_ascii_embedding by lia. lia.
Qed.

Lemma digit_char_is_digit d : (d < 10)%N -> is_digit (digit_char d) = true.
Proof.
  intros H. unfold is_digit, digit_char.
  rewrite N_ascii_embedding by lia.
  apply andb_true_iff; split; apply N.leb_le; lia.
Qed.

(** An ASCII character that is no white space. *)
Definition plain (c : ascii) : bool :=
  let n := N_of_ascii c in
  (n <? 128)%N
  && negb ((n =? 32) || ((9 <=? n) && (n <=? 13)) || ((28 <=? n) && (n <=? 31)))%N.

Lemma plain_ascii c : plain c = true -> is_ascii c = true.
Proof. unfold plain, is_ascii. intros H. apply andb_true_iff in H as [H _]. exact H. Qed.

Lemma plain_not_c_space c : plain c = true -> is_c_space c = false.
Proof.
  unfold plain, is_c_space. intros H. apply andb_true_iff in H as [_ H].
  apply negb_true_iff in H. apply orb_false_iff in H as [H _]. exact H.
Qed.

Lemma is_digit_plain c : is_digit c = true -> plain c = true.
Proof.
  unfold is_digit, plain. intros H.
  apply andb_true_iff in H as [H1 H2].
  apply N.leb_le in H1. apply N.leb_le in H2.
  apply andb_true_iff. split; [apply N.ltb_lt; lia|].
  apply negb_true_iff. repeat (apply orb_false_iff; split).
  - apply N.eqb_neq. lia.
  - apply andb_false_iff. right. apply N.leb_gt. lia.
  - apply andb_false_iff. right. apply N.leb_gt. lia.
Qed.

(** The front of a text that starts with an ASCII character. *)
Lemma utf8_front_ascii c t :
  is_ascii c = true -> utf8_front (c :: t) = Some (N_of_ascii c, 1%nat).
Proof. unfold is_ascii, utf8_front. intros ->. reflexivity. Qed.

Lemma front_space_plain c t : plain c = true -> front_space (c :: t) = None.
Proof.
  intros H. unfold front_space. rewrite utf8_front_ascii by (apply plain_ascii; exact H).
  revert H. destruct c as [[] [] [] [] [] [] [] []]; intros H;
    first [discriminate H | reflexivity].
Qed.

Lemma front_space_blank t : front_space (" "%char :: t) = Some 1%nat.
Proof. reflexivity. Qed.

Lemma parse_digits_run ds : forall acc seen,
  Forall (fun c => is_digit c = true) ds -> ds <> [] ->
  parse_digits acc seen ds = Some (dval acc ds).
Proof.
  induction ds as [|c t IH]; intros acc seen Hd Hne; [congruence|].
  apply Forall_cons in Hd as [Hc Ht]. simpl. rewrite Hc.
  destruct t as [|c' t']; [reflexivity|].
  apply IH; [exact Ht | discriminate].
Qed.

Lemma digits_fuel_digits f : forall n acc,
  Forall (fun c => is_digit c = true) acc ->
  Forall (fun c => is_digit c = true) (digits_fuel f n acc).
Proof.
  induction f as [|f IH]; intros n acc Hacc; simpl; [exact Hacc|].
  assert (Hd : is_digit (digit_char (n mod 10)) = true).
  { apply digit_char_is_digit. apply N.mod_lt. lia. }
  destruct (n / 10 =? 0)%N; [|apply IH]; constructor; assumption.
Qed.

Lemma digits_fuel_keeps f : forall n acc,
  acc <> [] -> digits_fuel f n acc <> [].
Proof.
  induction f as [|f IH]; intros n acc Hacc; simpl; [exact Hacc|].
  destruct (n / 10 =? 0)%N; [discriminate|]. apply IH. discriminate.
Qed.

Lemma digits_of_N_nonempty n : digits_of_N n <> [].
Proof.
  unfold digits_of_N. simpl.
  destruct (n / 10 =? 0)%N; [discriminate|].
  apply digits_fuel_keeps. discriminate.
Qed.

Lemma digits_of_N_digits n : Forall (fun c => is_digit c = true) (digits_of_N n).
Proof. apply digits_fuel_digits. constructor. Qed.

(** With enough fuel the digits denote the number. *)
Lemma dval_digits_fuel f : forall n acc,
  (n < 2 ^ N.of_nat f)%N -> (0 < f)%nat ->
  dval 0 (digits_fuel f n acc) = dval n acc.
Proof.
  induction f as [|f IH]; intros n acc Hn Hf; [lia|].
  simpl digits_fuel.
  assert (Hm : (n mod 10 < 10)%N) by (apply N.mod_lt; lia).
  assert (Hdiv : n = (10 * (n / 10) + n mod 10)%N) by (apply N.div_mod; lia).
  destruct (N.eqb_spec (n / 10) 0) as [Hz|Hnz].
  - unfold dval. simpl. rewrite digit_char_val by exact Hm.
    f_equal. lia.
  - assert (Hlt : (n / 10 < 2 ^ N.of_nat f)%N).
    { rewrite Nat2N.inj_succ, N.pow_succ_r' in Hn.
      apply N.Div0.div_lt_upper_bound. lia. }
    assert (Hf' : (0 < f)%nat).
    { destruct f; [|lia]. simpl in Hlt. lia. }
    rewrite IH by assumption.
    unfold dval. simpl. rewrite digit_char_val by exact Hm.
    f_equal. lia.
Qed.

Lemma dval_digits_of_N n : dval 0 (digits_of_N n) = n.
Proof.
  unfold digits_of_N. rewrite dval_digits_fuel; [reflexivity| |lia].
  rewrite Nat2N.inj_succ, N2Nat.id.
  destruct n as [|p]; [reflexivity|].
  apply N.log2_spec. lia.
Qed.

Lemma parse_digits_of_N n : parse_digits 0%N false (digits_of_N n) = Some n.
Proof.
  rewrite parse_digits_run.
  - f_equal. apply dval_digits_of_N.
  - apply digits_of_N_digits.
  - apply digits_of_N_nonempty.
Qed.

(** A text of ASCII characters is its own integer literal. *)
Lemma to_ascii_fuel_ascii s : forall fuel,
  (length s <= fuel)%nat -> Forall (fun c => is_ascii c = true) s ->
  to_ascii_fuel fuel s = Some s.
Proof.
  induction s as [|c t IH]; intros fuel Hf H; [destruct fuel; reflexivity|].
  apply Forall_cons in H as [Hc Ht].
  destruct fuel as [|fuel]; [simpl in Hf; lia|].
  cbn [to_ascii_fuel]. rewrite Hc, IH; [reflexivity|simpl in Hf; lia|exact Ht].
Qed.

Lemma to_ascii_plain s : Forall (fun c => plain c = true) s -> to_ascii s = Some s.
Proof.
  intros H. apply to_ascii_fuel_ascii; [reflexivity|].
  eapply Forall_impl; [exact H|]. intros c. apply plain_ascii.
Qed.

Lemma skip_c_space_plain s : Forall (fun c => plain c = true) s -> skip_c_space s = s.
Proof.
  intros H. destruct H as [|c t Hc Ht]; [reflexivity|].
  simpl. rewrite (plain_not_c_space c Hc). reflexivity.
Qed.

Lemma trim_c_space_plain s : Forall (fun c => plain c = true) s -> trim_c_space s = s.
Proof.
  intros H. unfold trim_c_space.
  rewrite (skip_c_space_plain s H).
  rewrite skip_c_space_plain; [apply rev_involutive|].
  apply Forall_forall. intros c Hc.
  apply (proj1 (Forall_forall _ _) H). apply list_elem_of_In.
  apply in_rev. apply list_elem_of_In. exact Hc.
Qed.

Lemma ascii_eqb_eq a b : ascii_eqb a b = true -> a = b.
Proof. apply Ascii.eqb_eq. Qed.

Lemma is_digit_not c d : is_digit d = false -> is_digit c = true -> ascii_eqb c d = false.
Proof.
  intros Hd Hc. destruct (ascii_eqb c d) eqn:E; [|reflexivity].
  apply ascii_eqb_eq in E. subst. congruence.
Qed.

Lemma str_of_Z_plain z : Forall (fun c => plain c = true) (str_of_Z z).
Proof.
  assert (H : forall n, Forall (fun c => plain c = true) (digits_of_N n)).
  { intros n. eapply Forall_impl; [apply digits_of_N_digits|].
    intros c. apply is_digit_plain. }
  unfold str_of_Z. destruct (z <? 0); [constructor; [reflexivity|]|]; apply H.
Qed.

(** [int(str(z)) == z]. *)
Lemma py_int_str_of_Z z : py_int (str_of_Z z) = Some z.
Proof.
  unfold py_int. rewrite to_ascii_plain by apply str_of_Z_plain.
  cbn [mbind option_bind]. rewrite trim_c_space_plain by apply str_of_Z_plain.
  unfold str_of_Z. destruct (Z.ltb_spec z 0) as [Hneg|Hpos].
  - change (ascii_eqb "-" "-") with true. cbv iota.
    rewrite parse_digits_of_N. simpl. f_equal. lia.
  - pose proof (digits_of_N_digits (Z.to_N z)) as Hd.
    pose proof (digits_of_N_nonempty (Z.to_N z)) as Hne.
    pose proof (parse_digits_of_N (Z.to_N z)) as Hp.
    destruct (digits_of_N (Z.to_N z)) as [|c t]; [congruence|].
    apply Forall_cons in Hd as [Hc _].
    rewrite (is_digit_not c "-") by (reflexivity || exact Hc).
    rewrite (is_digit_not c "+") by (reflexivity || exact Hc).
    rewrite Hp. simpl. f_equal. lia.
Qed.

Lemma split_char_nonempty sep s : split_char sep s <> [].
Proof.
  destruct s as [|c t]; simpl; [discriminate|].
  destruct (ascii_eqb c sep); [discriminate|].
  destruct (split_char sep t); discriminate.
Qed.

Lemma split_char_whole sep a :
  Forall (fun c => ascii_eqb c sep = false) a -> split_char sep a = [a].
Proof.
  induction 1 as [|c t Hc Ht IH]; [reflexivity|].
  simpl. rewrite Hc, IH. reflexivity.
Qed.

Lemma split_char_app sep a r :
  Forall (fun c => ascii_eqb c sep = false) a ->
  split_char sep (a ++ sep :: r) = a :: split_char sep r.
Proof.
  induction 1 as [|c t Hc Ht IH]; simpl.
  - unfold ascii_eqb. rewrite Ascii.eqb_refl. reflexivity.
  - rewrite Hc, IH. reflexivity.
Qed.

Lemma str_of_Z_nodot z : Forall (fun c => ascii_eqb c "." = false) (str_of_Z z).
Proof.
  assert (H : forall n, Forall (fun c => ascii_eqb c "." = false) (digits_of_N n)).
  { intros n. eapply Forall_impl; [apply digits_of_N_digits|].
    intros c. apply is_digit_not. reflexivity. }
  unfold str_of_Z. destruct (z <? 0); [constructor; [reflexivity|]|]; apply H.
Qed.

Lemma chars_text l : chars (text l) = l.
Proof. apply String.list_ascii_of_string_of_list_ascii. Qed.

Lemma text_chars s : text (chars s) = s.
Proof. apply String.string_of_list_ascii_of_string. Qed.

Lemma chars_app a b : chars (a +:+ b) = chars a ++ chars b.
Proof. induction a as [|c a IH]; simpl; [reflexivity|]. f_equal. exact IH. Qed.

Lemma text_app a b : text (a ++ b) = text a +:+ text b.
Proof. induction a as [|c a IH]; simpl; [reflexivity|]. rewrite IH. reflexivity. Qed.

Lemma append_assoc (a b c : string) : (a +:+ b) +:+ c = a +:+ (b +:+ c).
Proof.
  induction a as [|x a IH]; [reflexivity|].
  change (String x ((a +:+ b) +:+ c) = String x (a +:+ (b +:+ c))).
  rewrite IH. reflexivity.
Qed.

End TextFacts.

(** ** Version arithmetic *)

Module VersionFacts.
Import Text TextFacts Version.

(** Reading back a formatted version gives its three numbers. *)
Lemma parse_format_version v : parse_version (format_version v) = Some v.
Proof.
  destruct v as [[x y] z]. unfold parse_version, format_version.
  rewrite chars_text.
  rewrite split_char_app by apply str_of_Z_nodot.
  rewrite split_char_app by apply str_of_Z_nodot.
  rewrite split_char_whole by apply str_of_Z_nodot.
  unfold component. simpl.
  rewrite !py_int_str_of_Z. reflexivity.
Qed.

Lemma bump_kind k v :
  bump (kind_name k) v =
  let '(major, minor, patch) := v in
  match k with
  | Major => (major + 1, 0, 0)
  | Minor => (major, minor + 1, 0)
  | Patch => (major, minor, patch + 1)
  end.
Proof. destruct v as [[x y] z], k; reflexivity. Qed.

Lemma bump_kind_lt k v : version_lt v (bump (kind_name k) v).
Proof.
  rewrite bump_kind. destruct v as [[x y] z], k; unfold version_lt; lia.
Qed.

End VersionFacts.

(** C1. For every version [major.minor.patch] of non-negative integers held
    in [current_version] and every bump kind, [calculate_new_version]
    succeeds, sets [new_version] to the text of (major+1,0,0),
    (major,minor+1,0) or (major,minor,patch+1) according to the kind and
    [tag_name] to ["v"] followed by that text; the new triple is strictly
    greater in semantic-versioning order, and the new text reads back as
    that triple. *)
Theorem calculate_new_version_bump (w : World) (major minor patch : N) (k : Version.BumpKind) :
  let old := (Z.of_N major, Z.of_N minor, Z.of_N patch) in
  let new :=
    match k with
    | Version.Major => (Z.of_N major + 1, 0, 0)
    | Version.Minor => (Z.of_N major, Z.of_N minor + 1, 0)
    | Version.Patch => (Z.of_N major, Z.of_N minor, Z.of_N patch + 1)
    end in
  let w0 := set_current_version (Some (Version.format_version old)) w in
  calculate_new_version (Version.kind_name k) w0
  = (Ok tt,
     set_console (console w ++ ["📈 New version: " +:+ Version.format_version new])
       (set_tag_name (Some ("v" +:+ Version.format_version new))
          (set_new_version (Some (Version.format_version new)) w0)))
  /\ Version.version_lt old new
  /\ Version.parse_version (Version.format_version new) = Some new.
Proof.
  intros old new w0.
  assert (Hb : Version.bump (Version.kind_name k) old = new).
  { rewrite VersionFacts.bump_kind. subst old new. destruct k; reflexivity. }
  split; [|split].
  - unfold calculate_new_version, try_catch, bind, get, or_raise, ret, modify, print.
    change (current_version w0) with (Some (Version.format_version old)).
    cbv beta iota. rewrite VersionFacts.parse_format_version.
    cbv beta iota. rewrite Hb. reflexivity.
  - rewrite <- Hb. apply VersionFacts.bump_kind_lt.
  - apply VersionFacts.parse_format_version.
Qed.


(** ** The regular-expression engine *)

Module ReFacts.
Import Text TextFacts Re ReSpec.

Lemma is_prefix_spec l s : is_prefix l s = true <-> exists r, s = l ++ r.
Proof.
  revert s. induction l as [|a l IH]; intros s; simpl.
  - split; [eauto|reflexivity].
  - destruct s as [|b s].
    + split; [discriminate|]. intros [r Hr]. discriminate.
    + rewrite andb_true_iff, IH. split.
      * intros [Hab [r ->]]. apply ascii_eqb_eq in Hab. subst. eauto.
      * intros [r Hr]. injection Hr as -> ->. split; [apply Ascii.eqb_refl|eauto].
Qed.

Lemma is_prefix_app l r : is_prefix l (l ++ r) = true.
Proof. apply is_prefix_spec. eauto. Qed.

(** *** Characters and runs of the class [[\d\.]] *)

(** The bytes a run of class characters may hold: ASCII digits, the dot,
    and the bytes of the digits of other scripts. *)
Definition run_byte (c : ascii) : bool :=
  is_digit c || ascii_eqb c "." || negb (is_ascii c).

(** The bytes of one character of the class. *)
Definition class_char (ch : list ascii) : Prop :=
  ch <> [] /\ class_len ch = length ch.

(** The bytes of a sequence of characters of the class. *)
Inductive class_run : list ascii -> Prop :=
  | class_run_nil : class_run []
  | class_run_cons ch rest :
      class_char ch -> class_run rest -> class_run (ch ++ rest).

(** The character at the front of a text is a prefix of the text, read
    the same whatever follows; it is one ASCII byte, or two to four bytes
    beyond ASCII. *)
Lemma utf8_front_shape s cp k :
  utf8_front s = Some (cp, k) ->
  exists ch t,
    s = ch ++ t /\ length ch = k /\ ch <> []
    /\ (forall t', utf8_front (ch ++ t') = Some (cp, k))
    /\ ((exists c, ch = [c] /\ is_ascii c = true /\ cp = N_of_ascii c)
        \/ Forall (fun c => is_ascii c = false) ch).
Proof.
  assert (Hcont : forall c, is_continuation c = true -> is_ascii c = false).
  { intros c. unfold is_continuation, is_ascii. intros H.
    apply andb_true_iff in H as [H _]. apply N.leb_le in H. apply N.ltb_ge. exact H. }
  unfold utf8_front. destruct s as [|a s]; [discriminate|].
  destruct (N_of_ascii a <? 128)%N eqn:Ha.
  { intros [= <- <-]. exists [a], s. repeat split; [discriminate| |].
    - intros t'. cbn [app]. rewrite Ha. reflexivity.
    - left. exists a. repeat split. exact Ha. }
  assert (Ha' : is_ascii a = false) by exact Ha.
  destruct ((194 <=? N_of_ascii a) && (N_of_ascii a <? 224))%N eqn:H2.
  { destruct s as [|b s]; [discriminate|].
    destruct (is_continuation b) eqn:Hb; [|discriminate].
    intros [= <- <-]. exists [a; b], s. repeat split; [discriminate| |].
    - intros t'. cbn [app]. rewrite Ha, H2, Hb. reflexivity.
    - right. repeat constructor; auto. }
  destruct ((224 <=? N_of_ascii a) && (N_of_ascii a <? 240))%N eqn:H3.
  { destruct s as [|b [|c s]]; [discriminate..|].
    match goal with |- context [if ?x then _ else _] => destruct x eqn:Hc end;
      [|discriminate].
    intros [= <- <-]. exists [a; b; c], s. repeat split; [discriminate| |].
    - intros t'. cbn [app]. rewrite Ha, H2, H3, Hc. reflexivity.
    - apply andb_true_iff in Hc as [Hc _]. apply andb_true_iff in Hc as [Hc _].
      apply andb_true_iff in Hc as [Hb Hc].
      right. repeat constructor; auto. }
  destruct ((240 <=? N_of_ascii a) && (N_of_ascii a <? 245))%N eqn:H4; [|discriminate].
  destruct s as [|b [|c [|d s]]]; [discriminate..|].
  match goal with |- context [if ?x then _ else _] => destruct x eqn:Hc end;
    [|discriminate].
  intros [= <- <-]. exists [a; b; c; d], s. repeat split; [discriminate| |].
  - intros t'. cbn [app]. rewrite Ha, H2, H3, H4, Hc. reflexivity.
  - apply andb_true_iff in Hc as [Hc _]. apply andb_true_iff in Hc as [Hc _].
    apply andb_true_iff in Hc as [Hc Hd]. apply andb_true_iff in Hc as [Hb Hc].
    right. repeat constructor; auto.
Qed.

Lemma ascii_decimal c d :
  is_ascii c = true -> decimal_value (N_of_ascii c) = Some d -> is_digit c = true.
Proof.
  destruct c as [[] [] [] [] [] [] [] []]; intros Ha Hd;
    first [discriminate Ha | discriminate Hd | reflexivity].
Qed.

Lemma not_ascii_run_byte c : is_ascii c = false -> run_byte c = true.
Proof. unfold run_byte. intros ->. apply orb_true_r. Qed.

Lemma run_byte_ascii c : run_byte c = false -> is_ascii c = true.
Proof.
  unfold run_byte. intros H. apply orb_false_iff in H as [_ H].
  apply negb_false_iff in H. exact H.
Qed.

(** The class character at the front of a text. *)
Lemma class_len_shape s n :
  class_len s = S n ->
  exists ch t,
    s = ch ++ t /\ length ch = S n /\ class_char ch
    /\ (forall t', class_len (ch ++ t') = S n)
    /\ Forall (fun c => run_byte c = true) ch.
Proof.
  unfold class_len. destruct s as [|c s]; [discriminate|].
  destruct (ascii_eqb c ".") eqn:Hdot.
  { intros [= <-]. exists [c], s. repeat split; [discriminate| | |].
    - cbn [class_len]. rewrite Hdot. reflexivity.
    - intros t'. cbn [app]. rewrite Hdot. reflexivity.
    - constructor; [|constructor]. unfold run_byte. rewrite Hdot.
      rewrite orb_true_r. reflexivity. }
  unfold front_digit. destruct (utf8_front (c :: s)) as [[cp k]|] eqn:Hf; [|discriminate].
  destruct (decimal_value cp) as [d|] eqn:Hd; [|discriminate].
  cbn [fmap option_fmap option_map]. intros ->.
  apply utf8_front_shape in Hf as (ch & t & E & Hlen & Hne & Happ & Hch).
  exists ch, t. split; [exact E|]. split; [exact Hlen|].
  assert (Hhead : exists ch', ch = c :: ch').
  { destruct ch as [|c' ch']; [congruence|]. injection E as -> _. eauto. }
  destruct Hhead as [ch' ->].
  assert (Hlen' : forall t', class_len ((c :: ch') ++ t') = S n).
  { intros t'. cbn [app class_len]. rewrite Hdot. unfold front_digit.
    change (c :: ch' ++ t') with ((c :: ch') ++ t').
    rewrite Happ, Hd. reflexivity. }
  split; [|split; [exact Hlen'|]].
  - split; [discriminate|]. rewrite <- (app_nil_r (c :: ch')) at 1.
    rewrite Hlen'. symmetry. exact Hlen.
  - destruct Hch as [(c' & Ec & Ha & Hcp)|Hall].
    + injection Ec as <- ->. constructor; [|constructor].
      unfold run_byte. subst cp. rewrite (ascii_decimal c d Ha Hd). reflexivity.
    + eapply Forall_impl; [exact Hall|]. intros x. apply not_ascii_run_byte.
Qed.

Lemma class_char_len ch t : class_char ch -> class_len (ch ++ t) = length ch.
Proof.
  intros [Hne Hlen]. destruct (length ch) as [|n] eqn:El.
  { destruct ch; [congruence|discriminate]. }
  destruct (class_len_shape ch n Hlen) as (ch' & t' & E & Hl & _ & Happ & _).
  assert (t' = []) as ->.
  { apply (f_equal length) in E. rewrite length_app in E.
    destruct t'; [reflexivity|]. simpl in E. lia. }
  rewrite app_nil_r in E. subst ch'. apply Happ.
Qed.

Lemma class_char_bytes ch : class_char ch -> Forall (fun c => run_byte c = true) ch.
Proof.
  intros [Hne Hlen]. destruct (length ch) as [|n] eqn:El.
  { destruct ch; [congruence|discriminate]. }
  destruct (class_len_shape ch n Hlen) as (ch' & t' & E & Hl & _ & _ & Hb).
  assert (t' = []) as ->.
  { apply (f_equal length) in E. rewrite length_app in E.
    destruct t'; [reflexivity|]. simpl in E. lia. }
  rewrite app_nil_r in E. subst ch'. exact Hb.
Qed.

Lemma class_run_bytes run : class_run run -> Forall (fun c => run_byte c = true) run.
Proof.
  induction 1 as [|ch rest Hch _ IH]; [constructor|].
  apply Forall_app. split; [apply class_char_bytes; exact Hch|exact IH].
Qed.

(** No class character starts at an ASCII byte that is neither a digit
    nor the dot. *)
Lemma class_len_other q r : run_byte q = false -> class_len (q :: r) = 0%nat.
Proof.
  intros H. pose proof (run_byte_ascii q H) as Ha.
  unfold class_len, front_digit. rewrite (utf8_front_ascii q r Ha).
  revert H Ha. destruct q as [[] [] [] [] [] [] [] []]; intros H Ha;
    first [discriminate H | discriminate Ha | reflexivity].
Qed.

(** What the greedy repetition finds. *)
Lemma repeat_class_some k : forall fuel s r,
  repeat_class fuel k s = Some r ->
  exists run t, run <> [] /\ class_run run /\ s = run ++ t /\ k t = Some r.
Proof.
  induction fuel as [|fuel IH]; intros s r; [discriminate|].
  cbn [repeat_class]. destruct (class_len s) as [|n] eqn:Hn; [discriminate|].
  destruct (class_len_shape s n Hn) as (ch & t & E & Hl & Hch & _ & _).
  assert (Hd : drop (S n) s = t).
  { rewrite E, <- Hl. apply drop_app_length. }
  rewrite Hd. destruct (repeat_class fuel k t) as [r'|] eqn:Hr.
  - intros [= ->]. apply IH in Hr as (run & t' & Hne & Hrun & -> & Hk).
    exists (ch ++ run), t'. split; [|split; [|split]].
    + intros E'. apply app_eq_nil in E' as [_ E']. congruence.
    + constructor; assumption.
    + rewrite E, <- app_assoc. reflexivity.
    + exact Hk.
  - intros Hk. exists ch, t. split; [apply Hch|]. split; [|split; [exact E|exact Hk]].
    rewrite <- (app_nil_r ch). constructor; [exact Hch|constructor].
Qed.

(** The repetition takes a whole run when the continuation accepts what
    follows it and no class character follows. *)
Lemma repeat_class_run k t r run :
  class_run run -> class_len t = 0%nat -> k t = Some r ->
  forall fuel, run <> [] -> (length (run ++ t) <= fuel)%nat ->
  repeat_class fuel k (run ++ t) = Some r.
Proof.
  intros Hrun Ht Hk. induction Hrun as [|ch rest Hch Hrest IH]; intros fuel Hne Hf;
    [congruence|].
  destruct fuel as [|fuel].
  { destruct Hch as [Hc _]. destruct ch; [congruence|]. simpl in Hf. lia. }
  cbn [repeat_class]. rewrite <- app_assoc.
  rewrite (class_char_len ch (rest ++ t) Hch).
  destruct (length ch) as [|n] eqn:El.
  { destruct Hch as [Hc _]. destruct ch; [congruence|discriminate]. }
  rewrite <- El, drop_app_length.
  rewrite <- app_assoc, !length_app, El in Hf.
  destruct rest as [|c rest].
  - cbn [app]. destruct fuel as [|fuel]; cbn [repeat_class]; [exact Hk|].
    rewrite Ht. exact Hk.
  - rewrite IH; [reflexivity|discriminate|]. rewrite length_app. lia.
Qed.

Lemma match_here_nil s : match_here [] s = Some s.
Proof. reflexivity. Qed.

Lemma match_here_lit l p s :
  match_here (Lit l :: p) s
  = if is_prefix l s then match_here p (drop (length l) s) else None.
Proof. reflexivity. Qed.

Lemma match_here_plus p s :
  match_here (DigitDotPlus :: p) s = repeat_class (length s) (match_here p) s.
Proof. reflexivity. Qed.

(** A run of class characters that stops before the same non-class
    character is the same run. *)
Lemma run_unique run : forall n q x y,
  Forall (fun c => run_byte c = true) run ->
  Forall (fun c => is_version_char c = true) n ->
  is_version_char q = false -> run_byte q = false ->
  run ++ q :: x = n ++ q :: y -> run = n.
Proof.
  induction run as [|r run IH]; intros n q x y Hrun Hn Hq Hq' E.
  - destruct n as [|c n]; [reflexivity|].
    simpl in E. injection E as <- _. apply Forall_cons in Hn as [Hc _]. congruence.
  - apply Forall_cons in Hrun as [Hr Hrun].
    destruct n as [|c n]; simpl in E; injection E as E1 E2.
    + subst. congruence.
    + subst. apply Forall_cons in Hn as [_ Hn]. f_equal. eapply IH; eassumption.
Qed.

(** *** Patterns of the form  literal, class repetition, literal *)

Section Shape.
Variables pre post' : list ascii.
Variable q : ascii.
Hypothesis q_not_class : run_byte q = false.

Let post := q :: post'.
Let p := [Lit pre; DigitDotPlus; Lit post].

(** The texts of the pattern. *)
Definition shape_text (m : list ascii) : Prop :=
  exists run, run <> [] /\ class_run run /\ m = pre ++ run ++ post.

Lemma match_shape s rest :
  match_here p s = Some rest <-> exists m, shape_text m /\ s = m ++ rest.
Proof.
  unfold p. rewrite match_here_lit. split.
  - destruct (is_prefix pre s) eqn:Hpre; [|discriminate].
    apply is_prefix_spec in Hpre as [s1 ->].
    rewrite drop_app_length, match_here_plus. intros H.
    apply repeat_class_some in H as (run & t & Hne & Hrun & -> & Hk).
    rewrite match_here_lit, match_here_nil in Hk.
    destruct (is_prefix post t) eqn:Hpost; [|discriminate].
    injection Hk as Hrest.
    apply is_prefix_spec in Hpost as [r Hr].
    change (S (length post')) with (length post) in Hrest.
    rewrite Hr, drop_app_length in Hrest. subst r.
    exists (pre ++ run ++ post). split.
    + exists run. split; [exact Hne|]. split; [exact Hrun|reflexivity].
    + rewrite <- !app_assoc. f_equal. f_equal. exact Hr.
  - intros (m & (run & Hne & Hrun & ->) & ->).
    rewrite <- !app_assoc. rewrite is_prefix_app, drop_app_length, match_here_plus.
    apply (repeat_class_run _ (post ++ rest) rest run Hrun); [| |exact Hne|reflexivity].
    + apply class_len_other. exact q_not_class.
    + rewrite match_here_lit, match_here_nil.
      rewrite is_prefix_app, drop_app_length. reflexivity.
Qed.

Lemma shape_text_matched m : shape_text m <-> matched p m.
Proof.
  unfold matched. rewrite match_shape. split.
  - intros H. exists m. split; [exact H|]. rewrite app_nil_r. reflexivity.
  - intros (m' & H & ->). rewrite app_nil_r. exact H.
Qed.

Lemma shape_text_nonempty m : shape_text m -> m <> [].
Proof.
  intros (run & Hne & _ & ->) E. apply app_eq_nil in E as [_ E].
  apply app_eq_nil in E as [E _]. congruence.
Qed.

End Shape.

(** *** The scan of [re.sub] for a pattern with language [L] *)

Section Scan.
Variable p : list atom.
Variable L : list ascii -> Prop.
Hypothesis L_spec : forall s rest,
  match_here p s = Some rest <-> exists m, L m /\ s = m ++ rest.
Hypothesis L_nonempty : forall m, L m -> m <> [].
Variable tmpl : list piece.

Definition sub (s : list ascii) : list ascii := sub_go (length s) p tmpl s.

Lemma match_shorter s rest :
  match_here p s = Some rest -> (length rest < length s)%nat.
Proof.
  intros H. apply L_spec in H as (m & Hm & ->).
  apply L_nonempty in Hm. rewrite length_app.
  destruct m; [congruence|simpl; lia].
Qed.

Lemma sub_go_fuel f1 : forall f2 s,
  (length s <= f1)%nat -> (length s <= f2)%nat ->
  sub_go f1 p tmpl s = sub_go f2 p tmpl s.
Proof.
  induction f1 as [|f1 IH]; intros f2 s H1 H2.
  - destruct s; [|simpl in H1; lia]. destruct f2; reflexivity.
  - destruct f2 as [|f2].
    + destruct s; [reflexivity|simpl in H2; lia].
    + simpl. destruct s as [|c t]; [reflexivity|].
      simpl in H1, H2.
      destruct (match_here p (c :: t)) as [rest|] eqn:E.
      * pose proof (match_shorter _ _ E) as Hlt. simpl in Hlt.
        destruct (length rest <? length (c :: t))%nat.
        -- f_equal. apply IH; lia.
        -- f_equal. apply IH; lia.
      * f_equal. apply IH; lia.
Qed.

Lemma sub_nil : sub [] = [].
Proof. reflexivity. Qed.

Lemma sub_skip c t :
  match_here p (c :: t) = None -> sub (c :: t) = c :: sub t.
Proof.
  intros H. unfold sub. simpl. rewrite H. reflexivity.
Qed.

Lemma sub_match m rest :
  L m -> sub (m ++ rest) = instantiate tmpl m ++ sub rest.
Proof.
  intros Hm. assert (E : match_here p (m ++ rest) = Some rest).
  { apply L_spec. eauto. }
  pose proof (match_shorter _ _ E) as Hlt.
  unfold sub. destruct (m ++ rest) as [|c t] eqn:Es; [simpl in Hlt; lia|].
  assert (Ht : take (length (c :: t) - length rest) (c :: t) = m).
  { rewrite <- Es. rewrite length_app.
    replace (length m + length rest - length rest)%nat with (length m) by lia.
    apply take_app_length. }
  change (sub_go (length (c :: t)) p tmpl (c :: t)) with
    (match match_here p (c :: t) with
     | Some rest =>
         if (length rest <? length (c :: t))%nat
         then instantiate tmpl (take (length (c :: t) - length rest) (c :: t))
                ++ sub_go (length t) p tmpl rest
         else c :: sub_go (length t) p tmpl t
     | None => c :: sub_go (length t) p tmpl t
     end).
  rewrite E.
  destruct (Nat.ltb_spec (length rest) (length (c :: t))) as [_|Hge]; [|lia].
  rewrite Ht. f_equal. apply sub_go_fuel; simpl in *; lia.
Qed.

(** Induction along the scan. *)
Lemma scan_ind (P : list ascii -> Prop) :
  P [] ->
  (forall m rest, L m -> P rest -> P (m ++ rest)) ->
  (forall c t, match_here p (c :: t) = None -> P t -> P (c :: t)) ->
  forall s, P s.
Proof.
  intros Hnil Hmatch Hskip s.
  remember (length s) as n eqn:Hn. revert s Hn.
  induction n as [n IH] using lt_wf_ind. intros s Hn.
  destruct s as [|c t]; [exact Hnil|].
  destruct (match_here p (c :: t)) as [rest|] eqn:E.
  - pose proof (match_shorter _ _ E) as Hlt.
    apply L_spec in E as (m & Hm & Es). rewrite Es.
    apply Hmatch; [exact Hm|]. eapply IH; [|reflexivity]. lia.
  - apply Hskip; [exact E|]. eapply IH; [|reflexivity]. subst n. simpl. lia.
Qed.

End Scan.

(** *** Texts that a substitution leaves alone *)

Section Invariance.
Variable p : list atom.
Variable L : list ascii -> Prop.
Hypothesis L_spec : forall s rest,
  match_here p s = Some rest <-> exists m, L m /\ s = m ++ rest.
Hypothesis L_nonempty : forall m, L m -> m <> [].
Variable tmpl : list piece.
Variable r : list ascii.
Hypothesis tmpl_const : forall m, instantiate tmpl m = r.

Lemma stable_suffix (K : list ascii -> Prop) t u o : stable K t (u ++ o) -> stable K t o.
Proof.
  intros H u' b v E Hb. apply (H (u ++ u') b v); [|exact Hb].
  rewrite E, <- app_assoc. reflexivity.
Qed.

(** A text whose only matches are the replacement itself is a fixed point. *)
Lemma sub_stable_id o : stable L r o -> sub p tmpl o = o.
Proof.
  induction o as [| m rest Hm IH | c t Hc IH] using (scan_ind p L L_spec L_nonempty).
  - reflexivity.
  - intros Hst. rewrite (sub_match p L L_spec L_nonempty) by exact Hm.
    rewrite tmpl_const.
    assert (m = r) as ->.
    { apply (Hst [] m rest); [reflexivity|exact Hm]. }
    f_equal. apply IH. eapply stable_suffix. exact Hst.
  - intros Hst. rewrite (sub_skip p) by exact Hc.
    f_equal. apply IH. apply (stable_suffix L r [c]). exact Hst.
Qed.

(** The substitution replaces matches and copies everything else. *)
Lemma sub_replaces s : replaces p r s (sub p tmpl s).
Proof.
  induction s as [| m rest Hm IH | c t Hc IH] using (scan_ind p L L_spec L_nonempty).
  - constructor.
  - rewrite (sub_match p L L_spec L_nonempty) by exact Hm.
    rewrite tmpl_const. constructor; [|exact IH].
    apply L_spec. exists m. split; [exact Hm|]. rewrite app_nil_r. reflexivity.
  - rewrite (sub_skip p) by exact Hc. constructor; assumption.
Qed.

(** A prefix of the output is a prefix of the input, or it runs into a
    replacement. *)
Lemma prefix_cases t : forall b v,
  b ++ v = sub p tmpl t ->
  (exists v', b ++ v' = t)
  \/ (exists x b' w' v', b = x ++ b' /\ b' <> [] /\ b' ++ v' = r ++ w').
Proof.
  induction t as [| m rest Hm IH | c t Hc IH] using (scan_ind p L L_spec L_nonempty);
    intros b v E.
  - rewrite sub_nil in E. apply app_eq_nil in E as [-> _]. left. exists []. reflexivity.
  - rewrite (sub_match p L L_spec L_nonempty) in E by exact Hm.
    rewrite tmpl_const in E.
    destruct b as [|c b]; [left; exists (m ++ rest); reflexivity|].
    right. exists [], (c :: b), (sub p tmpl rest), v.
    split; [reflexivity|split; [discriminate|exact E]].
  - rewrite (sub_skip p) in E by exact Hc.
    destruct b as [|c' b]; [left; exists (c :: t); reflexivity|].
    simpl in E. injection E as -> E.
    destruct (IH _ _ E) as [[v' Hv']|(x & b' & w' & v' & -> & Hne & Hb')].
    + left. exists v'. simpl. f_equal. exact Hv'.
    + right. exists (c :: x), b', w', v'. split; [reflexivity|split; assumption].
Qed.

Variable K : list ascii -> Prop.
Variable t : list ascii.
Hypothesis K_nonempty : forall m, K m -> m <> [].

(** No text of [K] other than [t] starts inside the replacement. *)
Hypothesis inside :
  forall r1 r2 w' b v,
    r = r1 ++ r2 -> r2 <> [] -> r2 ++ w' = b ++ v -> K b -> b = t.

(** No text of [K] runs into the start of the replacement. *)
Hypothesis across :
  forall x b' w' v,
    K (x ++ b') -> x <> [] -> b' <> [] -> b' ++ v = r ++ w' -> False.

Lemma guarded_suffix u s : guarded p K t (u ++ s) -> guarded p K t s.
Proof.
  intros H u' b v E Hb. apply (H (u ++ u') b v); [|exact Hb].
  rewrite E, <- app_assoc. reflexivity.
Qed.

(** The output of the substitution holds no text of [K] other than [t]. *)
Lemma sub_stable s : guarded p K t s -> stable K t (sub p tmpl s).
Proof.
  induction s as [| m rest Hm IH | c s Hc IH] using (scan_ind p L L_spec L_nonempty);
    intros Hg u b v E Hb.
  - rewrite sub_nil in E. symmetry in E.
    apply app_eq_nil in E as [_ E]. apply app_eq_nil in E as [E _].
    apply K_nonempty in Hb. congruence.
  - rewrite (sub_match p L L_spec L_nonempty) in E by exact Hm.
    rewrite tmpl_const in E.
    specialize (IH (guarded_suffix _ _ Hg)).
    apply app_eq_inv in E as [(k & -> & E)|(k & -> & E)].
    + destruct k as [|a k].
      * simpl in E. apply (IH [] b v); [symmetry; exact E|exact Hb].
      * eapply (inside u (a :: k)); [reflexivity|discriminate| |exact Hb].
        symmetry. exact E.
    + apply (IH k b v); [exact E|exact Hb].
  - rewrite (sub_skip p) in E by exact Hc.
    specialize (IH (guarded_suffix [c] _ Hg)).
    destruct u as [|a u].
    + simpl in E. destruct b as [|a b]; [apply K_nonempty in Hb; congruence|].
      simpl in E. injection E as <- E. symmetry in E.
      destruct (prefix_cases _ _ _ E) as [[v' Hv']|(x & b' & w' & v' & -> & Hne & Hb')].
      * destruct (Hg [] (c :: b) v') as [Ht|Hm]; [simpl; f_equal; auto|exact Hb|exact Ht|].
        exfalso. apply Hm. simpl. rewrite Hv'. exact Hc.
      * exfalso. apply (across (c :: x) b' w' v'); [exact Hb|discriminate|exact Hne|exact Hb'].
    + simpl in E. injection E as <- E.
      apply (IH u b v); [exact E|exact Hb].
Qed.

End Invariance.

(** *** Overlaps between pattern texts and replacements *)

Lemma clash_spec x : forall y u v, clash x y = true -> x ++ u = y ++ v -> False.
Proof.
  induction x as [|a x IH]; intros y u v Hc E; [discriminate|].
  destruct y as [|b y]; [discriminate|].
  simpl in Hc, E. injection E as -> E.
  unfold ascii_eqb in Hc. rewrite Ascii.eqb_refl in Hc. simpl in Hc.
  eapply IH; eassumption.
Qed.

Lemma clash_version_spec x : forall k n u v,
  clash_version x k = true -> n <> [] ->
  Forall (fun c => is_version_char c = true) n ->
  x ++ u = k ++ n ++ v -> False.
Proof.
  induction x as [|a x IH]; intros k n u v Hc Hne Hn E; [discriminate|].
  destruct k as [|b k].
  - simpl in Hc, E. destruct n as [|c n]; [congruence|].
    simpl in E. injection E as -> E. apply Forall_cons in Hn as [Hc' _].
    rewrite Hc' in Hc. discriminate.
  - simpl in Hc, E. injection E as -> E.
    unfold ascii_eqb in Hc. rewrite Ascii.eqb_refl in Hc. simpl in Hc.
    eapply IH; eassumption.
Qed.

Lemma suffixes_spec l : forall x k, l = x ++ k -> k <> [] -> In k (suffixes l).
Proof.
  induction l as [|a l IH]; intros x k E Hk.
  - symmetry in E. apply app_eq_nil in E as [_ E]. congruence.
  - destruct x as [|b x].
    + simpl in E. subst k. left. reflexivity.
    + simpl in E. injection E as -> E. right. eapply IH; eassumption.
Qed.

Lemma proper_suffixes_spec l x k :
  l = x ++ k -> x <> [] -> k <> [] -> In k (proper_suffixes l).
Proof.
  intros E Hx Hk. destruct x as [|a x]; [congruence|].
  subst l. simpl. eapply suffixes_spec; [reflexivity|exact Hk].
Qed.

Lemma forallb_In {A} (f : A -> bool) l x : forallb f l = true -> In x l -> f x = true.
Proof. intros H Hx. eapply forallb_forall in H; eassumption. Qed.

Lemma head_of_suffix (l k b : list ascii) a v w :
  l = k ++ a :: b -> (a :: b) ++ v = w -> In a l.
Proof. intros -> _. apply in_or_app. right. left. reflexivity. Qed.

Section Overlap.
(** The pattern texts: [preK], a class run, [qK :: postK']. *)
Variables preK postK' : list ascii.
Variable qK : ascii.
(** The replacement: [preR ++ n ++ postR] with [n] a formatted version. *)
Variables preR n postR : list ascii.
Variable a0 : ascii.
Variable preR' : list ascii.
Hypothesis preR_cons : preR = a0 :: preR'.
Variable b0 : ascii.
Variable preK' : list ascii.
Hypothesis preK_cons : preK = b0 :: preK'.
Hypothesis n_nonempty : n <> [].
Hypothesis n_version : Forall (fun c => is_version_char c = true) n.

Let K := shape_text preK postK' qK.
Let r := preR ++ n ++ postR.

(** No pattern text runs into the start of the replacement. *)
Lemma across_check :
  run_byte a0 = false ->
  forallb (fun c => negb (ascii_eqb c a0)) (qK :: postK') = true ->
  forallb (fun k => clash k preR) (proper_suffixes preK) = true ->
  forall x b' w' v,
    K (x ++ b') -> x <> [] -> b' <> [] -> b' ++ v = r ++ w' -> False.
Proof.
  intros Ha Hpost Hsuf x b' w' v (run & Hne & Hrun & E) Hx Hb' Eb.
  unfold r in Eb. rewrite preR_cons in Eb.
  assert (Hin : forall k, run ++ qK :: postK' = k ++ b' -> False).
  { intros k Ek. destruct b' as [|c b']; [congruence|].
    simpl in Eb. injection Eb as -> _.
    assert (Hina : In a0 (run ++ qK :: postK')).
    { rewrite Ek. apply in_or_app. right. left. reflexivity. }
    apply in_app_or in Hina as [Hina|Hina].
    - apply list_elem_of_In in Hina.
      apply (proj1 (Forall_forall _ _) (class_run_bytes run Hrun)) in Hina. congruence.
    - eapply forallb_In in Hpost; [|exact Hina].
      unfold ascii_eqb in Hpost. rewrite Ascii.eqb_refl in Hpost. discriminate. }
  apply app_eq_inv in E as [(k & -> & E)|(k & Ek & E)].
  - apply (Hin k). exact E.
  - destruct k as [|c k].
    + simpl in E. subst b'. apply (Hin []). reflexivity.
    + assert (Hk : In (c :: k) (proper_suffixes preK)).
      { eapply proper_suffixes_spec; [exact Ek|exact Hx|discriminate]. }
      eapply forallb_In in Hsuf; [|exact Hk].
      subst b'. rewrite <- preR_cons in Eb. rewrite <- !app_assoc in Eb.
      eapply clash_spec; [exact Hsuf|exact Eb].
Qed.

(** No pattern text starts strictly inside the replacement. *)
Lemma inside_check :
  is_version_char b0 = false ->
  forallb (fun c => negb (ascii_eqb c b0)) postR = true ->
  forallb (fun k => clash_version preK k) (proper_suffixes preR) = true ->
  forall r1 r2 w' b v,
    r = r1 ++ r2 -> r1 <> [] -> r2 <> [] -> r2 ++ w' = b ++ v -> K b -> False.
Proof.
  intros Hb0 Hpost Hsuf r1 r2 w' b v Er Hr1 Hr2 Eb (run & Hne & Hrun & ->).
  rewrite preK_cons in Eb.
  assert (Hin : forall k, n ++ postR = k ++ r2 -> False).
  { intros k Ek. destruct r2 as [|c r2]; [congruence|].
    simpl in Eb. injection Eb as -> _.
    assert (Hinb : In b0 (n ++ postR)).
    { rewrite Ek. apply in_or_app. right. left. reflexivity. }
    apply in_app_or in Hinb as [Hinb|Hinb].
    - apply list_elem_of_In in Hinb.
      apply (proj1 (Forall_forall _ _) n_version) in Hinb. congruence.
    - eapply forallb_In in Hpost; [|exact Hinb].
      unfold ascii_eqb in Hpost. rewrite Ascii.eqb_refl in Hpost. discriminate. }
  unfold r in Er. apply app_eq_inv in Er as [(k & Ek & Er)|(k & -> & Er)].
  2: { apply (Hin k). exact Er. }
  - destruct k as [|c k].
    + simpl in Er. subst r2. apply (Hin []). reflexivity.
    + assert (Hk : In (c :: k) (proper_suffixes preR)).
      { eapply proper_suffixes_spec; [exact Ek|exact Hr1|discriminate]. }
      eapply forallb_In in Hsuf; [|exact Hk].
      subst r2. rewrite <- preK_cons in Eb. rewrite <- !app_assoc in Eb.
      symmetry in Eb.
      eapply clash_version_spec; [exact Hsuf|exact n_nonempty|exact n_version|exact Eb].
Qed.

(** A pattern text of another pattern does not start the replacement. *)
Lemma start_check_other :
  clash_version preK preR = true ->
  forall w' b v, r ++ w' = b ++ v -> K b -> False.
Proof.
  intros Hc w' b v Eb (run & Hne & Hrun & ->).
  unfold r in Eb. rewrite <- !app_assoc in Eb. symmetry in Eb.
  eapply clash_version_spec; [exact Hc|exact n_nonempty|exact n_version|exact Eb].
Qed.

(** A text of the same pattern that starts the replacement is the
    replacement. *)
Lemma start_check_same :
  preK = preR -> qK :: postK' = postR -> is_version_char qK = false ->
  run_byte qK = false ->
  forall w' b v, r ++ w' = b ++ v -> K b -> b = r.
Proof.
  intros Hpre Hpost Hq Hq' w' b v Eb (run & Hne & Hrun & ->).
  unfold r in *. rewrite <- Hpre, <- Hpost in Eb |- *.
  rewrite <- !app_assoc in Eb.
  apply app_inv_head in Eb. simpl in Eb.
  symmetry in Eb. apply run_unique in Eb;
    [|apply class_run_bytes; exact Hrun|assumption..].
  rewrite Eb. reflexivity.
Qed.

End Overlap.

(** *** Replacement templates without a backslash *)

Lemma parse_template_plain l :
  forallb (fun c => negb (ascii_eqb c backslash)) l = true ->
  parse_template l = Some (map Ch l).
Proof.
  unfold parse_template. induction l as [|c l IH]; intros H; [reflexivity|].
  simpl in H. apply andb_true_iff in H as [Hc Hl].
  apply negb_true_iff in Hc. cbn [parse_template_go]. rewrite Hc.
  rewrite (IH Hl). reflexivity.
Qed.

Lemma instantiate_plain l m : instantiate (map Ch l) m = l.
Proof.
  unfold instantiate. induction l as [|c l IH]; [reflexivity|].
  simpl. f_equal. exact IH.
Qed.

Lemma version_char_no_backslash l :
  Forall (fun c => is_version_char c = true) l ->
  forallb (fun c => negb (ascii_eqb c backslash)) l = true.
Proof.
  induction 1 as [|c l Hc Hl IH]; [reflexivity|].
  simpl. rewrite IH, andb_true_r. apply negb_true_iff.
  destruct (ascii_eqb c backslash) eqn:E; [|reflexivity].
  apply ascii_eqb_eq in E. subst c. discriminate.
Qed.

Lemma re_sub_plain p repl s :
  forallb (fun c => negb (ascii_eqb c backslash)) (chars repl) = true ->
  re_sub p repl s = Some (text (sub p (map Ch (chars repl)) (chars s))).
Proof.
  intros H. unfold re_sub. rewrite (parse_template_plain _ H). reflexivity.
Qed.

(** *** The version line and the download URL *)

Definition ver_pre : list ascii := chars ("version " +:+ dq).
Definition ver_post : list ascii := chars dq.
Definition url_pre : list ascii :=
  chars ("url " +:+ dq +:+ "https://github.com/barnuri/win-dock/releases/download/v").
Definition url_post : list ascii := chars ("/WinDock.zip" +:+ dq).

Definition ver_text : list ascii -> Prop := shape_text ver_pre [] dq_char.
Definition url_text : list ascii -> Prop :=
  shape_text url_pre (chars ("WinDock.zip" +:+ dq)) "/"%char.

Lemma ver_spec s rest :
  match_here version_pattern s = Some rest <-> exists m, ver_text m /\ s = m ++ rest.
Proof. apply (match_shape ver_pre [] dq_char). reflexivity. Qed.

Lemma url_spec s rest :
  match_here url_pattern s = Some rest <-> exists m, url_text m /\ s = m ++ rest.
Proof. apply (match_shape url_pre (chars ("WinDock.zip" +:+ dq)) "/"%char). reflexivity. Qed.

Lemma ver_nonempty m : ver_text m -> m <> [].
Proof. apply shape_text_nonempty. Qed.

Lemma url_nonempty m : url_text m -> m <> [].
Proof. apply shape_text_nonempty. Qed.

Section Versions.
(** The characters of the new version. *)
Variable n : list ascii.
Hypothesis n_nonempty : n <> [].
Hypothesis n_version : Forall (fun c => is_version_char c = true) n.

Let ver_repl := ver_pre ++ n ++ ver_post.
Let url_repl := url_pre ++ n ++ url_post.
Let sub_ver := sub version_pattern (map Ch ver_repl).
Let sub_url := sub url_pattern (map Ch url_repl).

Lemma ver_stable s : stable ver_text ver_repl (sub_ver s).
Proof.
  apply (sub_stable version_pattern ver_text ver_spec ver_nonempty
           (map Ch ver_repl) ver_repl (instantiate_plain ver_repl)
           ver_text ver_repl ver_nonempty).
  - intros r1 r2 w' b v E Hr2 Eb Hb. destruct r1 as [|c r1].
    + simpl in E. subst r2.
      eapply (start_check_same ver_pre [] dq_char ver_pre n ver_post n_version);
        [reflexivity|reflexivity|reflexivity|reflexivity|exact Eb|exact Hb].
    + exfalso.
      eapply (inside_check ver_pre [] dq_char ver_pre n ver_post _ _ eq_refl
                n_nonempty n_version);
        [reflexivity|reflexivity|reflexivity|exact E|discriminate|exact Hr2|exact Eb|exact Hb].
  - eapply (across_check ver_pre [] dq_char ver_pre n ver_post _ _ eq_refl);
      reflexivity.
  - intros u b v _ Hb. right. intros Hnone.
    assert (H : match_here version_pattern (b ++ v) = Some v) by (apply ver_spec; eauto).
    congruence.
Qed.

Lemma url_stable s : stable url_text url_repl (sub_url s).
Proof.
  apply (sub_stable url_pattern url_text url_spec url_nonempty
           (map Ch url_repl) url_repl (instantiate_plain url_repl)
           url_text url_repl url_nonempty).
  - intros r1 r2 w' b v E Hr2 Eb Hb. destruct r1 as [|c r1].
    + simpl in E. subst r2.
      eapply (start_check_same url_pre _ "/"%char url_pre n url_post n_version);
        [reflexivity|reflexivity|reflexivity|reflexivity|exact Eb|exact Hb].
    + exfalso.
      eapply (inside_check url_pre _ "/"%char url_pre n url_post _ _ eq_refl
                n_nonempty n_version);
        [reflexivity|reflexivity|reflexivity|exact E|discriminate|exact Hr2|exact Eb|exact Hb].
  - eapply (across_check url_pre _ "/"%char url_pre n url_post _ _ eq_refl);
      reflexivity.
  - intros u b v _ Hb. right. intros Hnone.
    assert (H : match_here url_pattern (b ++ v) = Some v) by (apply url_spec; eauto).
    congruence.
Qed.

(** Rewriting the URL creates no version line. *)
Lemma ver_stable_url s :
  stable ver_text ver_repl s -> stable ver_text ver_repl (sub_url s).
Proof.
  intros Hs.
  apply (sub_stable url_pattern url_text url_spec url_nonempty
           (map Ch url_repl) url_repl (instantiate_plain url_repl)
           ver_text ver_repl ver_nonempty).
  - intros r1 r2 w' b v E Hr2 Eb Hb. exfalso. destruct r1 as [|c r1].
    + simpl in E. subst r2.
      eapply (start_check_other ver_pre [] dq_char url_pre n url_post
                n_nonempty n_version);
        [reflexivity|exact Eb|exact Hb].
    + eapply (inside_check ver_pre [] dq_char url_pre n url_post _ _ eq_refl
                n_nonempty n_version);
        [reflexivity|reflexivity|reflexivity|exact E|discriminate|exact Hr2|exact Eb|exact Hb].
  - eapply (across_check ver_pre [] dq_char url_pre n url_post _ _ eq_refl);
      reflexivity.
  - intros u b v E Hb. left. eapply Hs; eassumption.
Qed.

(** Both substitutions leave the result of both substitutions alone. *)
Lemma sub_twice s :
  sub_ver (sub_url (sub_ver s)) = sub_url (sub_ver s)
  /\ sub_url (sub_url (sub_ver s)) = sub_url (sub_ver s).
Proof.
  split.
  - apply (sub_stable_id version_pattern ver_text ver_spec ver_nonempty
             (map Ch ver_repl) ver_repl (instantiate_plain ver_repl)).
    apply ver_stable_url, ver_stable.
  - apply (sub_stable_id url_pattern url_text url_spec url_nonempty
             (map Ch url_repl) url_repl (instantiate_plain url_repl)).
    apply url_stable.
Qed.

End Versions.

End ReFacts.

(** ** The formula substitution *)

Module FormulaFacts.
Import Text TextFacts Re ReSpec ReFacts Version.

Definition ver_repl (new : string) : list ascii := ver_pre ++ chars new ++ ver_post.
Definition url_repl (new : string) : list ascii := url_pre ++ chars new ++ url_post.

Lemma ver_repl_chars new :
  chars ("version " +:+ dq +:+ new +:+ dq) = ver_repl new.
Proof.
  unfold ver_repl, ver_pre, ver_post. rewrite !chars_app, <- !app_assoc. reflexivity.
Qed.

Lemma url_repl_chars new :
  chars ("url " +:+ dq +:+ "https://github.com/barnuri/win-dock/releases/download/v"
           +:+ new +:+ "/WinDock.zip" +:+ dq) = url_repl new.
Proof.
  unfold url_repl, url_pre, url_post. rewrite !chars_app, <- !app_assoc. reflexivity.
Qed.

Lemma str_of_Z_version_chars z :
  Forall (fun c => is_version_char c = true) (str_of_Z z).
Proof.
  assert (H : forall n, Forall (fun c => is_version_char c = true) (digits_of_N n)).
  { intros n. eapply Forall_impl; [apply digits_of_N_digits|].
    intros c Hc. unfold is_version_char. rewrite Hc. reflexivity. }
  unfold str_of_Z. destruct (z <? 0); [constructor; [reflexivity|]|]; apply H.
Qed.

Lemma format_version_chars v :
  Forall (fun c => is_version_char c = true) (chars (format_version v)).
Proof.
  destruct v as [[x y] z]. unfold format_version. rewrite chars_text.
  apply Forall_app; split; [apply str_of_Z_version_chars|].
  constructor; [reflexivity|].
  apply Forall_app; split; [apply str_of_Z_version_chars|].
  constructor; [reflexivity|]. apply str_of_Z_version_chars.
Qed.

Lemma format_version_nonempty v : chars (format_version v) <> [].
Proof.
  destruct v as [[x y] z]. unfold format_version. rewrite chars_text.
  intros E. apply app_eq_nil in E as [_ E]. discriminate.
Qed.

(** Both substitutions, on characters. *)
Definition substitute (new : string) (s : list ascii) : list ascii :=
  sub url_pattern (map Ch (url_repl new)) (sub version_pattern (map Ch (ver_repl new)) s).

Lemma formula_substitution_eq new content :
  Forall (fun c => is_version_char c = true) (chars new) ->
  formula_substitution new content = Some (text (substitute new (chars content))).
Proof.
  intros Hn. pose proof (version_char_no_backslash _ Hn) as Hb.
  unfold formula_substitution.
  rewrite re_sub_plain.
  2: { rewrite ver_repl_chars. unfold ver_repl. rewrite !forallb_app, Hb. reflexivity. }
  cbn [mbind option_bind].
  rewrite re_sub_plain.
  2: { rewrite url_repl_chars. unfold url_repl. rewrite !forallb_app, Hb. reflexivity. }
  rewrite ver_repl_chars, url_repl_chars, chars_text. reflexivity.
Qed.

End FormulaFacts.
(** ** The checksum substitution *)

Module ChecksumFacts.
Import Text TextFacts Re ReSpec ReFacts.

Definition sentinel : list ascii := chars "sha256 :no_check".

Lemma no_check_spec s rest :
  match_here no_check_pattern s = Some rest
  <-> exists m, m = sentinel /\ s = m ++ rest.
Proof.
  unfold no_check_pattern. rewrite match_here_lit, match_here_nil.
  fold sentinel. split.
  - destruct (is_prefix sentinel s) eqn:E; [|discriminate].
    apply is_prefix_spec in E as [r ->]. rewrite drop_app_length.
    intros [= ->]. eauto.
  - intros (m & -> & ->). rewrite is_prefix_app, drop_app_length. reflexivity.
Qed.

Lemma sentinel_nonempty m : m = sentinel -> m <> [].
Proof. intros ->. discriminate. Qed.

Lemma lower_hex_plain c :
  is_lower_hex c = true -> plain c = true /\ ascii_eqb c backslash = false.
Proof.
  destruct c as [[] [] [] [] [] [] [] []]; intros H;
    first [discriminate H | split; reflexivity].
Qed.

Lemma digest_chars d :
  is_sha256_digest d = true ->
  chars d <> []
  /\ Forall (fun c => plain c = true) (chars d)
  /\ forallb (fun c => negb (ascii_eqb c backslash)) (chars d) = true.
Proof.
  unfold is_sha256_digest. intros H. apply andb_true_iff in H as [Hlen Hhex].
  apply Nat.eqb_eq in Hlen. split; [|split].
  - intros E. rewrite E in Hlen. discriminate.
  - apply Forall_forall. intros c Hc. apply list_elem_of_In in Hc.
    eapply forallb_In in Hhex; [|exact Hc]. apply lower_hex_plain. exact Hhex.
  - apply forallb_forall. intros c Hc.
    eapply forallb_In in Hhex; [|exact Hc].
    apply negb_true_iff. apply lower_hex_plain. exact Hhex.
Qed.

(** The first word of a text that starts with a word followed by a space. *)
Lemma words_go_head d : forall cur t,
  Forall (fun c => plain c = true) d -> rev cur ++ d <> [] ->
  head (words_go 0 cur (d ++ " "%char :: t)) = Some (rev cur ++ d).
Proof.
  induction d as [|c d IH]; intros cur t Hd Hne.
  - cbn [app words_go]. rewrite front_space_blank.
    rewrite app_nil_r in *. destruct cur as [|a cur]; [simpl in Hne; congruence|].
    reflexivity.
  - apply Forall_cons in Hd as [Hc Hd]. cbn [app words_go].
    rewrite (front_space_plain c _ Hc).
    rewrite IH; [|exact Hd|].
    + simpl. rewrite <- app_assoc. reflexivity.
    + simpl. rewrite <- app_assoc. simpl. intros E. apply app_eq_nil in E as [_ E]. discriminate.
Qed.

Lemma words_head d t :
  Forall (fun c => plain c = true) (chars d) -> chars d <> [] ->
  head (words (chars (d +:+ " " +:+ t))) = Some (chars d).
Proof.
  intros Hd Hne. rewrite !chars_app. unfold words.
  change (chars " " ++ chars t) with (" "%char :: chars t).
  rewrite words_go_head; [reflexivity|exact Hd|exact Hne].
Qed.

Lemma checksum_substitution_eq sha content :
  forallb (fun c => negb (ascii_eqb c backslash)) (chars sha) = true ->
  checksum_substitution sha content
  = Some (text (sub no_check_pattern
                  (map Ch (chars ("sha256 " +:+ dq +:+ sha +:+ dq))) (chars content))).
Proof.
  intros H. unfold checksum_substitution. apply re_sub_plain.
  rewrite !chars_app, !forallb_app, H. reflexivity.
Qed.

End ChecksumFacts.


(** ** Rules for running the script step by step *)

Module Rules.

Lemma wp_ret {A} (a : A) Q w : Q (Ok a) w -> wp (ret a) Q w.
Proof. exact id. Qed.

Lemma wp_raise {A} e (Q : outcome A -> World -> Prop) w :
  Q (Raise e) w -> wp (raise e) Q w.
Proof. exact id. Qed.

Lemma wp_bind {A B} (m : M A) (k : A -> M B) Q w :
  wp m (wp_then k Q) w -> wp (bind m k) Q w.
Proof.
  unfold wp, wp_then, bind. destruct (m w) as [[a|e] w']; simpl; exact id.
Qed.

Lemma wp_get {A} (f : World -> A) Q w : Q (Ok (f w)) w -> wp (get f) Q w.
Proof. exact id. Qed.

Lemma wp_modify f Q w : Q (Ok tt) (f w) -> wp (modify f) Q w.
Proof. exact id. Qed.

Lemma wp_print l Q w :
  Q (Ok tt) (set_console (console w ++ [l]) w) -> wp (print l) Q w.
Proof. exact id. Qed.

Lemma wp_or_raise {A} (o : option A) e Q w :
  match o with Some a => Q (Ok a) w | None => Q (Raise e) w end ->
  wp (or_raise o e) Q w.
Proof. destruct o; exact id. Qed.

Lemma wp_attr name f Q w :
  match f w with
  | Some s => Q (Ok s) w
  | None => Q (Raise (AttributeError
                        ("'ReleaseManager' object has no attribute " +:+ name))) w
  end ->
  wp (attr name f) Q w.
Proof. unfold wp, attr, bind, get. simpl. destruct (f w); exact id. Qed.

Lemma wp_when (b : bool) (m : M unit) (Q : outcome unit -> World -> Prop) w :
  (if b then wp m Q w else Q (Ok tt) w) -> wp (when b m) Q w.
Proof. destruct b; exact id. Qed.

Lemma wp_try_catch {A} (body : M A) handlers Q w :
  wp body (fun o w' =>
             match o with
             | Ok a => Q (Ok a) w'
             | Raise e =>
                 match handlers e with
                 | Some h => wp h Q w'
                 | None => Q (Raise e) w'
                 end
             end) w ->
  wp (try_catch body handlers) Q w.
Proof.
  unfold wp, try_catch. destruct (body w) as [[a|e] w']; simpl; [exact id|].
  destruct (handlers e); exact id.
Qed.

Lemma wp_try_finally {A} (body : M A) final Q w :
  wp body (fun o w' =>
             wp final (fun o2 w'' =>
                         match o2 with
                         | Ok _ => Q o w''
                         | Raise e => Q (Raise e) w''
                         end) w') w ->
  wp (try_finally body final) Q w.
Proof.
  unfold wp, try_finally. destruct (body w) as [o w']; simpl.
  destruct (final w') as [[u|e] w'']; exact id.
Qed.

Lemma wp_conseq {A} (m : M A) (Q Q' : outcome A -> World -> Prop) w :
  wp m Q w -> (forall o w', Q o w' -> Q' o w') -> wp m Q' w.
Proof. unfold wp. intros H HQ. apply HQ, H. Qed.

Lemma wp_path_exists p Q w :
  Q (Ok (bool_decide (is_Some (fs w !! p)))) w -> wp (path_exists p) Q w.
Proof. exact id. Qed.

Lemma wp_is_dir p Q w :
  Q (Ok (match fs w !! p with Some Dir => true | _ => false end)) w ->
  wp (is_dir p) Q w.
Proof. exact id. Qed.

Lemma wp_getcwd Q w : Q (Ok (cwd w)) w -> wp getcwd Q w.
Proof. exact id. Qed.

Lemma wp_unlink p Q w :
  match fs w !! p with
  | Some (File _) => Q (Ok tt) (set_fs (delete p (fs w)) w)
  | Some Dir => Q (Raise (IsADirectoryError p)) w
  | None => Q (Raise (FileNotFoundError p)) w
  end ->
  wp (unlink p) Q w.
Proof. unfold wp, unlink. destruct (fs w !! p) as [[c|]|]; exact id. Qed.

Lemma wp_read_file p Q w :
  match fs w !! p with
  | Some (File c) => Q (Ok c) w
  | Some Dir => Q (Raise (IsADirectoryError p)) w
  | None => Q (Raise (FileNotFoundError p)) w
  end ->
  wp (read_file p) Q w.
Proof. unfold wp, read_file. destruct (fs w !! p) as [[c|]|]; exact id. Qed.

Lemma wp_write_file p c Q w :
  match fs w !! p with
  | Some Dir => Q (Raise (IsADirectoryError p)) w
  | _ => Q (Ok tt) (set_fs (<[p := File c]> (fs w)) w)
  end ->
  wp (write_file p c) Q w.
Proof. unfold wp, write_file. destruct (fs w !! p) as [[c'|]|]; exact id. Qed.

Lemma wp_rmtree p Q w :
  match fs w !! p with
  | Some Dir =>
      Q (Ok tt) (set_fs (filter (fun kv => below p kv.1 = false) (delete p (fs w))) w)
  | Some (File _) => Q (Raise (NotADirectoryError p)) w
  | None => Q (Raise (FileNotFoundError p)) w
  end ->
  wp (rmtree p) Q w.
Proof. unfold wp, rmtree. destruct (fs w !! p) as [[c|]|]; exact id. Qed.

Lemma wp_mkdir p Q w :
  match fs w !! p with
  | Some Dir => Q (Ok tt) w
  | Some (File _) => Q (Raise (FileExistsError p)) w
  | None => Q (Ok tt) (set_fs (<[p := Dir]> (fs w)) w)
  end ->
  wp (mkdir p) Q w.
Proof. unfold wp, mkdir. destruct (fs w !! p) as [[c|]|]; exact id. Qed.

Lemma wp_chmod env p Q w :
  match fs w !! p with
  | Some _ =>
      match chmod_error env (length (calls w)) p with
      | Some e => Q (Raise e) w
      | None => Q (Ok tt) w
      end
  | None => Q (Raise (FileNotFoundError p)) w
  end ->
  wp (chmod env p) Q w.
Proof.
  unfold wp, chmod. destruct (fs w !! p); [|exact id].
  destruct (chmod_error env (length (calls w)) p); exact id.
Qed.

Lemma wp_read_text env p Q w :
  match fs w !! p with
  | Some (File c) =>
      match decode env c with
      | Some content =>
          Q (Ok (Text.text (Text.universal_newlines (Text.chars content)))) w
      | None => Q (Raise UnicodeDecodeError) w
      end
  | Some Dir => Q (Raise (IsADirectoryError p)) w
  | None => Q (Raise (FileNotFoundError p)) w
  end ->
  wp (read_text env p) Q w.
Proof.
  unfold wp, read_text, bind, read_file. destruct (fs w !! p) as [[c|]|]; [|exact id..].
  destruct (decode env c); exact id.
Qed.

Lemma wp_write_text env p c Q w :
  match fs w !! p with
  | Some Dir => Q (Raise (IsADirectoryError p)) w
  | _ =>
      match encode env c with
      | Some data => Q (Ok tt) (set_fs (<[p := File data]> (fs w)) w)
      | None => Q (Raise UnicodeEncodeError) (set_fs (<[p := File ""]> (fs w)) w)
      end
  end ->
  wp (write_text env p c) Q w.
Proof.
  unfold wp, write_text, bind, write_file.
  destruct (encode env c); destruct (fs w !! p) as [[c'|]|]; exact id.
Qed.

Lemma wp_chdir p Q w :
  match fs w !! p with
  | Some Dir => Q (Ok tt) (set_cwd p w)
  | Some (File _) => Q (Raise (NotADirectoryError p)) w
  | None => Q (Raise (FileNotFoundError p)) w
  end ->
  wp (chdir p) Q w.
Proof. unfold wp, chdir. destruct (fs w !! p) as [[c|]|]; exact id. Qed.

Lemma wp_subprocess_run env argv check Q w :
  (forall r fs',
     run_process env (length (calls w)) argv (cwd w) (fs w) = (r, fs') ->
     let w1 := set_calls (calls w ++ [Proc argv (cwd w)]) w in
     match r with
     | LaunchFailed => Q (Raise (FileNotFoundError (default "" (head argv)))) w1
     | Exited rc out err =>
         if check && negb (rc =? 0)
         then Q (Raise (CalledProcessError argv rc)) (set_fs fs' w1)
         else Q (Ok (mkCompleted rc out err)) (set_fs fs' w1)
     end) ->
  wp (subprocess_run env argv check) Q w.
Proof.
  intros H. unfold wp, subprocess_run.
  destruct (run_process env (length (calls w)) argv (cwd w) (fs w)) as [r fs'] eqn:E.
  specialize (H r fs' eq_refl). simpl in H.
  destruct r as [rc out err|]; [|exact H].
  destruct (check && negb (rc =? 0)); exact H.
Qed.

Lemma wp_gitpy env op Q w :
  match gp_raise (gitpython env (length (calls w)) op) with
  | Some e => Q (Raise e) (set_calls (calls w ++ [GitPy op]) w)
  | None => Q (Ok (gitpython env (length (calls w)) op))
              (set_calls (calls w ++ [GitPy op]) w)
  end ->
  wp (gitpy env op) Q w.
Proof.
  unfold wp, gitpy. simpl.
  destruct (gp_raise (gitpython env (length (calls w)) op)); exact id.
Qed.

Lemma wp_make_archive env p Q w :
  match zip_bytes env (fs w) with
  | Some bytes => wp (write_file p bytes) Q (set_calls (calls w ++ [Archive p]) w)
  | None => Q (Raise (FileNotFoundError p)) (set_calls (calls w ++ [Archive p]) w)
  end ->
  wp (make_archive env p) Q w.
Proof.
  unfold wp, make_archive. simpl. destruct (zip_bytes env (fs w)); exact id.
Qed.

Lemma wp_for_each_nil {A} (body : A -> M unit) Q w :
  Q (Ok tt) w -> wp (for_each [] body) Q w.
Proof. exact id. Qed.

Lemma wp_for_each_cons {A} x (l : list A) (body : A -> M unit) Q w :
  wp (body x) (wp_then (fun _ => for_each l body) Q) w ->
  wp (for_each (x :: l) body) Q w.
Proof. apply wp_bind. Qed.


Lemma bind_ret {A B} (a : A) (k : A -> M B) w : bind (ret a) k w = k a w.
Proof. reflexivity. Qed.

Lemma bind_modify {B} f (k : unit -> M B) w : bind (modify f) k w = k tt (f w).
Proof. reflexivity. Qed.

Lemma bind_print {B} l (k : unit -> M B) w :
  bind (print l) k w = k tt (set_console (console w ++ [l]) w).
Proof. reflexivity. Qed.


Lemma bind_raise {A B} (m : M A) (k : A -> M B) w e w' :
  m w = (Raise e, w') -> bind m k w = (Raise e, w').
Proof. unfold bind. intros ->. reflexivity. Qed.


Lemma try_catch_raise {A} (body : M A) handlers w e w' :
  body w = (Raise e, w') ->
  try_catch body handlers w
  = match handlers e with Some h => h w' | None => (Raise e, w') end.
Proof. unfold try_catch. intros ->. reflexivity. Qed.

Lemma try_catch_ok {A} (body : M A) handlers w a w' :
  body w = (Ok a, w') -> try_catch body handlers w = (Ok a, w').
Proof. unfold try_catch. intros ->. reflexivity. Qed.


Lemma run_raise_eq {A} (r : outcome A * World) e : r.1 = Raise e -> r = (Raise e, r.2).
Proof. destruct r as [o w]. simpl. intros ->. reflexivity. Qed.


Lemma wp_of_run {A} (m : M A) (Q : outcome A -> World -> Prop) w o w' :
  m w = (o, w') -> Q o w' -> wp m Q w.
Proof. unfold wp. intros ->. exact id. Qed.

End Rules.

(** ** Tactics for the rules *)

Ltac wsimpl :=
  cbn [fs cwd console calls current_version new_version tag_name release_notes
       dry_run original_dir set_fs set_cwd set_console set_calls
       set_current_version set_new_version set_tag_name set_release_notes
       set_dry_run set_original_dir returncode stdout stderr wp_then fst snd] in *.

(** The same, with every world brought to an explicit record. *)
Ltac wflat :=
  cbv beta iota delta
      [fs cwd console calls current_version new_version tag_name release_notes
       dry_run original_dir set_fs set_cwd set_console set_calls
       set_current_version set_new_version set_tag_name set_release_notes
       set_dry_run set_original_dir returncode stdout stderr wp_then fst snd].

Ltac wp_step :=
  lazymatch goal with
  | |- wp (bind _ _) _ _ => apply Rules.wp_bind
  | |- wp (ret _) _ _ => apply Rules.wp_ret
  | |- wp (raise _) _ _ => apply Rules.wp_raise
  | |- wp (get _) _ _ => apply Rules.wp_get
  | |- wp (modify _) _ _ => apply Rules.wp_modify
  | |- wp (print _) _ _ => apply Rules.wp_print
  | |- wp (or_raise _ _) _ _ => apply Rules.wp_or_raise
  | |- wp (attr _ _) _ _ => apply Rules.wp_attr
  | |- wp (when _ _) _ _ => apply Rules.wp_when
  | |- wp (try_catch _ _) _ _ => apply Rules.wp_try_catch
  | |- wp (try_finally _ _) _ _ => apply Rules.wp_try_finally
  | |- wp (path_exists _) _ _ => apply Rules.wp_path_exists
  | |- wp (is_dir _) _ _ => apply Rules.wp_is_dir
  | |- wp getcwd _ _ => apply Rules.wp_getcwd
  | |- wp (unlink _) _ _ => apply Rules.wp_unlink
  | |- wp (read_file _) _ _ => apply Rules.wp_read_file
  | |- wp (write_file _ _) _ _ => apply Rules.wp_write_file
  | |- wp (rmtree _) _ _ => apply Rules.wp_rmtree
  | |- wp (mkdir _) _ _ => apply Rules.wp_mkdir
  | |- wp (chmod _ _) _ _ => apply Rules.wp_chmod
  | |- wp (read_text _ _) _ _ => apply Rules.wp_read_text
  | |- wp (write_text _ _ _) _ _ => apply Rules.wp_write_text
  | |- wp (chdir _) _ _ => apply Rules.wp_chdir
  | |- wp (subprocess_run _ _ _) _ _ => apply Rules.wp_subprocess_run
  | |- wp (gitpy _ _) _ _ => apply Rules.wp_gitpy
  | |- wp (make_archive _ _) _ _ => apply Rules.wp_make_archive
  | |- wp (for_each [] _) _ _ => apply Rules.wp_for_each_nil
  | |- wp (for_each (_ :: _) _) _ _ => apply Rules.wp_for_each_cons
  | |- wp_then _ _ _ _ => progress wsimpl
  end.

Ltac wp_steps := repeat (wp_step; wsimpl).

(** The same, stopping in front of each started program. *)
Ltac wp_quiet_step :=
  lazymatch goal with
  | |- wp (subprocess_run _ _ _) _ _ => fail
  | |- wp (bind (subprocess_run _ _ _) _) _ _ => apply Rules.wp_bind
  | _ => wp_step
  end.

Ltac wp_walk := repeat (wp_quiet_step; wflat).

(** ** The top-level failure handler *)

(** C9. When [run] raises, [main] prints the error and the notice, then
    calls [git restore] on the metadata file. If the restore exits 0,
    [main] returns normally, so the process ends with status 0. The restore
    is not guarded: if it exits non-zero its [CalledProcessError] leaves
    [main], and so does the error of a [git] that cannot be started. *)
Theorem main_failure_handler (env : Env) (version_type : string)
  (dry_run_flag : bool) (w w1 : World) (e : exn) :
  run env version_type (main_start dry_run_flag w) = (Raise e, w1) ->
  let restore := ["git"; "restore"; info_plist_path env] in
  let w2 :=
    set_calls (calls w1 ++ [Proc restore (cwd w1)])
      (set_console
         (console w1 ++ ["❌ Error during release process: " +:+ exn_str e;
                         "Reverting Info.plist to the original version..."]) w1) in
  match run_process env (length (calls w1)) restore (cwd w1) (fs w1) with
  | (Exited rc out err, fs') =>
      if rc =? 0 then
        main env version_type dry_run_flag w = (Ok tt, set_fs fs' w2)
        /\ exit_status (main env version_type dry_run_flag w).1 = 0
      else
        main env version_type dry_run_flag w
        = (Raise (CalledProcessError restore rc), set_fs fs' w2)
  | (LaunchFailed, _) =>
      main env version_type dry_run_flag w = (Raise (FileNotFoundError "git"), w2)
  end.
Proof.
  intros Hrun restore w2.
  assert (Hmain : main env version_type dry_run_flag w
                  = (print ("❌ Error during release process: " +:+ exn_str e) ;;
                     print "Reverting Info.plist to the original version..." ;;
                     subprocess_run env restore true ;;
                     ret tt)%py w1).
  { unfold main, main_start in *.
    destruct dry_run_flag; cbn [when];
      rewrite ?Rules.bind_print, ?Rules.bind_ret, !Rules.bind_modify;
      (erewrite Rules.try_catch_raise; [reflexivity|]);
      apply Rules.bind_raise; exact Hrun. }
  rewrite Hmain. unfold bind, print, modify, subprocess_run. wsimpl.
  rewrite <- app_assoc. cbn [app]. fold restore.
  destruct (run_process env (length (calls w1)) restore (cwd w1) (fs w1))
    as [[rc out err|] fs'] eqn:E; [|reflexivity].
  cbn [andb]. destruct (rc =? 0) eqn:Erc; cbn [negb]; [|reflexivity].
  split; reflexivity.
Qed.

Lemma main_failure_handler_witness :
  let w := Demo.world ∅ false in
  (exists e w1, run (Demo.env Demo.nothing true) "patch" (main_start false w) = (Raise e, w1))
  /\ exit_status (main (Demo.env Demo.nothing true) "patch" false w).1 = 0.
Proof.
  intros w.
  set (r := run (Demo.env Demo.nothing true) "patch" (main_start false w)).
  set (e := match r.1 with Raise e => e | Ok _ => IndexError end).
  assert (Hrun : r = (Raise e, r.2)) by (vm_compute; reflexivity).
  split; [exists e, r.2; exact Hrun|].
  pose proof (main_failure_handler (Demo.env Demo.nothing true) "patch" false w r.2 e Hrun) as T.
  cbv zeta in T.
  replace (run_process (Demo.env Demo.nothing true) (length (calls r.2))
             ["git"; "restore"; info_plist_path (Demo.env Demo.nothing true)] (cwd r.2) (fs r.2))
    with (Exited 0 "" "", fs r.2) in T by (vm_compute; reflexivity).
  cbv iota beta in T. change (0 =? 0) with true in T. cbv iota in T.
  exact (proj2 T).
Defined.

(** ** Dry runs *)

(** C2 (the code departs from it). A dry run of [main] in a project that
    holds a stale [WinDock.zip]: the run succeeds, yet the archive is
    deleted by [cleanup_stale_resources], the build script is run and
    creates the bundle; the metadata file alone is left as it was. *)
Theorem dry_run_deletes_stale_archive :
  let w := Demo.world (<["/proj/WinDock.zip" := File "old"]> Demo.files) false in
  let r := main (Demo.env Demo.nothing true) "patch" true w in
  r.1 = Ok tt
  /\ dry_run r.2 = true
  /\ fs w !! "/proj/WinDock.zip" = Some (File "old")
  /\ fs r.2 !! "/proj/WinDock.zip" = None
  /\ In (Proc ["/proj/build.sh"] "/proj") (calls r.2)
  /\ fs w !! Demo.app = None
  /\ fs r.2 !! Demo.app = Some Dir
  /\ fs r.2 !! Demo.plist = fs w !! Demo.plist.
Proof.
  vm_compute. repeat split. right. left. reflexivity.
Qed.


(** ** The checksum of the formula *)

Module StaleFacts.
Import Text TextFacts Re ReSpec ReFacts ChecksumFacts.

(** A text without the sentinel is left as it is. *)
Lemma sub_no_sentinel tmpl s :
  contains sentinel s = false -> sub no_check_pattern tmpl s = s.
Proof.
  induction s as [|c t IH]; intros H; [reflexivity|].
  cbn [contains] in H. apply orb_false_iff in H as [Hp Ht].
  rewrite sub_skip.
  - f_equal. apply IH. exact Ht.
  - unfold no_check_pattern. rewrite match_here_lit. fold sentinel. rewrite Hp. reflexivity.
Qed.

Lemma checksum_substitution_no_sentinel sha content :
  forallb (fun c => negb (ascii_eqb c backslash)) (chars sha) = true ->
  contains sentinel (chars content) = false ->
  checksum_substitution sha content = Some content.
Proof.
  intros Hb Hs. rewrite checksum_substitution_eq by exact Hb.
  rewrite sub_no_sentinel by exact Hs. rewrite text_chars. reflexivity.
Qed.

End StaleFacts.

(** C6 (the code departs from it). The download and the hashing succeed
    and [shasum] prints a lowercase hexadecimal SHA-256 digest, but the
    formula holds no sentinel [sha256 :no_check] (it carries a checksum of
    its own): [update_formula_checksum] writes the text of the formula
    back as it read it, so the checksum line is the one it was and the
    digest just computed is not written, and yet it prints the computed
    digest and announces that the formula was updated with it. *)
Theorem update_formula_checksum_keeps_stale_checksum (env : Env) (w : World)
  (formula_path digest tail content out1 err1 err2 decoded data : string)
  (fs1 fs2 : gmap string node) :
  formula_path <> scratch_zip ->
  ReSpec.is_sha256_digest digest = true ->
  run_process env (length (calls w))
    ["curl"; "-L"; "-o"; scratch_zip; asset_url (new_version w)] (cwd w) (fs w)
    = (Exited 0 out1 err1, fs1) ->
  run_process env (S (length (calls w)))
    ["shasum"; "-a"; "256"; scratch_zip] (cwd w) fs1
    = (Exited 0 (digest +:+ " " +:+ tail) err2, fs2) ->
  fs2 !! formula_path = Some (File content) ->
  decode env content = Some decoded ->
  let read := Text.text (Text.universal_newlines (Text.chars decoded)) in
  Text.contains (Text.chars "sha256 :no_check") (Text.chars read) = false ->
  encode env read = Some data ->
  let r := update_formula_checksum env formula_path w in
  r.1 = Ok tt
  /\ fs r.2 !! formula_path = Some (File data)
  /\ fs r.2 !! scratch_zip
     = match fs2 !! scratch_zip with Some Dir => Some Dir | _ => None end
  /\ console r.2
     = console w
       ++ ["📥 Downloading " +:+ asset_url (new_version w) +:+ " to calculate checksum...";
           "🔍 Calculated SHA256: " +:+ digest;
           "✅ Updated formula with calculated checksum"].
Proof.
  intros Hpath Hdigest Hcurl Hsha Hfile Hdec read Hnone Henc.
  destruct (ChecksumFacts.digest_chars _ Hdigest) as (Hne & Hsp & Hbs).
  change (wp (update_formula_checksum env formula_path)
            (fun o w' =>
               o = Ok tt
               /\ fs w' !! formula_path = Some (File data)
               /\ fs w' !! scratch_zip
                  = match fs2 !! scratch_zip with Some Dir => Some Dir | _ => None end
               /\ console w'
                  = console w
                    ++ ["📥 Downloading " +:+ asset_url (new_version w)
                          +:+ " to calculate checksum...";
                        "🔍 Calculated SHA256: " +:+ digest;
                        "✅ Updated formula with calculated checksum"]) w).
  unfold update_formula_checksum. wp_steps.
  intros r fs' E. rewrite Hcurl in E. injection E as <- <-. wsimpl.
  change (negb (0 =? 0)) with false. cbn [andb negb]. wp_steps.
  intros r fs' E. rewrite length_app, Nat.add_1_r in E. cbn [length] in E.
  rewrite Hsha in E. injection E as <- <-. wsimpl. cbn [andb negb Z.eqb]. wp_steps.
  rewrite ChecksumFacts.words_head by assumption. wp_steps.
  rewrite Hfile, Hdec. wp_steps.
  rewrite TextFacts.text_chars.
  fold read.
  rewrite StaleFacts.checksum_substitution_no_sentinel by assumption. wp_steps.
  rewrite Hfile, Henc. wp_steps.
  rewrite lookup_insert_ne by exact Hpath.
  destruct (fs2 !! scratch_zip) as [[c|]|] eqn:Es; wp_steps.
  - split; [reflexivity|]. split; [|split].
    + rewrite lookup_delete_ne by congruence. apply lookup_insert_eq.
    + apply lookup_delete_eq.
    + rewrite <- !app_assoc. reflexivity.
  - split; [reflexivity|]. split; [|split].
    + apply lookup_insert_eq.
    + rewrite lookup_insert_ne by exact Hpath. exact Es.
    + rewrite <- !app_assoc. reflexivity.
  - split; [reflexivity|]. split; [|split].
    + apply lookup_insert_eq.
    + rewrite lookup_insert_ne by exact Hpath. exact Es.
    + rewrite <- !app_assoc. reflexivity.
Qed.

Lemma update_formula_checksum_keeps_stale_checksum_witness :
  let r := update_formula_checksum (Demo.env Demo.nothing true) Demo.tap_formula
             (Demo.tap_world Demo.pinned_formula) in
  r.1 = Ok tt
  /\ fs r.2 !! Demo.tap_formula = Some (File Demo.pinned_formula)
  /\ Text.contains (Text.chars Demo.old_digest) (Text.chars Demo.pinned_formula) = true
  /\ Text.contains (Text.chars Demo.new_digest) (Text.chars Demo.pinned_formula) = false
  /\ In ("🔍 Calculated SHA256: " +:+ Demo.new_digest) (console r.2)
  /\ In "✅ Updated formula with calculated checksum" (console r.2).
Proof.
  intros r.
  destruct (update_formula_checksum_keeps_stale_checksum (Demo.env Demo.nothing true)
              (Demo.tap_world Demo.pinned_formula) Demo.tap_formula Demo.new_digest
              (" /tmp/WinDock.zip" +:+ nl) Demo.pinned_formula "" "" ""
              Demo.pinned_formula Demo.pinned_formula
              (<["/tmp/WinDock.zip" := File "zip"]>
                 (fs (Demo.tap_world Demo.pinned_formula)))
              (<["/tmp/WinDock.zip" := File "zip"]>
                 (fs (Demo.tap_world Demo.pinned_formula))))
    as (H1 & H2 & _ & H4).
  - discriminate.
  - reflexivity.
  - reflexivity.
  - reflexivity.
  - reflexivity.
  - reflexivity.
  - reflexivity.
  - reflexivity.
  - split; [exact H1|]. split; [exact H2|]. split; [reflexivity|]. split; [reflexivity|].
    fold r in H4. rewrite H4. split; apply in_or_app; right; cbn [In]; tauto.
Defined.

(** X20. When the download and the hashing succeed and the formula can
    be read, [update_formula_checksum] works on the text it read: each
    scanned occurrence of the sentinel [sha256 :no_check] is replaced by
    [sha256 "<digest>"] and every other character is copied in place. If
    the codec of the locale accepts the result, the formula holds it and
    the scratch download is deleted; if not, the formula is left empty,
    the scratch download stays and the error is only reported. *)
Theorem update_formula_checksum_fills_sentinel (env : Env) (w : World)
  (formula_path digest tail content out1 err1 err2 decoded : string)
  (fs1 fs2 : gmap string node) :
  formula_path <> scratch_zip ->
  ReSpec.is_sha256_digest digest = true ->
  run_process env (length (calls w))
    ["curl"; "-L"; "-o"; scratch_zip; asset_url (new_version w)] (cwd w) (fs w)
    = (Exited 0 out1 err1, fs1) ->
  run_process env (S (length (calls w)))
    ["shasum"; "-a"; "256"; scratch_zip] (cwd w) fs1
    = (Exited 0 (digest +:+ " " +:+ tail) err2, fs2) ->
  fs2 !! formula_path = Some (File content) ->
  decode env content = Some decoded ->
  let read := Text.text (Text.universal_newlines (Text.chars decoded)) in
  let r := update_formula_checksum env formula_path w in
  exists out,
    ReSpec.replaces Re.no_check_pattern
      (Text.chars ("sha256 " +:+ Text.dq +:+ digest +:+ Text.dq))
      (Text.chars read) (Text.chars out)
    /\ r.1 = Ok tt
    /\ match encode env out with
       | Some data =>
           fs r.2 !! formula_path = Some (File data)
           /\ fs r.2 !! scratch_zip
              = match fs2 !! scratch_zip with Some Dir => Some Dir | _ => None end
           /\ last (console r.2) = Some "✅ Updated formula with calculated checksum"
       | None =>
           fs r.2 !! formula_path = Some (File "")
           /\ fs r.2 !! scratch_zip = fs2 !! scratch_zip
           /\ last (console r.2)
              = Some ("⚠️ Error updating checksum: " +:+ exn_str UnicodeEncodeError)
       end.
Proof.
  intros Hpath Hdigest Hcurl Hsha Hfile Hdec read r.
  destruct (ChecksumFacts.digest_chars _ Hdigest) as (Hne & Hsp & Hbs).
  set (out := Text.text (ReFacts.sub Re.no_check_pattern
                 (map Re.Ch (Text.chars ("sha256 " +:+ Text.dq +:+ digest +:+ Text.dq)))
                 (Text.chars read))).
  exists out. split.
  { subst out. rewrite TextFacts.chars_text.
    apply (ReFacts.sub_replaces _ _ ChecksumFacts.no_check_spec
             ChecksumFacts.sentinel_nonempty).
    apply ReFacts.instantiate_plain. }
  subst r.
  change (wp (update_formula_checksum env formula_path)
            (fun o w' =>
               o = Ok tt
               /\ match encode env out with
                  | Some data =>
                      fs w' !! formula_path = Some (File data)
                      /\ fs w' !! scratch_zip
                         = match fs2 !! scratch_zip with
                           | Some Dir => Some Dir
                           | _ => None
                           end
                      /\ last (console w')
                         = Some "✅ Updated formula with calculated checksum"
                  | None =>
                      fs w' !! formula_path = Some (File "")
                      /\ fs w' !! scratch_zip = fs2 !! scratch_zip
                      /\ last (console w')
                         = Some ("⚠️ Error updating checksum: "
                                   +:+ exn_str UnicodeEncodeError)
                  end) w).
  unfold update_formula_checksum. wp_steps.
  intros r fs' E. rewrite Hcurl in E. injection E as <- <-. wsimpl.
  change (negb (0 =? 0)) with false. cbn [andb negb]. wp_steps.
  intros r fs' E. rewrite length_app, Nat.add_1_r in E. cbn [length] in E.
  rewrite Hsha in E. injection E as <- <-. wsimpl. cbn [andb negb Z.eqb]. wp_steps.
  rewrite ChecksumFacts.words_head by assumption. wp_steps.
  rewrite Hfile, Hdec. wp_steps.
  rewrite TextFacts.text_chars. fold read.
  rewrite ChecksumFacts.checksum_substitution_eq by exact Hbs. wp_steps.
  fold out. rewrite Hfile.
  destruct (encode env out) as [data|] eqn:Henc; wp_steps.
  - rewrite lookup_insert_ne by exact Hpath.
    destruct (fs2 !! scratch_zip) as [[c|]|] eqn:Es; wp_steps;
      (split; [reflexivity|]); (split; [|split]);
      rewrite ?last_snoc; try reflexivity;
      rewrite ?lookup_delete_eq, ?lookup_delete_ne, ?lookup_insert_eq by congruence;
      try reflexivity;
      rewrite ?lookup_insert_eq, ?lookup_insert_ne by exact Hpath; try reflexivity;
      try exact Es.
  - cbn [is_CalledProcessError]. wp_steps.
    split; [reflexivity|]. split; [|split].
    + apply lookup_insert_eq.
    + rewrite lookup_insert_ne by exact Hpath. reflexivity.
    + rewrite last_snoc. reflexivity.
Qed.

Lemma update_formula_checksum_fills_sentinel_witness :
  let r := update_formula_checksum (Demo.env Demo.nothing true) Demo.tap_formula
             (Demo.tap_world Demo.unpinned_formula) in
  r.1 = Ok tt
  /\ exists out,
       fs r.2 !! Demo.tap_formula = Some (File out)
       /\ ReSpec.replaces Re.no_check_pattern
            (Text.chars ("sha256 " +:+ Text.dq +:+ Demo.new_digest +:+ Text.dq))
            (Text.chars Demo.unpinned_formula) (Text.chars out).
Proof.
  intros r.
  destruct (update_formula_checksum_fills_sentinel (Demo.env Demo.nothing true)
              (Demo.tap_world Demo.unpinned_formula) Demo.tap_formula Demo.new_digest
              (" /tmp/WinDock.zip" +:+ nl) Demo.unpinned_formula "" "" ""
              Demo.unpinned_formula
              (<["/tmp/WinDock.zip" := File "zip"]>
                 (fs (Demo.tap_world Demo.unpinned_formula)))
              (<["/tmp/WinDock.zip" := File "zip"]>
                 (fs (Demo.tap_world Demo.unpinned_formula))))
    as (out & Hrep & Hok & Hfs).
  - discriminate.
  - reflexivity.
  - reflexivity.
  - reflexivity.
  - reflexivity.
  - reflexivity.
  - split; [exact Hok|]. exists out. split; [|exact Hrep].
    exact (proj1 Hfs).
Defined.

(** ** Release notes *)

(** C5 (the code departs from it). GitPython is installed and opening the
    repository raises an exception: [generate_release_notes] lets it
    through. Its only handler is for the [CalledProcessError] of a [git]
    process; nothing falls back, no notes are kept and no notes file is
    written. *)
Theorem generate_release_notes_gitpython_error_escapes (env : Env) (w : World)
  (e : exn) :
  HAVE_GITPYTHON env = true ->
  gp_raise (gitpython env (length (calls w)) (GpRepo (root_dir env))) = Some e ->
  is_CalledProcessError e = false ->
  generate_release_notes env w
  = (Raise e,
     set_calls (calls w ++ [GitPy (GpRepo (root_dir env))])
       (set_console (console w ++ ["📝 Generating release notes..."]) w)).
Proof.
  intros Hgp Hraise He.
  unfold generate_release_notes. rewrite Hgp.
  rewrite Rules.bind_print.
  erewrite Rules.try_catch_raise.
  - rewrite He. reflexivity.
  - apply Rules.bind_raise. unfold commits_via_gitpython.
    apply Rules.bind_raise. unfold gitpy. wsimpl. rewrite Hraise. reflexivity.
Qed.

Lemma generate_release_notes_gitpython_error_escapes_witness :
  let w := Demo.tap_world Demo.unpinned_formula in
  let r := generate_release_notes Demo.env_gitpython w in
  r.1 = Raise (GitPythonError "InvalidGitRepositoryError")
  /\ release_notes r.2 = None
  /\ fs r.2 = fs w.
Proof.
  intros w r. subst r.
  rewrite (generate_release_notes_gitpython_error_escapes Demo.env_gitpython w
             (GitPythonError "InvalidGitRepositoryError"));
    [|reflexivity..].
  repeat split.
Defined.



(** ** The build step *)



Module BuildFacts.

Lemma for_each_print l w :
  for_each l print w = (Ok tt, set_console (console w ++ l) w).
Proof.
  revert w. induction l as [|x l IH]; intros w.
  - simpl. rewrite app_nil_r. destruct w; reflexivity.
  - cbn [for_each]. rewrite Rules.bind_print, IH. wsimpl.
    rewrite <- app_assoc. reflexivity.
Qed.

Lemma wp_for_each_print l (Q : outcome unit -> World -> Prop) w :
  Q (Ok tt) (set_console (console w ++ l) w) -> wp (for_each l print) Q w.
Proof. intros H. eapply Rules.wp_of_run; [apply for_each_print|exact H]. Qed.

(** Texts with different endings are different. *)
Lemma append_clash (x y a b : string) :
  ReSpec.clash (rev (Text.chars a)) (rev (Text.chars b)) = true ->
  x +:+ a <> y +:+ b.
Proof.
  intros Hc E. apply (f_equal Text.chars) in E.
  rewrite !TextFacts.chars_app in E. apply (f_equal (@rev ascii)) in E.
  rewrite !rev_app_distr in E.
  eapply ReFacts.clash_spec; [exact Hc|exact E].
Qed.





End BuildFacts.

Module BeforeBuildFacts.
Import BuildFacts.






End BeforeBuildFacts.

Module RunFacts.



End RunFacts.





(** ** The steps after the build, under assumptions on the environment *)

Module FrameFacts.

Lemma extends_refl {A} (l : list A) : extends l l.
Proof. exists []. rewrite app_nil_r. reflexivity. Qed.

Lemma extends_trans {A} (l1 l2 l3 : list A) :
  extends l1 l2 -> extends l2 l3 -> extends l1 l3.
Proof. intros [a ->] [b ->]. exists (a ++ b). rewrite app_assoc. reflexivity. Qed.

Lemma extends_app {A} (l m : list A) : extends l (l ++ m).
Proof. exists m. reflexivity. Qed.

Lemma extends_In {A} (l1 l2 : list A) x : extends l1 l2 -> In x l1 -> In x l2.
Proof. intros [a ->] H. apply in_or_app. left. exact H. Qed.

Lemma In_last {A} (l : list A) x : In x (l ++ [x]).
Proof. apply in_or_app. right. left. reflexivity. Qed.

Lemma frame_refl w : frame w w.
Proof. repeat split. apply extends_refl. Qed.

Lemma frame_trans w1 w2 w3 : frame w1 w2 -> frame w2 w3 -> frame w1 w3.
Proof.
  intros (Hc & Hd & Ht & Hn) (Hc' & Hd' & Ht' & Hn').
  split; [eapply extends_trans; eassumption|].
  repeat split; congruence.
Qed.

Lemma frame_In w w' x : frame w w' -> In x (console w) -> In x (console w').
Proof. intros [H _]. apply extends_In. exact H. Qed.

End FrameFacts.

Ltac frame_direct :=
  unfold frame; wflat;
  split;
  [ first [ apply FrameFacts.extends_refl
          | rewrite <- ?app_assoc; apply FrameFacts.extends_app ]
  | repeat split; reflexivity ].

Ltac solve_frame :=
  first
    [ solve [frame_direct]
    | match goal with
      | H : frame ?a ?m |- frame ?w ?w' =>
          apply (FrameFacts.frame_trans w m w');
          [ apply (FrameFacts.frame_trans w a m); [clear H; solve_frame | exact H]
          | clear H; solve_frame ]
      end ].

Module SoundFacts.
Import BuildFacts.

Section Sound.
Variable env : Env.
Variable c : string.
Variable s : Prop.

Local Abbreviation sound := (sound_files env c s).

Lemma tap_not_notes : homebrew_tap_dir env <> release_notes_path env.
Proof. apply append_clash. reflexivity. Qed.

Lemma tap_formula_dir_not_notes : tap_formula_dir env <> release_notes_path env.
Proof.
  unfold tap_formula_dir, homebrew_tap_dir, release_notes_path.
  rewrite TextFacts.append_assoc. apply append_clash. reflexivity.
Qed.

Lemma sound_mkdir f p :
  sound f -> f !! p = None -> p <> release_notes_path env ->
  sound (<[p := Dir]> f).
Proof.
  intros [Hc Hs] Hp Hn. split.
  - rewrite lookup_insert_ne by congruence. exact Hc.
  - intros H. destruct (Hs H) as [Ht Hnotes]. split.
    + intros x. destruct (decide (p = homebrew_tap_dir env)) as [->|Hne].
      * rewrite lookup_insert_eq. discriminate.
      * rewrite lookup_insert_ne by exact Hne. apply Ht.
    + rewrite lookup_insert_ne by exact Hn. exact Hnotes.
Qed.

Lemma sound_write f p x :
  sound f -> f !! p <> Some Dir -> p <> homebrew_tap_dir env ->
  sound (<[p := File x]> f).
Proof.
  intros [Hc Hs] Hp Ht. split.
  - rewrite lookup_insert_ne by congruence. exact Hc.
  - intros H. destruct (Hs H) as [Htap Hnotes]. split.
    + intros y. rewrite lookup_insert_ne by exact Ht. apply Htap.
    + destruct (decide (p = release_notes_path env)) as [->|Hne].
      * rewrite lookup_insert_eq. discriminate.
      * rewrite lookup_insert_ne by exact Hne. exact Hnotes.
Qed.

Lemma sound_delete f p x :
  sound f -> f !! p = Some (File x) -> sound (delete p f).
Proof.
  intros [Hc Hs] Hp. split.
  - rewrite lookup_delete_ne by congruence. exact Hc.
  - intros H. destruct (Hs H) as [Htap Hnotes]. split.
    + intros y. destruct (decide (p = homebrew_tap_dir env)) as [->|Hne].
      * rewrite lookup_delete_eq. discriminate.
      * rewrite lookup_delete_ne by exact Hne. apply Htap.
    + destruct (decide (p = release_notes_path env)) as [->|Hne].
      * rewrite lookup_delete_eq. discriminate.
      * rewrite lookup_delete_ne by exact Hne. exact Hnotes.
Qed.

Lemma lookup_rmtree (f : gmap string node) p k :
  filter (fun kv : string * node => below p kv.1 = false) (delete p f) !! k
  = if decide (k = p) then None
    else if below p k then None else f !! k.
Proof.
  destruct (decide (k = p)) as [->|Hne].
  - apply map_lookup_filter_None. left. apply lookup_delete_eq.
  - destruct (below p k) eqn:Hb.
    + apply map_lookup_filter_None. right. intros x _. simpl. congruence.
    + destruct (f !! k) as [x|] eqn:Hk.
      * apply map_lookup_filter_Some. split; [|exact Hb].
        rewrite lookup_delete_ne by congruence. exact Hk.
      * apply map_lookup_filter_None. left.
        rewrite lookup_delete_ne by congruence. exact Hk.
Qed.

Lemma sound_rmtree f p :
  sound f -> p <> c -> below p c = false ->
  sound (filter (fun kv : string * node => below p kv.1 = false) (delete p f)).
Proof.
  intros [Hc Hs] Hp Hb. split.
  - rewrite lookup_rmtree. destruct (decide (c = p)); [congruence|].
    rewrite Hb. exact Hc.
  - intros H. destruct (Hs H) as [Htap Hnotes]. split.
    + intros y. rewrite lookup_rmtree.
      destruct (decide (homebrew_tap_dir env = p)); [discriminate|].
      destruct (below p (homebrew_tap_dir env)); [discriminate|apply Htap].
    + rewrite lookup_rmtree.
      destruct (decide (release_notes_path env = p)); [discriminate|].
      destruct (below p (release_notes_path env)); [discriminate|exact Hnotes].
Qed.

Hypothesis starts : s -> tools_start env.
Hypothesis keeps : preserved env sound.

(** Starting a program other than [gh]: the files stay sound; a program
    that cannot be started refutes [s]. *)
Lemma wp_run_sound argv check (Q : outcome completed -> World -> Prop) w :
  head argv <> Some "gh" ->
  sound (fs w) ->
  (forall rc out err fs',
     sound fs' ->
     let w1 := set_fs fs' (set_calls (calls w ++ [Proc argv (cwd w)]) w) in
     if check && negb (rc =? 0)
     then Q (Raise (CalledProcessError argv rc)) w1
     else Q (Ok (mkCompleted rc out err)) w1) ->
  (~ s -> Q (Raise (FileNotFoundError (default "" (head argv))))
            (set_calls (calls w ++ [Proc argv (cwd w)]) w)) ->
  wp (subprocess_run env argv check) Q w.
Proof.
  intros Hgh Hsound Hex Hfail. apply Rules.wp_subprocess_run.
  intros r fs' E. pose proof (keeps (length (calls w)) argv (cwd w) (fs w) Hsound) as Hk.
  rewrite E in Hk. simpl in Hk. destruct r as [rc out err|].
  - apply Hex. exact Hk.
  - apply Hfail. intros Hs.
    destruct (starts Hs (length (calls w)) argv (cwd w) (fs w) Hgh)
      as (rc & out & err & f' & E'). congruence.
Qed.

(** Starting any program: the files stay sound. *)
Lemma wp_run_any argv check (Q : outcome completed -> World -> Prop) w :
  sound (fs w) ->
  (forall rc out err fs',
     sound fs' ->
     let w1 := set_fs fs' (set_calls (calls w ++ [Proc argv (cwd w)]) w) in
     if check && negb (rc =? 0)
     then Q (Raise (CalledProcessError argv rc)) w1
     else Q (Ok (mkCompleted rc out err)) w1) ->
  Q (Raise (FileNotFoundError (default "" (head argv))))
    (set_calls (calls w ++ [Proc argv (cwd w)]) w) ->
  wp (subprocess_run env argv check) Q w.
Proof.
  intros Hsound Hex Hfail. apply Rules.wp_subprocess_run.
  intros r fs' E. pose proof (keeps (length (calls w)) argv (cwd w) (fs w) Hsound) as Hk.
  rewrite E in Hk. simpl in Hk. destruct r as [rc out err|].
  - apply Hex. exact Hk.
  - exact Hfail.
Qed.

End Sound.
End SoundFacts.

Module TapFacts.
Import BuildFacts SoundFacts.

Lemma append_neq_self (x a : string) : a <> "" -> x +:+ a <> x.
Proof.
  intros Ha. induction x as [|ch x IH]; [exact Ha|].
  intros E. apply IH. injection E as E. exact E.
Qed.

Ltac leaf :=
  wflat; repeat match goal with |- _ /\ _ => split end;
  first [ reflexivity | assumption | solve_frame | discriminate
        | solve [intros; first [discriminate | congruence | tauto]]
        | solve [left; reflexivity]
        | idtac ].

Section Tap.
Variable env : Env.
Variable c : string.
Variable s : Prop.
Hypothesis starts : s -> tools_start env.
Hypothesis keeps : preserved env (sound_files env c s).

Local Abbreviation sound := (sound_files env c s).

(** [update_formula_checksum] never raises and keeps the files sound. *)
Lemma update_formula_checksum_sound formula_path w :
  formula_path <> homebrew_tap_dir env ->
  sound (fs w) ->
  wp (update_formula_checksum env formula_path)
    (fun o w' =>
       o = Ok tt /\ sound (fs w') /\ cwd w' = cwd w
       /\ original_dir w' = original_dir w /\ frame w w') w.
Proof.
  intros Hfp Hsound. unfold update_formula_checksum. wp_walk.
  eapply (wp_run_any env c s keeps); [exact Hsound| |].
  2: { wflat. cbn [is_CalledProcessError]. wp_walk. leaf. }
  intros rc out err fs1 Hs1. wflat. cbn [andb]. wp_walk.
  destruct (negb (rc =? 0)).
  { wp_walk. leaf. }
  wp_walk.
  eapply (wp_run_any env c s keeps); [exact Hs1| |].
  2: { wflat. cbn [is_CalledProcessError]. wp_walk. leaf. }
  intros rc2 out2 err2 fs2 Hs2. wflat. cbn [andb].
  destruct (negb (rc2 =? 0)).
  { cbn [is_CalledProcessError]. wp_walk. leaf. }
  wp_walk.
  destruct (head (Text.words (Text.chars out2))) as [sha|].
  2: { cbn [is_CalledProcessError]. wp_walk. leaf. }
  wp_walk.
  destruct (fs2 !! formula_path) as [[content|]|] eqn:Ef.
  2,3: cbn [is_CalledProcessError]; wp_walk; leaf.
  destruct (decode env content) as [decoded|].
  2: { wp_walk. cbn [is_CalledProcessError]. wp_walk. leaf. }
  wp_walk.
  destruct (checksum_substitution (Text.text sha)
              (Text.text (Text.universal_newlines (Text.chars decoded)))) as [updated|].
  2: { cbn [is_CalledProcessError]. wp_walk. leaf. }
  wp_walk. rewrite Ef.
  assert (Hs3 : forall x, sound (<[formula_path := File x]> fs2)).
  { intros x. apply sound_write; [exact Hs2|rewrite Ef; discriminate|exact Hfp]. }
  destruct (encode env updated) as [data|].
  2: { wp_walk. cbn [is_CalledProcessError]. wp_walk. leaf. apply Hs3. }
  wp_walk.
  destruct (<[formula_path := File data]> fs2 !! scratch_zip) as [[z|]|] eqn:Ez.
  - leaf. eapply sound_delete; [apply Hs3|eassumption].
  - wp_walk. leaf. apply Hs3.
  - wp_walk. leaf. apply Hs3.
Qed.

(** The local variable [original_dir] holds [c], or is unbound while the
    working directory is still [c]. *)
Definition bound_or_home (w : World) : Prop :=
  original_dir w = Some c \/ (original_dir w = None /\ cwd w = c).

(** What each part of the tap synchronisation guarantees, however it
    ends. *)
Definition tap_post (w : World) (o : outcome unit) (w' : World) : Prop :=
  sound (fs w') /\ frame w w' /\ bound_or_home w'
  /\ (o = Ok tt -> cwd w' = c)
  /\ (s -> original_dir w' = None -> o = Ok tt).

Ltac run_git :=
  eapply (wp_run_sound env c s starts keeps);
  [ discriminate | wflat; eassumption | intros ? ? ? ? ?; wflat | intros ?; wflat ].

Lemma reset_tap_sound w :
  sound (fs w) -> cwd w = c ->
  wp (reset_tap env) (tap_post w) w.
Proof.
  destruct w as [f0 d0 co ca cv nv tn rn dr od]. wflat. intros Hsound ->.
  unfold reset_tap, bind_original_dir, chdir_original_dir, tap_post, bound_or_home.
  wp_walk.
  destruct (f0 !! homebrew_tap_dir env) as [[x|]|] eqn:Et; try solve [leaf].
  wp_walk. run_git; [|solve [leaf]].
  cbn [andb]. destruct (negb (rc =? 0)); [solve [leaf]|]. wp_walk.
  run_git; [|solve [leaf]].
  cbn [andb]. destruct (negb (rc0 =? 0)); [solve [leaf]|]. wp_walk.
  run_git; [|solve [leaf]].
  cbn [andb]. wp_walk.
  run_git; [|solve [leaf]].
  cbn [andb]. destruct (negb (rc2 =? 0)); [solve [leaf]|]. wp_walk.
  match goal with H : sound ?f |- context [?f !! c] => rewrite (proj1 H) end.
  leaf.
Qed.

Hypothesis outside : outside_tap env c.

Lemma readme_not_tap : homebrew_tap_dir env +:+ "/README.md" <> homebrew_tap_dir env.
Proof. apply append_neq_self. discriminate. Qed.

Lemma tap_formula_path_not_tap : tap_formula_path env <> homebrew_tap_dir env.
Proof.
  unfold tap_formula_path, tap_formula_dir. rewrite TextFacts.append_assoc.
  apply append_neq_self. discriminate.
Qed.

Lemma tap_formula_inner_not_tap :
  tap_formula_path env +:+ "/" +:+ "windock.rb" <> homebrew_tap_dir env.
Proof.
  unfold tap_formula_path, tap_formula_dir. rewrite !TextFacts.append_assoc.
  apply append_neq_self. discriminate.
Qed.

Ltac solve_sound :=
  first
    [ assumption
    | eapply sound_mkdir;
      [ solve_sound | eassumption
      | first [apply tap_not_notes | apply tap_formula_dir_not_notes] ]
    | eapply sound_write;
      [ solve_sound
      | first [ congruence
              | match goal with H : ?f !! ?p = _ |- ?f !! ?p <> _ =>
                  rewrite H; discriminate end ]
      | first [ apply readme_not_tap | apply tap_formula_path_not_tap
              | apply tap_formula_inner_not_tap | assumption ] ]
    | eapply sound_delete; [solve_sound | eassumption]
    | eapply sound_rmtree;
      [ solve_sound
      | exact (fun E => proj1 outside (eq_sym E))
      | exact (proj2 outside) ] ].

(** Under [s] the tap path is not a regular file. *)
Ltac strict_tap :=
  let Hs := fresh in
  intros Hs; intros;
  match goal with
  | H : sound ?f, E : ?f !! homebrew_tap_dir env = Some (File _) |- _ =>
      exfalso; exact (proj1 (proj2 H Hs) _ E)
  end.

Ltac tap_leaf :=
  wflat; repeat match goal with |- _ /\ _ => split end;
  first [ reflexivity | assumption | solve_frame | discriminate
        | solve_sound
        | solve [left; reflexivity]
        | solve [right; split; reflexivity]
        | solve [intros; first [discriminate | congruence | tauto]]
        | strict_tap
        | idtac ].

Ltac run_tap :=
  eapply (wp_run_sound env c s starts keeps);
  [ discriminate | wflat; solve_sound | intros ? ? ? ? ?; wflat | intros ?; wflat ].

Ltac tap_step :=
  first
    [ wp_quiet_step; wflat
    | run_tap
    | match goal with
      | |- context [<[?p := ?x]> ?f !! ?p] => rewrite (lookup_insert_eq f p x)
      end
    | match goal with
      | H : sound ?f |- context [?f !! c] => rewrite (proj1 H)
      end
    | match goal with
      | |- match ?f !! ?p with _ => _ end => destruct (f !! p) as [[?|]|] eqn:?
      | |- match encode ?e ?x with _ => _ end => destruct (encode e x)
      | |- if negb (?rc =? 0) then _ else _ => destruct (negb (rc =? 0))
      end
    | progress cbn [andb] ].

Lemma init_tap_sound w :
  sound (fs w) -> cwd w = c -> original_dir w = None ->
  wp (init_tap env) (tap_post w) w.
Proof.
  destruct w as [f0 d0 co ca cv nv tn rn dr od]. wflat. intros Hsound -> ->.
  unfold init_tap, bind_original_dir, chdir_original_dir, tap_post, bound_or_home.
  repeat tap_step; solve [tap_leaf].
Qed.

Lemma tap_post_trans w0 w1 o w' :
  frame w0 w1 -> tap_post w1 o w' -> tap_post w0 o w'.
Proof.
  intros Hf (Hs & Hf' & H). split; [exact Hs|]. split; [|exact H].
  eapply FrameFacts.frame_trans; eassumption.
Qed.

Lemma clone_tap_sound w :
  sound (fs w) -> cwd w = c -> original_dir w = None ->
  wp (clone_tap env) (tap_post w) w.
Proof.
  destruct w as [f0 d0 co ca cv nv tn rn dr od]. wflat. intros Hsound -> ->.
  unfold clone_tap. wp_walk.
  destruct (f0 !! homebrew_tap_dir env) as [[x|]|] eqn:Et.
  - rewrite bool_decide_eq_true_2 by eauto. wp_walk. rewrite Et.
    unfold tap_post, bound_or_home. tap_leaf.
  - rewrite bool_decide_eq_true_2 by eauto. wp_walk. rewrite Et. wp_walk.
    run_tap.
    + cbn [andb]. destruct (negb (rc =? 0)).
      * cbn [is_CalledProcessError].
        eapply Rules.wp_conseq;
          [apply init_tap_sound; wflat; [assumption|reflexivity|reflexivity]|].
        intros o w' Hpost. eapply tap_post_trans; [|exact Hpost]. solve_frame.
      * wp_walk. unfold tap_post, bound_or_home. tap_leaf.
    + cbn [is_CalledProcessError]. unfold tap_post, bound_or_home. tap_leaf.
  - rewrite bool_decide_eq_false_2 by (intros [? ?]; discriminate). wp_walk.
    run_tap.
    + cbn [andb]. destruct (negb (rc =? 0)).
      * cbn [is_CalledProcessError].
        eapply Rules.wp_conseq;
          [apply init_tap_sound; wflat; [assumption|reflexivity|reflexivity]|].
        intros o w' Hpost. eapply tap_post_trans; [|exact Hpost]. solve_frame.
      * wp_walk. unfold tap_post, bound_or_home. tap_leaf.
    + cbn [is_CalledProcessError]. unfold tap_post, bound_or_home. tap_leaf.
Qed.

End Tap.
End TapFacts.


(** * Further properties of the release script *)

(** ** Tactics: walking a step through every answer of the environment *)

Ltac fs_case :=
  match goal with
  | |- context [bool_decide (is_Some (Some ?x))] =>
      rewrite (bool_decide_eq_true_2 (is_Some (Some x))) by eauto
  | |- context [bool_decide (is_Some (@None ?A))] =>
      rewrite (bool_decide_eq_false_2 (is_Some (@None A)))
        by (intros [? ?]; discriminate)
  | |- context [<[?p := ?x]> ?f !! ?p] => rewrite (lookup_insert_eq f p x)
  | H : ?f !! ?p = _ |- context [?f !! ?p] => rewrite H
  | H : ?x = _ |- match ?x with _ => _ end => rewrite H
  | H : ?x = _ |- wp (match ?x with _ => _ end) _ _ => rewrite H
  | |- context [bool_decide (is_Some (?f !! ?p))] =>
      destruct (bool_decide (is_Some (f !! p))) eqn:?
  end.

Ltac wp_branch :=
  lazymatch goal with
  | |- wp (subprocess_run _ _ _) _ _ =>
      apply Rules.wp_subprocess_run; intros [? ? ?|] ? _
  | |- wp (match ?x with _ => _ end) _ _ => destruct x eqn:?
  | |- match ?x with _ => _ end => destruct x eqn:?
  end.

Ltac wp_all :=
  repeat (first [fs_case | wp_quiet_step | wp_branch]; wflat;
          cbn [andb orb negb is_CalledProcessError is_FileNotFoundError]).

Ltac frame_leaf :=
  wflat; repeat match goal with |- _ /\ _ => split end;
  first [ reflexivity | assumption | solve_frame | discriminate | idtac ].

(** ** The checksum helpers, the formula version and the final clean-up *)

(** X1. [update_formula_checksum] never raises, whatever [curl] and
    [shasum] do and whatever the formula path holds: every exception is
    turned into a console warning. It leaves the working directory and
    the release attributes as they were, and starts [curl] alone or
    [curl] followed by [shasum]. *)
Theorem update_formula_checksum_never_raises (env : Env) (formula_path : string)
  (w : World) :
  let r := update_formula_checksum env formula_path w in
  let curl :=
    Proc ["curl"; "-L"; "-o"; "/tmp/WinDock.zip"; asset_url (new_version w)] (cwd w) in
  let shasum := Proc ["shasum"; "-a"; "256"; "/tmp/WinDock.zip"] (cwd w) in
  r.1 = Ok tt
  /\ cwd r.2 = cwd w
  /\ frame w r.2
  /\ (calls r.2 = calls w ++ [curl] \/ calls r.2 = calls w ++ [curl; shasum]).
Proof.
  intros r curl shasum. subst r curl shasum.
  change (wp (update_formula_checksum env formula_path)
            (fun o w' =>
               o = Ok tt /\ cwd w' = cwd w /\ frame w w'
               /\ (calls w' = calls w ++ [Proc ["curl"; "-L"; "-o"; "/tmp/WinDock.zip";
                                                 asset_url (new_version w)] (cwd w)]
                   \/ calls w' = calls w ++ [Proc ["curl"; "-L"; "-o"; "/tmp/WinDock.zip";
                                                    asset_url (new_version w)] (cwd w);
                                             Proc ["shasum"; "-a"; "256"; "/tmp/WinDock.zip"]
                                               (cwd w)])) w).
  destruct w as [f0 d0 co ca cv nv tn rn dr od].
  unfold update_formula_checksum, scratch_zip. wp_all; frame_leaf;
    rewrite <- ?app_assoc; first [left; reflexivity | right; reflexivity].
Qed.

(** X2. [update_cask_checksum] behaves as [update_formula_checksum] on
    the same path: same outcome, files, external calls and working
    directory; the consoles agree, or differ in their last line alone
    (the word "cask" for "formula"). *)
Theorem update_cask_checksum_as_formula (env : Env) (path : string) (w : World) :
  let a := update_cask_checksum env path w in
  let b := update_formula_checksum env path w in
  a.1 = b.1 /\ fs a.2 = fs b.2 /\ calls a.2 = calls b.2 /\ cwd a.2 = cwd b.2
  /\ new_version a.2 = new_version b.2
  /\ (console a.2 = console b.2
      \/ exists pre,
           console b.2 = pre ++ ["✅ Updated formula with calculated checksum"]
           /\ console a.2 = pre ++ ["✅ Updated cask with calculated checksum"]).
Proof.
  intros a b. subst a b.
  destruct w as [f0 d0 co ca cv nv tn rn dr od].
  unfold update_cask_checksum, update_formula_checksum, try_catch, bind, get, print,
    modify, subprocess_run, or_raise, read_file, write_file, unlink, ret, raise.
  wflat.
  repeat (match goal with
          | |- context [match ?x with _ => _ end] =>
              lazymatch x with
              | context [match _ with _ => _ end] => fail
              | _ => destruct x eqn:?
              end
          end; wflat; cbn [andb orb negb is_CalledProcessError]);
  repeat match goal with |- _ /\ _ => split end; try reflexivity;
  first [ left; reflexivity | right; eexists; split; reflexivity ].
Qed.


Module FormulaVersionFacts.
Import Text TextFacts Re ReSpec ReFacts FormulaFacts.

Lemma update_homebrew_formula_version_wp (env : Env) (w : World) :
  wp (update_homebrew_formula_version env)
    (fun o w' =>
       o = Ok tt /\ calls w' = calls w /\ cwd w' = cwd w /\ frame w w'
       /\ (forall p, p <> local_formula_path env -> fs w' !! p = fs w !! p)
       /\ match fs w !! local_formula_path env with
          | Some (File content) =>
              match decode env content with
              | Some decoded =>
                  match formula_substitution (fmt (new_version w))
                          (text (universal_newlines (chars decoded))) with
                  | Some updated =>
                      fs w' = <[local_formula_path env
                                := File (default "" (encode env updated))]> (fs w)
                  | None => fs w' = fs w
                  end
              | None => fs w' = fs w
              end
          | _ => fs w' = fs w
          end) w.
Proof.
  destruct w as [f0 d0 co ca cv nv tn rn dr od].
  unfold update_homebrew_formula_version.
  destruct (f0 !! local_formula_path env) as [[content|]|] eqn:Ef;
    [destruct (decode env content) as [decoded|] eqn:Ed;
     [destruct (formula_substitution (fmt nv)
                  (text (universal_newlines (chars decoded)))) as [updated|] eqn:Es;
      [destruct (encode env updated) as [data|] eqn:Ee|]|]|..];
    wp_all; frame_leaf;
    try (intros p Hp; rewrite lookup_insert_ne by congruence; reflexivity).
Qed.

(** *** Line ends *)

Definition not_cr (c : ascii) : bool := negb (ascii_eqb c "013").

Lemma universal_newlines_no_cr s :
  Forall (fun c => not_cr c = true) (universal_newlines s).
Proof.
  induction s as [|c t IH]; [constructor|].
  cbn [universal_newlines]. destruct (ascii_eqb c "013") eqn:Ec.
  - destruct t as [|d u]; [repeat constructor|].
    destruct (ascii_eqb d "010"); [exact IH|].
    constructor; [reflexivity|exact IH].
  - constructor; [|exact IH]. unfold not_cr. rewrite Ec. reflexivity.
Qed.

Lemma universal_newlines_id s :
  Forall (fun c => not_cr c = true) s -> universal_newlines s = s.
Proof.
  induction 1 as [|c t Hc Ht IH]; [reflexivity|].
  cbn [universal_newlines]. unfold not_cr in Hc. apply negb_true_iff in Hc.
  rewrite Hc, IH. reflexivity.
Qed.

Lemma replaces_Forall (P : ascii -> Prop) p r s o :
  replaces p r s o -> Forall P r -> Forall P s -> Forall P o.
Proof.
  intros H Hr. induction H as [|c s o Hc H IH|m s o Hm H IH]; intros Hs.
  - constructor.
  - apply Forall_cons in Hs as [Hc' Hs]. constructor; [exact Hc'|apply IH; exact Hs].
  - apply Forall_app in Hs as [_ Hs]. apply Forall_app. split; [exact Hr|apply IH; exact Hs].
Qed.

Lemma version_char_not_cr c : is_version_char c = true -> not_cr c = true.
Proof.
  intros H. unfold not_cr. apply negb_true_iff.
  destruct (ascii_eqb c "013") eqn:E; [|reflexivity].
  apply ascii_eqb_eq in E. subst c. discriminate.
Qed.

Lemma ver_repl_no_cr new :
  Forall (fun c => is_version_char c = true) (chars new) ->
  Forall (fun c => not_cr c = true) (ver_repl new).
Proof.
  intros H. unfold ver_repl. apply Forall_app. split; [|apply Forall_app; split].
  - apply Forall_forall. intros c Hc. apply list_elem_of_In in Hc.
    eapply (forallb_In not_cr); [|exact Hc]. reflexivity.
  - eapply Forall_impl; [exact H|]. apply version_char_not_cr.
  - repeat constructor.
Qed.

Lemma url_repl_no_cr new :
  Forall (fun c => is_version_char c = true) (chars new) ->
  Forall (fun c => not_cr c = true) (url_repl new).
Proof.
  intros H. unfold url_repl. apply Forall_app. split; [|apply Forall_app; split].
  - apply Forall_forall. intros c Hc. apply list_elem_of_In in Hc.
    eapply (forallb_In not_cr); [|exact Hc]. reflexivity.
  - eapply Forall_impl; [exact H|]. apply version_char_not_cr.
  - apply Forall_forall. intros c Hc. apply list_elem_of_In in Hc.
    eapply (forallb_In not_cr); [|exact Hc]. reflexivity.
Qed.

(** The substitution brings no CR into a text that has none. *)
Lemma substitute_no_cr new s :
  Forall (fun c => is_version_char c = true) (chars new) ->
  Forall (fun c => not_cr c = true) s ->
  Forall (fun c => not_cr c = true) (substitute new s).
Proof.
  intros Hn Hs. unfold substitute.
  eapply replaces_Forall;
    [apply (sub_replaces _ _ url_spec url_nonempty); apply instantiate_plain
    |apply url_repl_no_cr; exact Hn|].
  eapply replaces_Forall;
    [apply (sub_replaces _ _ ver_spec ver_nonempty); apply instantiate_plain
    |apply ver_repl_no_cr; exact Hn|exact Hs].
Qed.

End FormulaVersionFacts.

(** X3. [update_homebrew_formula_version] never raises and starts no
    program; no path other than the local formula changes. A formula that
    is a regular file is read as text (decoded by the codec of the locale,
    CR LF and CR turned into LF) and rewritten with the encoded result of
    the version/URL substitution for [new_version], or left empty when the
    codec refuses that result; when the formula is missing, is a
    directory, cannot be decoded, or the substitution is rejected, no file
    changes. *)
Theorem update_homebrew_formula_version_contained (env : Env) (w : World) :
  let r := update_homebrew_formula_version env w in
  let path := local_formula_path env in
  r.1 = Ok tt
  /\ calls r.2 = calls w
  /\ cwd r.2 = cwd w
  /\ frame w r.2
  /\ (forall p, p <> path -> fs r.2 !! p = fs w !! p)
  /\ match fs w !! path with
     | Some (File content) =>
         match decode env content with
         | Some decoded =>
             match formula_substitution (fmt (new_version w))
                     (Text.text (Text.universal_newlines (Text.chars decoded))) with
             | Some updated =>
                 fs r.2 = <[path := File (default "" (encode env updated))]> (fs w)
             | None => fs r.2 = fs w
             end
         | None => fs r.2 = fs w
         end
     | _ => fs r.2 = fs w
     end.
Proof.
  intros r path. exact (FormulaVersionFacts.update_homebrew_formula_version_wp env w).
Qed.

(** C8 (as amended). For a formula file that the codec of the locale
    decodes and a new version produced by [calculate_new_version],
    [update_homebrew_formula_version] works on the text it read, in which
    CR LF and CR have become LF: scanning from the left, it replaces the
    pieces matched by the version-line pattern, then those matched by the
    download-URL pattern, and copies in place every character at which no
    match starts. The substitution is idempotent: applied to its own
    result it returns that result, and a second run of the step on the
    file it wrote, when the codec reads back what it wrote, leaves every
    file as it is. *)
Theorem formula_version_update_idempotent (env : Env) (w : World) (v : Z * Z * Z)
  (content decoded : string) :
  fs w !! local_formula_path env = Some (File content) ->
  new_version w = Some (Version.format_version v) ->
  decode env content = Some decoded ->
  let new := Version.format_version v in
  let read := Text.text (Text.universal_newlines (Text.chars decoded)) in
  let r := update_homebrew_formula_version env w in
  exists mid out,
    ReSpec.replaces Re.version_pattern
      (Text.chars ("version " +:+ Text.dq +:+ new +:+ Text.dq))
      (Text.chars read) mid
    /\ ReSpec.replaces Re.url_pattern
         (Text.chars ("url " +:+ Text.dq
                        +:+ "https://github.com/barnuri/win-dock/releases/download/v"
                        +:+ new +:+ "/WinDock.zip" +:+ Text.dq))
         mid (Text.chars out)
    /\ formula_substitution new read = Some out
    /\ formula_substitution new out = Some out
    /\ r.1 = Ok tt
    /\ fs r.2 = <[local_formula_path env := File (default "" (encode env out))]> (fs w)
    /\ (forall data,
          encode env out = Some data -> decode env data = Some out ->
          let again := update_homebrew_formula_version env r.2 in
          again.1 = Ok tt /\ fs again.2 = fs r.2).
Proof.
  intros Hfile Hnew Hdec new read r.
  pose proof (FormulaFacts.format_version_chars v) as Hn.
  pose proof (FormulaFacts.format_version_nonempty v) as Hne.
  fold new in Hn, Hne.
  set (mid := ReFacts.sub Re.version_pattern (map Re.Ch (FormulaFacts.ver_repl new))
                (Text.chars read)).
  set (out := Text.text (FormulaFacts.substitute new (Text.chars read))).
  assert (Hsub : formula_substitution new read = Some out).
  { apply FormulaFacts.formula_substitution_eq. exact Hn. }
  assert (Hidem : formula_substitution new out = Some out).
  { rewrite FormulaFacts.formula_substitution_eq by exact Hn.
    subst out. rewrite TextFacts.chars_text. f_equal. f_equal.
    unfold FormulaFacts.substitute.
    destruct (ReFacts.sub_twice (Text.chars new) Hne Hn (Text.chars read)) as [H1 H2].
    unfold FormulaFacts.ver_repl, FormulaFacts.url_repl. rewrite H1. exact H2. }
  pose proof (FormulaVersionFacts.update_homebrew_formula_version_wp env w) as Hrun.
  unfold wp in Hrun. fold r in Hrun.
  rewrite Hfile, Hdec, Hnew in Hrun. cbn [fmt default from_option id] in Hrun.
  fold new read in Hrun. rewrite Hsub in Hrun.
  destruct Hrun as (Hok & _ & _ & Hframe & _ & Hfs).
  exists mid, out.
  rewrite FormulaFacts.ver_repl_chars, FormulaFacts.url_repl_chars.
  split; [|split; [|split; [exact Hsub|split; [exact Hidem|split;
                                                  [exact Hok|split; [exact Hfs|]]]]]].
  - apply (ReFacts.sub_replaces _ _ ReFacts.ver_spec ReFacts.ver_nonempty).
    apply ReFacts.instantiate_plain.
  - subst out. rewrite TextFacts.chars_text.
    apply (ReFacts.sub_replaces _ _ ReFacts.url_spec ReFacts.url_nonempty).
    apply ReFacts.instantiate_plain.
  - intros data Henc Hback again.
    pose proof (FormulaVersionFacts.update_homebrew_formula_version_wp env r.2) as Hrun.
    unfold wp in Hrun. fold again in Hrun.
    assert (Hfile2 : fs r.2 !! local_formula_path env = Some (File data)).
    { rewrite Hfs, Henc. apply lookup_insert_eq. }
    assert (Hnew2 : new_version r.2 = Some new).
    { destruct Hframe as (_ & _ & _ & ->). exact Hnew. }
    assert (Hread : Text.text (Text.universal_newlines (Text.chars out)) = out).
    { rewrite FormulaVersionFacts.universal_newlines_id; [apply TextFacts.text_chars|].
      subst out. rewrite TextFacts.chars_text.
      apply FormulaVersionFacts.substitute_no_cr; [exact Hn|].
      subst read. rewrite TextFacts.chars_text.
      apply FormulaVersionFacts.universal_newlines_no_cr. }
    rewrite Hfile2, Hback, Hnew2 in Hrun. cbn [fmt default from_option id] in Hrun.
    rewrite Hread, Hidem, Henc in Hrun. cbn [default from_option id] in Hrun.
    destruct Hrun as (Hok2 & _ & _ & _ & _ & Hfs2).
    split; [exact Hok2|]. rewrite Hfs2. apply insert_id. exact Hfile2.
Qed.

Lemma formula_version_update_idempotent_witness :
  let env := Demo.env Demo.nothing true in
  let r := update_homebrew_formula_version env (Demo.formula_world Demo.pinned_formula) in
  r.1 = Ok tt
  /\ fs r.2 !! Demo.local_formula
     = Some (File ("  version " +:+ Text.dq +:+ "1.2.4" +:+ Text.dq +:+ nl
                   +:+ "  sha256 " +:+ Text.dq +:+ Demo.old_digest +:+ Text.dq +:+ nl))
  /\ fs (update_homebrew_formula_version env r.2).2 = fs r.2.
Proof.
  intros env r.
  destruct (formula_version_update_idempotent env
              (Demo.formula_world Demo.pinned_formula) (1, 2, 4)
              Demo.pinned_formula Demo.pinned_formula eq_refl eq_refl eq_refl)
    as (mid & out & _ & _ & Hsub & _ & Hok & Hfs & Hagain).
  vm_compute in Hsub. injection Hsub as <-.
  fold env r in Hok, Hfs, Hagain.
  split; [exact Hok|]. split; [rewrite Hfs; reflexivity|].
  apply (Hagain _ eq_refl). reflexivity.
Defined.

(** C8 (as stated) fails on a formula whose lines end with CR LF: the
    first line holds no match of either pattern, at any position, and the
    step still rewrites it, its CR LF becoming LF. *)
Lemma formula_update_rewrites_line_ends :
  let env := Demo.env Demo.nothing true in
  let w := Demo.formula_world Demo.crlf_formula in
  let r := update_homebrew_formula_version env w in
  let first_line := "# WinDock" +:+ Demo.cr +:+ nl in
  r.1 = Ok tt
  /\ fs w !! Demo.local_formula
     = Some (File (first_line
                   +:+ "  version " +:+ Text.dq +:+ "1.2.3" +:+ Text.dq +:+ Demo.cr +:+ nl))
  /\ fs r.2 !! Demo.local_formula
     = Some (File ("# WinDock" +:+ nl
                   +:+ "  version " +:+ Text.dq +:+ "1.2.4" +:+ Text.dq +:+ nl))
  /\ forallb
       (fun s =>
          match Re.match_here Re.version_pattern s, Re.match_here Re.url_pattern s with
          | None, None => true
          | _, _ => false
          end)
       (take (length (Text.chars first_line))
          (ReSpec.suffixes (Text.chars Demo.crlf_formula))) = true.
Proof.
  vm_compute. repeat split.
Qed.

(** X22. The version/URL substitution on texts. For every text and every
    new version produced by [calculate_new_version] the substitution succeeds
    and is idempotent: applied to its own result it returns that result.
    It changes the text only by replacing, in a scan from the left, the
    pieces matched by the version-line pattern, then those matched by the
    download-URL pattern; every character at which no match starts is
    copied in place. *)
Theorem formula_substitution_idempotent (v : Z * Z * Z) (content : string) :
  let new := Version.format_version v in
  exists mid out,
    formula_substitution new content = Some out
    /\ formula_substitution new out = Some out
    /\ ReSpec.replaces Re.version_pattern
         (Text.chars ("version " +:+ Text.dq +:+ new +:+ Text.dq))
         (Text.chars content) mid
    /\ ReSpec.replaces Re.url_pattern
         (Text.chars ("url " +:+ Text.dq
                        +:+ "https://github.com/barnuri/win-dock/releases/download/v"
                        +:+ new +:+ "/WinDock.zip" +:+ Text.dq))
         mid (Text.chars out).
Proof.
  intros new.
  pose proof (FormulaFacts.format_version_chars v) as Hn.
  pose proof (FormulaFacts.format_version_nonempty v) as Hne.
  fold new in Hn, Hne.
  set (mid := ReFacts.sub Re.version_pattern (map Re.Ch (FormulaFacts.ver_repl new))
                (Text.chars content)).
  exists mid, (Text.text (FormulaFacts.substitute new (Text.chars content))).
  rewrite !FormulaFacts.formula_substitution_eq by exact Hn.
  rewrite TextFacts.chars_text.
  rewrite FormulaFacts.ver_repl_chars, FormulaFacts.url_repl_chars.
  split; [reflexivity|]. split; [|split].
  - f_equal. f_equal. unfold FormulaFacts.substitute.
    destruct (ReFacts.sub_twice (Text.chars new) Hne Hn (Text.chars content)) as [H1 H2].
    unfold FormulaFacts.ver_repl, FormulaFacts.url_repl. rewrite H1. exact H2.
  - apply (ReFacts.sub_replaces _ _ ReFacts.ver_spec ReFacts.ver_nonempty).
    apply ReFacts.instantiate_plain.
  - apply (ReFacts.sub_replaces _ _ ReFacts.url_spec ReFacts.url_nonempty).
    apply ReFacts.instantiate_plain.
Qed.

(** X4. [cleanup] returns normally, starts no program and removes the
    release-notes path, be it a regular file or a directory with all it
    contains; every path that is neither the notes path nor below it is
    left as it was. *)
Theorem cleanup_removes_notes (env : Env) (w : World) :
  let r := cleanup env w in
  let notes := release_notes_path env in
  r.1 = Ok tt
  /\ fs r.2 !! notes = None
  /\ (forall p, p <> notes -> below notes p = false -> fs r.2 !! p = fs w !! p)
  /\ (fs w !! notes = Some Dir -> forall p, below notes p = true -> fs r.2 !! p = None)
  /\ calls r.2 = calls w
  /\ cwd r.2 = cwd w
  /\ console r.2 = console w ++ ["🧹 Cleaning up..."; "✅ Cleanup completed"].
Proof.
  intros r notes. subst r notes.
  change (wp (cleanup env)
            (fun o w' =>
               o = Ok tt
               /\ fs w' !! release_notes_path env = None
               /\ (forall p, p <> release_notes_path env ->
                             below (release_notes_path env) p = false ->
                             fs w' !! p = fs w !! p)
               /\ (fs w !! release_notes_path env = Some Dir ->
                   forall p, below (release_notes_path env) p = true -> fs w' !! p = None)
               /\ calls w' = calls w /\ cwd w' = cwd w
               /\ console w' = console w ++ ["🧹 Cleaning up..."; "✅ Cleanup completed"]) w).
  destruct w as [f0 d0 co ca cv nv tn rn dr od].
  unfold cleanup.
  destruct (f0 !! release_notes_path env) as [[content|]|] eqn:Ef;
    wp_all; frame_leaf; rewrite <- ?app_assoc; try reflexivity.
  - apply lookup_delete_eq.
  - intros p Hp _. apply lookup_delete_ne. congruence.
  - rewrite SoundFacts.lookup_rmtree. rewrite decide_True by reflexivity. reflexivity.
  - intros p Hp Hb. rewrite SoundFacts.lookup_rmtree.
    rewrite decide_False by exact Hp. rewrite Hb. reflexivity.
  - intros _ p Hb. rewrite SoundFacts.lookup_rmtree.
    destruct (decide (p = release_notes_path env)); [reflexivity|].
    rewrite Hb. reflexivity.
Qed.

(** ** Reading and bumping the version *)

Module IntFacts.
Import Text TextFacts Version.

Lemma parse_digits_bad s : forall acc seen ch,
  In ch s -> is_digit ch = false -> ascii_eqb ch "_" = false ->
  parse_digits acc seen s = None.
Proof.
  induction s as [|c t IH]; intros acc seen ch Hin Hd Hu; [destruct Hin|].
  simpl. destruct Hin as [->|Hin].
  - rewrite Hd, Hu. reflexivity.
  - destruct (is_digit c); [eapply IH; eassumption|].
    destruct (ascii_eqb c "_" && seen); [eapply IH; eassumption|reflexivity].
Qed.

Lemma skip_c_space_In s ch :
  In ch s -> is_c_space ch = false -> In ch (skip_c_space s).
Proof.
  induction s as [|c t IH]; intros Hin Hs; [destruct Hin|].
  simpl. destruct (is_c_space c) eqn:Ec.
  - destruct Hin as [->|Hin]; [congruence|]. apply IH; assumption.
  - exact Hin.
Qed.

Lemma trim_c_space_In s ch :
  In ch s -> is_c_space ch = false -> In ch (trim_c_space s).
Proof.
  intros Hin Hs. unfold trim_c_space.
  apply in_rev. rewrite rev_involutive.
  apply skip_c_space_In; [|exact Hs]. apply in_rev. rewrite rev_involutive.
  apply skip_c_space_In; assumption.
Qed.

(** An ASCII character of a text stays in its integer literal. *)
Lemma to_ascii_fuel_In ch : forall fuel s lit,
  to_ascii_fuel fuel s = Some lit -> In ch s -> is_ascii ch = true -> In ch lit.
Proof.
  induction fuel as [|fuel IH]; intros s lit H Hin Ha.
  { destruct s; [destruct Hin|discriminate]. }
  destruct s as [|c t]; [destruct Hin|].
  cbn [to_ascii_fuel] in H. destruct (is_ascii c) eqn:Ec.
  - destruct (to_ascii_fuel fuel t) as [r|] eqn:Er; [|discriminate].
    injection H as <-. destruct Hin as [->|Hin]; [left; reflexivity|].
    right. eapply IH; eassumption.
  - destruct (utf8_front (c :: t)) as [[cp k]|] eqn:Ef; [|discriminate].
    apply ReFacts.utf8_front_shape in Ef as (chb & t' & E & Hlen & Hne & _ & Hch).
    assert (Hd : drop k (c :: t) = t').
    { rewrite E, <- Hlen. apply drop_app_length. }
    rewrite Hd in H.
    assert (Hin' : In ch t').
    { rewrite E in Hin. apply in_app_or in Hin as [Hin|Hin]; [|exact Hin].
      exfalso. destruct Hch as [(c' & -> & Hc' & _)|Hall].
      - injection E as <- _. congruence.
      - apply list_elem_of_In in Hin.
        apply (proj1 (Forall_forall _ _) Hall) in Hin. congruence. }
    destruct (is_unicode_space cp).
    + destruct (to_ascii_fuel fuel t') as [r|] eqn:Er; [|discriminate].
      injection H as <-. right. eapply IH; eassumption.
    + destruct (decimal_value cp) as [d|]; [|discriminate].
      destruct (to_ascii_fuel fuel t') as [r|] eqn:Er; [|discriminate].
      injection H as <-. right. eapply IH; eassumption.
Qed.

Lemma py_int_bad s ch : In ch s -> is_int_char ch = false -> py_int s = None.
Proof.
  unfold is_int_char. intros Hin Hbad.
  repeat (apply orb_false_iff in Hbad as [Hbad ?]).
  assert (Ha : is_ascii ch = true) by (apply negb_false_iff; assumption).
  unfold py_int, to_ascii.
  destruct (to_ascii_fuel (length s) s) as [lit|] eqn:El; [|reflexivity].
  cbn [mbind option_bind].
  pose proof (to_ascii_fuel_In ch _ _ _ El Hin Ha) as Hlit.
  pose proof (trim_c_space_In lit ch Hlit ltac:(assumption)) as Hs.
  destruct (trim_c_space lit) as [|c t]; [reflexivity|].
  assert (Ht : forall x, ascii_eqb c x = true -> ascii_eqb ch x = false -> In ch t).
  { intros x Hc Hx. destruct Hs as [->|Hs]; [congruence|exact Hs]. }
  destruct (ascii_eqb c "-") eqn:Em.
  { rewrite (parse_digits_bad t 0%N false ch); [reflexivity| |assumption|assumption].
    eapply Ht; eassumption. }
  destruct (ascii_eqb c "+") eqn:Ep.
  { rewrite (parse_digits_bad t 0%N false ch); [reflexivity| |assumption|assumption].
    eapply Ht; eassumption. }
  rewrite (parse_digits_bad (c :: t) 0%N false ch); [reflexivity|..]; assumption.
Qed.

Lemma parse_version_bad cur (i : nat) part ch :
  split_char "." (chars cur) !! i = Some part -> (i < 3)%nat ->
  In ch part -> is_int_char ch = false ->
  parse_version cur = None.
Proof.
  intros Hp Hi Hin Hbad. pose proof (py_int_bad part ch Hin Hbad) as Hint.
  unfold parse_version, component.
  destruct i as [|[|[|i]]]; [| | |lia].
  - rewrite <- head_lookup in Hp. rewrite Hp. unfold default. cbn [from_option id]. rewrite Hint. reflexivity.
  - rewrite Hp, Hint. clear Hint.
    destruct (py_int (default [] (head (split_char "." (chars cur))))); reflexivity.
  - rewrite Hp, Hint. clear Hint.
    destruct (py_int (default [] (head (split_char "." (chars cur)))));
      [|reflexivity]. cbn.
    destruct (split_char "." (chars cur) !! 1%nat) as [p|]; [|reflexivity].
    destruct (py_int p); reflexivity.
Qed.

Lemma calculate_new_version_run version_type w :
  calculate_new_version version_type w
  = match current_version w with
    | None =>
        (Raise (RuntimeError ("❌ Error calculating new version: "
                  +:+ "'NoneType' object has no attribute 'split'")), w)
    | Some cur =>
        match parse_version cur with
        | None =>
            (Raise (RuntimeError ("❌ Error calculating new version: "
                      +:+ "invalid literal for int() with base 10")), w)
        | Some v =>
            let new := format_version (bump version_type v) in
            (Ok tt,
             set_console (console w ++ ["📈 New version: " +:+ new])
               (set_tag_name (Some ("v" +:+ new)) (set_new_version (Some new) w)))
        end
    end.
Proof.
  unfold calculate_new_version, try_catch, bind, get, or_raise, ret, raise, modify, print.
  destruct (current_version w) as [cur|]; [|reflexivity].
  destruct (parse_version cur) as [v|]; reflexivity.
Qed.

Lemma parse_version_one a :
  parse_version (text (str_of_Z a)) = Some (a, 0, 0).
Proof.
  unfold parse_version. rewrite chars_text.
  rewrite split_char_whole by apply str_of_Z_nodot.
  unfold component. simpl. rewrite py_int_str_of_Z. reflexivity.
Qed.

Lemma parse_version_two a b :
  parse_version (text (str_of_Z a) +:+ "." +:+ text (str_of_Z b)) = Some (a, b, 0).
Proof.
  unfold parse_version. rewrite !chars_app, !chars_text.
  change (chars ".") with ["."%char]. cbn [app].
  rewrite split_char_app by apply str_of_Z_nodot.
  rewrite split_char_whole by apply str_of_Z_nodot.
  unfold component. simpl. rewrite !py_int_str_of_Z. reflexivity.
Qed.

Lemma parse_version_more v rest :
  parse_version (format_version v +:+ "." +:+ rest) = Some v.
Proof.
  destruct v as [[a b] c]. unfold parse_version, format_version.
  rewrite !chars_app, chars_text.
  change (chars ".") with ["."%char]. cbn [app].
  rewrite <- !app_assoc. cbn [app]. rewrite <- !app_assoc. cbn [app].
  rewrite split_char_app by apply str_of_Z_nodot.
  rewrite split_char_app by apply str_of_Z_nodot.
  rewrite split_char_app by apply str_of_Z_nodot.
  unfold component. simpl. rewrite !py_int_str_of_Z. reflexivity.
Qed.

End IntFacts.

(** X5. A current version whose major, minor or patch field holds an
    ASCII character that no integer literal can hold (a letter, a control
    character, ...: any ASCII character but the digits, the blanks TAB,
    LF, VT, FF, CR and space, the two signs and the underscore) is
    rejected: [calculate_new_version] raises its [RuntimeError] and leaves
    [new_version], [tag_name] and everything else as they were. Nothing
    is said of characters beyond ASCII: [int] reads the decimal digits and
    the white space of every script. *)
Theorem calculate_new_version_rejects (w : World) (version_type cur : string)
  (i : nat) (part : list ascii) (ch : ascii) :
  current_version w = Some cur ->
  Text.split_char "." (Text.chars cur) !! i = Some part ->
  (i < 3)%nat ->
  In ch part ->
  is_int_char ch = false ->
  calculate_new_version version_type w
  = (Raise (RuntimeError ("❌ Error calculating new version: "
              +:+ "invalid literal for int() with base 10")), w).
Proof.
  intros Hcur Hp Hi Hin Hbad.
  rewrite IntFacts.calculate_new_version_run, Hcur.
  rewrite (IntFacts.parse_version_bad cur i part ch Hp Hi Hin Hbad). reflexivity.
Qed.

(** The pre-release version [1.2.3-beta] is rejected. *)
Lemma calculate_new_version_rejects_witness :
  let w := set_current_version (Some "1.2.3-beta") (Demo.world Demo.files false) in
  calculate_new_version "patch" w
  = (Raise (RuntimeError ("❌ Error calculating new version: "
              +:+ "invalid literal for int() with base 10")), w).
Proof.
  intros w.
  apply (calculate_new_version_rejects w "patch" "1.2.3-beta" 2
           (Text.chars "3-beta") "b"%char).
  - reflexivity.
  - reflexivity.
  - lia.
  - simpl. tauto.
  - reflexivity.
Defined.

(** X6. [calculate_new_version] reads the first three dot-separated
    fields of the current version: a missing minor or patch field counts
    as 0, and a fourth or later field is ignored. The new version always
    has three fields, and the tag is ["v"] followed by it. *)
Theorem calculate_new_version_fields (w : World) (k : Version.BumpKind)
  (a b c : Z) (rest : string) :
  let kind := Version.kind_name k in
  let str z := Text.text (Text.str_of_Z z) in
  let done v :=
    (Ok tt, Some (Version.format_version (Version.bump kind v)),
     Some ("v" +:+ Version.format_version (Version.bump kind v))) in
  version_result kind (str a) w = done (a, 0, 0)
  /\ version_result kind (str a +:+ "." +:+ str b) w = done (a, b, 0)
  /\ version_result kind (Version.format_version (a, b, c)) w = done (a, b, c)
  /\ version_result kind (Version.format_version (a, b, c) +:+ "." +:+ rest) w
     = done (a, b, c).
Proof.
  intros kind str done. subst str done. unfold version_result. cbv beta.
  rewrite !IntFacts.calculate_new_version_run.
  cbn [current_version set_current_version].
  rewrite IntFacts.parse_version_one, IntFacts.parse_version_two,
    VersionFacts.parse_format_version, IntFacts.parse_version_more.
  repeat split.
Qed.

(** X7. Called with a bump type other than ["major"], ["minor"] and
    ["patch"] (the command line refuses them, [run] does not), on a
    current version whose fields read as the integers major, minor and
    patch, [calculate_new_version] succeeds without bumping: the new
    version is these three integers written as [major.minor.patch] (the
    current version [1.0] gives [1.0.0]) and the tag is ["v"] followed by
    it. *)
Theorem calculate_new_version_unknown_kind (w : World) (version_type cur : string)
  (v : Z * Z * Z) :
  version_type <> "major" -> version_type <> "minor" -> version_type <> "patch" ->
  current_version w = Some cur ->
  Version.parse_version cur = Some v ->
  let r := calculate_new_version version_type w in
  r.1 = Ok tt
  /\ new_version r.2 = Some (Version.format_version v)
  /\ tag_name r.2 = Some ("v" +:+ Version.format_version v)
  /\ console r.2 = console w ++ ["📈 New version: " +:+ Version.format_version v].
Proof.
  intros H1 H2 H3 Hcur Hparse r. subst r.
  rewrite IntFacts.calculate_new_version_run, Hcur, Hparse.
  assert (Hb : Version.bump version_type v = v).
  { unfold Version.bump. destruct v as [[a b] c].
    apply String.eqb_neq in H1, H2, H3. rewrite H1, H2, H3. reflexivity. }
  cbv zeta. rewrite Hb. cbn. repeat split.
Qed.

(** The bump type [build] turns 1.0 into 1.0.0. *)
Lemma calculate_new_version_unknown_kind_witness :
  let w := set_current_version (Some "1.0") (Demo.world Demo.files false) in
  let r := calculate_new_version "build" w in
  r.1 = Ok tt /\ new_version r.2 = Some "1.0.0" /\ tag_name r.2 = Some "v1.0.0".
Proof.
  intros w r.
  destruct (calculate_new_version_unknown_kind w "build" "1.0" (1, 0, 0))
    as (H1 & H2 & H3 & _);
    [discriminate | discriminate | discriminate | reflexivity | reflexivity |].
  repeat split; assumption.
Defined.

(** ** The metadata file *)

Module PlistFacts.
Import BuildFacts.

Lemma get_current_version_run (env : Env) (w : World) :
  let r := get_current_version env w in
  fs r.2 = fs w /\ calls r.2 = calls w /\ cwd r.2 = cwd w
  /\ match fs w !! info_plist_path env with
     | Some (File data) =>
         match plist_load env data with
         | Some plist_data =>
             r.1 = Ok tt
             /\ current_version r.2
                = Some (default "1.0.0" (plist_data !! "CFBundleShortVersionString"))
         | None => exists msg, r = (Raise (RuntimeError msg), w)
         end
     | _ => exists msg, r = (Raise (RuntimeError msg), w)
     end.
Proof.
  intros r. subst r.
  unfold get_current_version, try_catch, bind, read_file, or_raise, ret, raise,
    modify, print.
  destruct (fs w !! info_plist_path env) as [[data|]|]; cbn.
  - destruct (plist_load env data) as [plist_data|]; cbn.
    + destruct (plist_data !! "CFBundleShortVersionString"); cbn; repeat split.
    + repeat split. eexists. reflexivity.
  - repeat split. eexists. reflexivity.
  - repeat split. eexists. reflexivity.
Qed.

Lemma plist_not_formula env : info_plist_path env <> local_formula_path env.
Proof. apply append_clash. reflexivity. Qed.

End PlistFacts.

(** X8. [get_current_version] only reads: files, external calls and
    working directory stay as they were. It succeeds exactly when the
    metadata file is a regular file that parses as a property list; the
    current version is then the value of [CFBundleShortVersionString],
    or ["1.0.0"] when that key is missing. Every failure is a
    [RuntimeError] that leaves the whole state unchanged. *)
Theorem get_current_version_outcome (env : Env) (w : World) :
  let r := get_current_version env w in
  fs r.2 = fs w /\ calls r.2 = calls w /\ cwd r.2 = cwd w
  /\ match fs w !! info_plist_path env with
     | Some (File data) =>
         match plist_load env data with
         | Some plist_data =>
             r.1 = Ok tt
             /\ current_version r.2
                = Some (default "1.0.0" (plist_data !! "CFBundleShortVersionString"))
         | None => exists msg, r = (Raise (RuntimeError msg), w)
         end
     | _ => exists msg, r = (Raise (RuntimeError msg), w)
     end.
Proof. exact (PlistFacts.get_current_version_run env w). Qed.

(** X9. Writing then reading the version. Outside a dry run, with a new
    version set and a metadata file that parses,
    [update_version_in_plist] leaves in the metadata file what
    [plistlib.dump] wrote for the property list with both
    [CFBundleShortVersionString] and [CFBundleVersion] set to the new
    version (the update of the formula does not touch the metadata
    file). If the dump raised, the step fails with a [RuntimeError]. If
    it completed, the step succeeds; and if what it wrote parses back
    with the short version string it was given, [get_current_version]
    then reads the new version. *)
Theorem plist_version_round_trip (env : Env) (w : World) (data v : string)
  (plist_data : gmap string string) :
  dry_run w = false ->
  new_version w = Some v ->
  fs w !! info_plist_path env = Some (File data) ->
  plist_load env data = Some plist_data ->
  let dumped :=
    plist_dump env
      (<["CFBundleVersion" := v]> (<["CFBundleShortVersionString" := v]> plist_data)) in
  let r := update_version_in_plist env w in
  fs r.2 !! info_plist_path env = Some (File dumped.1)
  /\ match dumped.2 with
     | Some e =>
         r.1 = Raise (RuntimeError ("❌ Error updating Info.plist: " +:+ exn_str e))
     | None =>
         r.1 = Ok tt
         /\ forall written,
              plist_load env dumped.1 = Some written ->
              written !! "CFBundleShortVersionString" = Some v ->
              let r' := get_current_version env r.2 in
              r'.1 = Ok tt /\ current_version r'.2 = Some v
     end.
Proof.
  intros Hdry Hnew Hfile Hload dumped r. subst dumped.
  assert (Hr : wp (update_version_in_plist env)
                 (fun o w' =>
                    forall bytes failure,
                      plist_dump env
                        (<["CFBundleVersion" := v]>
                           (<["CFBundleShortVersionString" := v]> plist_data))
                      = (bytes, failure) ->
                      fs w' !! info_plist_path env = Some (File bytes)
                      /\ match failure with
                         | Some e =>
                             o = Raise (RuntimeError
                                          ("❌ Error updating Info.plist: "
                                             +:+ exn_str e))
                         | None => o = Ok tt
                         end) w).
  { destruct w as [f0 d0 co ca cv nv tn rn dr od]. cbn in Hdry, Hnew, Hfile.
    subst dr nv. unfold update_version_in_plist. cbv zeta. wp_all.
    - intros bytes failure Ed. rewrite Ed in *. cbn [fst snd] in *. subst failure.
      split; reflexivity.
    - eapply Rules.wp_conseq.
      { apply FormulaVersionFacts.update_homebrew_formula_version_wp. }
      intros o w' (Ho & _ & _ & _ & Hother & _). subst o.
      intros bytes failure Ed. rewrite Ed in *. cbn [fst snd] in *. subst failure.
      split; [|reflexivity].
      rewrite Hother by apply PlistFacts.plist_not_formula.
      cbn. apply lookup_insert_eq. }
  unfold wp in Hr. fold r in Hr.
  destruct (plist_dump env
              (<["CFBundleVersion" := v]>
                 (<["CFBundleShortVersionString" := v]> plist_data)))
    as [bytes failure].
  destruct (Hr bytes failure eq_refl) as [Hplist Hout]. cbn [fst snd].
  split; [exact Hplist|].
  destruct failure as [e|]; [exact Hout|]. split; [exact Hout|].
  intros written Hback Hv.
  pose proof (PlistFacts.get_current_version_run env r.2) as H. cbv zeta in H.
  destruct H as (_ & _ & _ & H). rewrite Hplist, Hback, Hv in H. exact H.
Qed.

(** The sample project, released as 1.2.4. *)
Lemma plist_version_round_trip_witness :
  let env := Demo.env Demo.nothing true in
  let w := set_new_version (Some "1.2.4") (Demo.world Demo.files false) in
  (update_version_in_plist env w).1 = Ok tt
  /\ current_version (get_current_version env (update_version_in_plist env w).2).2
     = Some "1.2.4".
Proof.
  intros env w.
  pose proof (plist_version_round_trip env w "1.2.3" "1.2.4"
                {[ "CFBundleShortVersionString" := "1.2.3" ]}
                eq_refl eq_refl eq_refl eq_refl) as T.
  cbv zeta in T. destruct T as (_ & H1 & H2).
  split; [exact H1|].
  apply (H2 {[ "CFBundleShortVersionString" := "1.2.4" ]}).
  - reflexivity.
  - apply lookup_singleton_eq.
Defined.

(** ** The test script *)



(** ** Committing and tagging *)

Module GitFacts.

Lemma prefix_snoc {A} (l plan : list A) x :
  (l ++ [x]) `prefix_of` plan -> l `prefix_of` plan.
Proof. intros [k ->]. exists (x :: k). rewrite <- app_assoc. reflexivity. Qed.




End GitFacts.



Module CommitFacts.






End CommitFacts.



(** ** The GitHub release *)

Module ReleaseFacts.

Ltac continues_leaf :=
  unfold continues; wflat;
  (split; [first [ symmetry; apply app_nil_r
                 | try rewrite <- !app_assoc; reflexivity ]|]);
  repeat (split; [reflexivity|]);
  first [ apply FrameFacts.extends_refl
        | rewrite <- ?app_assoc; apply FrameFacts.extends_app ].

Lemma continues_trans w0 w1 w2 d1 d2 :
  continues w0 d1 w1 -> continues w1 d2 w2 -> continues w0 (d1 ++ d2) w2.
Proof.
  intros (Hc & H1 & H2 & H3 & H4 & H5 & H6 & H7 & He)
         (Hc' & H1' & H2' & H3' & H4' & H5' & H6' & H7' & He').
  split; [rewrite Hc', Hc, app_assoc; reflexivity|].
  repeat (split; [congruence|]).
  eapply FrameFacts.extends_trans; eassumption.
Qed.

Lemma gh_release_wp env tag w :
  wp (gh_release env tag)
    (fun o w' =>
       (o = Ok tt \/ o = Raise (FileNotFoundError "gh"))
       /\ exists done,
            continues w done w' /\ forallb gh_release_call done = true) w.
Proof.
  destruct w as [f0 d0 co ca cv nv tn rn dr od].
  unfold gh_release. wp_all;
    (split; [first [left; reflexivity | right; reflexivity]|]);
    eexists; (split; [continues_leaf|]); reflexivity.
Qed.

End ReleaseFacts.

Module GithubFacts.
Import ReleaseFacts.

Lemma gh_release_calls env dir done :
  forallb gh_release_call done = true -> Forall (github_release_call env dir) done.
Proof.
  induction done as [|c done IH]; intros H; [constructor|].
  cbn [forallb] in H. apply andb_true_iff in H as [Hc H].
  constructor; [right; right; exact Hc|apply IH, H].
Qed.

Ltac calls_leaf :=
  cbn [app];
  repeat (constructor;
          [first [ left; reflexivity | right; left; reflexivity
                 | right; right; reflexivity ]|]);
  constructor.

Lemma create_github_release_wp env w :
  wp (create_github_release env)
    (fun o w' =>
       match tag_name w with
       | Some _ => o = Ok tt \/ o = Raise (FileNotFoundError "gh")
       | None =>
           o = Ok tt
           \/ o = Raise (AttributeError
                           "'ReleaseManager' object has no attribute tag_name")
       end
       /\ exists done,
            continues w done w'
            /\ Forall (github_release_call env (cwd w)) done
            /\ (dry_run w = true -> done = [] /\ fs w' = fs w)) w.
Proof.
  destruct w as [f0 d0 co ca cv nv tn rn dr od].
  unfold create_github_release. destruct tn as [tag|]; wp_all.
  all: try (eapply Rules.wp_conseq; [apply gh_release_wp|];
            wflat; intros o w' [Ho (done & Hc & Hd)];
            split; [exact Ho|];
            eexists; split; [eapply continues_trans; [|exact Hc]; continues_leaf|];
            split; [|discriminate];
            apply Forall_app; split; [calls_leaf|apply gh_release_calls, Hd]).
  all: (split; [first [left; reflexivity | right; reflexivity]|]);
       eexists; (split; [continues_leaf|]);
       (split; [calls_leaf|first [discriminate | intros _; split; reflexivity]]).
Qed.

End GithubFacts.

(** X15. [create_github_release] with a tag name set returns normally
    unless [gh], found by the probe, cannot be started afterwards: a
    failing [gh release] command and a failing archive are reported as
    warnings. It starts nothing but the probe [gh --version], the
    packaging of the archive and [gh release] commands, and keeps the
    working directory and the attributes; in a dry run it makes no
    external call and changes no file. *)
Theorem create_github_release_outcome (env : Env) (w : World) :
  let r := create_github_release env w in
  match tag_name w with
  | Some _ => r.1 = Ok tt \/ r.1 = Raise (FileNotFoundError "gh")
  | None =>
      r.1 = Ok tt
      \/ r.1 = Raise (AttributeError "'ReleaseManager' object has no attribute tag_name")
  end
  /\ exists done,
       continues w done r.2
       /\ Forall (github_release_call env (cwd w)) done
       /\ (dry_run w = true -> done = [] /\ fs r.2 = fs w).
Proof. intros r. exact (GithubFacts.create_github_release_wp env w). Qed.

(** X16. Outside a dry run, with neither PyGithub nor a working [gh]
    (the probe cannot be started or exits non-zero),
    [create_github_release] returns normally after the probe alone: no
    archive is packaged, the script changes no file, and the four lines
    telling how to publish the release by hand are printed. *)
Theorem create_github_release_skipped (env : Env) (w : World) (tag : string) :
  dry_run w = false ->
  have_pygithub env = false ->
  tag_name w = Some tag ->
  let probe := run_process env (length (calls w)) ["gh"; "--version"] (cwd w) (fs w) in
  match probe.1 with Exited rc _ _ => rc <> 0 | LaunchFailed => True end ->
  let r := create_github_release env w in
  r.1 = Ok tt
  /\ calls r.2 = calls w ++ [gh_probe (cwd w)]
  /\ fs r.2 = match probe.1 with Exited _ _ _ => probe.2 | LaunchFailed => fs w end
  /\ cwd r.2 = cwd w
  /\ console r.2
     = console w
       ++ ["🌐 Creating GitHub release...";
           "⚠️ Neither GitHub CLI (gh) nor PyGithub found. Skipping GitHub release creation.";
           "To create the release manually, go to the repository's releases page";
           "and create a new release with tag '" +:+ tag +:+ "'."].
Proof.
  intros Hdry Hpy Htag probe Hprobe r. subst r probe.
  revert Hprobe.
  change (match (run_process env (length (calls w)) ["gh"; "--version"] (cwd w) (fs w)).1
          with Exited rc _ _ => rc <> 0 | LaunchFailed => True end ->
          wp (create_github_release env)
            (fun o w' =>
               o = Ok tt
               /\ calls w' = calls w ++ [gh_probe (cwd w)]
               /\ fs w' = match (run_process env (length (calls w)) ["gh"; "--version"]
                                   (cwd w) (fs w)).1 with
                          | Exited _ _ _ =>
                              (run_process env (length (calls w)) ["gh"; "--version"]
                                 (cwd w) (fs w)).2
                          | LaunchFailed => fs w
                          end
               /\ cwd w' = cwd w
               /\ console w'
                  = console w
                    ++ ["🌐 Creating GitHub release...";
                        "⚠️ Neither GitHub CLI (gh) nor PyGithub found. Skipping GitHub release creation.";
                        "To create the release manually, go to the repository's releases page";
                        "and create a new release with tag '" +:+ tag +:+ "'."]) w).
  destruct w as [f0 d0 co ca cv nv tn rn dr od]. cbn in Hdry, Htag. subst dr tn.
  wflat. intros Hprobe.
  unfold create_github_release. rewrite Hpy. wp_walk.
  apply Rules.wp_subprocess_run. wflat. intros r fs' E. rewrite E in *. wflat.
  destruct r as [rc out err|]; cbn [andb].
  - cbn [fst] in Hprobe. destruct (Z.eqb_spec rc 0) as [->|Hrc]; [congruence|].
    cbn [negb is_CalledProcessError orb]. wp_all.
    repeat split; rewrite <- ?app_assoc; reflexivity.
  - cbn [is_CalledProcessError is_FileNotFoundError orb]. wp_all.
    repeat split; rewrite <- ?app_assoc; reflexivity.
Qed.

(** The sample project on a machine without [gh]. *)
Lemma create_github_release_skipped_witness :
  let env := Demo.env Demo.nothing false in
  let w := Demo.tap_world Demo.unpinned_formula in
  let r := create_github_release env w in
  r.1 = Ok tt /\ calls r.2 = [gh_probe "/proj"] /\ fs r.2 = fs w.
Proof.
  intros env w r.
  destruct (create_github_release_skipped env w "v1.2.4") as (H1 & H2 & H3 & _).
  - reflexivity.
  - reflexivity.
  - reflexivity.
  - exact I.
  - split; [exact H1|]. split; [exact H2|exact H3].
Defined.

(** X17. With PyGithub installed but no working [gh],
    [create_github_release] reports no error and publishes nothing: the
    only external calls are the probe and, when the bundle is there, the
    packaging of the archive; no [gh release] command is started and the
    tag name is not even read. *)
Theorem create_github_release_pygithub_only (env : Env) (w : World) :
  dry_run w = false ->
  have_pygithub env = true ->
  match (run_process env (length (calls w)) ["gh"; "--version"] (cwd w) (fs w)).1 with
  | Exited rc _ _ => rc <> 0
  | LaunchFailed => True
  end ->
  let r := create_github_release env w in
  r.1 = Ok tt
  /\ exists done,
       continues w done r.2
       /\ (done = [gh_probe (cwd w)]
           \/ done = [gh_probe (cwd w); Archive (zip_path env)]).
Proof.
  intros Hdry Hpy Hprobe r. subst r. revert Hprobe.
  change (match (run_process env (length (calls w)) ["gh"; "--version"] (cwd w) (fs w)).1
          with Exited rc _ _ => rc <> 0 | LaunchFailed => True end ->
          wp (create_github_release env)
            (fun o w' =>
               o = Ok tt
               /\ exists done,
                    continues w done w'
                    /\ (done = [gh_probe (cwd w)]
                        \/ done = [gh_probe (cwd w); Archive (zip_path env)])) w).
  destruct w as [f0 d0 co ca cv nv tn rn dr od]. cbn in Hdry. subst dr.
  wflat. intros Hprobe.
  unfold create_github_release. rewrite Hpy. wp_walk.
  apply Rules.wp_subprocess_run. wflat. intros r fs' E. rewrite E in *. wflat.
  destruct r as [rc out err|]; cbn [andb].
  - cbn [fst] in Hprobe. destruct (Z.eqb_spec rc 0) as [->|Hrc]; [congruence|].
    cbn [negb is_CalledProcessError orb]. wp_all;
      (split; [reflexivity|]); eexists; (split; [ReleaseFacts.continues_leaf|]);
      first [left; reflexivity | right; reflexivity].
  - cbn [is_CalledProcessError is_FileNotFoundError orb]. wp_all;
      (split; [reflexivity|]); eexists; (split; [ReleaseFacts.continues_leaf|]);
      first [left; reflexivity | right; reflexivity].
Qed.

(** The same machine with PyGithub installed. *)
Lemma create_github_release_pygithub_only_witness :
  let env := Demo.make false true (Demo.process Demo.nothing false) Demo.no_gitpython in
  let w := Demo.tap_world Demo.unpinned_formula in
  (create_github_release env w).1 = Ok tt.
Proof.
  intros env w.
  destruct (create_github_release_pygithub_only env w) as (H1 & _).
  - reflexivity.
  - reflexivity.
  - exact I.
  - exact H1.
Defined.


(** ** The tap synchronisation as a whole *)

Module SubmitFacts.
Import BuildFacts SoundFacts.

Section Submit.
Variable env : Env.
Variable c : string.
Hypothesis keeps : preserved env (sound_files env c False).
Hypothesis outside : outside_tap env c.

Local Abbreviation sound := (sound_files env c False).

Lemma never : False -> tools_start env.
Proof. intros []. Qed.

Ltac solve_sound :=
  first
    [ assumption
    | eapply sound_mkdir;
      [ solve_sound | eassumption
      | first [apply tap_not_notes | apply tap_formula_dir_not_notes] ]
    | eapply sound_write;
      [ solve_sound
      | first [ congruence
              | match goal with H : ?f !! ?p = _ |- ?f !! ?p <> _ =>
                  rewrite H; discriminate end ]
      | first [ apply TapFacts.tap_formula_path_not_tap
              | apply TapFacts.tap_formula_inner_not_tap | assumption ] ]
    | eapply sound_delete; [solve_sound | eassumption] ].

Ltac run_any :=
  eapply (wp_run_any env c False keeps);
  [ wflat; solve_sound | intros ? ? ? ? ?; wflat | wflat ].

Ltac pub_leaf :=
  wflat; repeat match goal with |- _ /\ _ => split end;
  first [ reflexivity | assumption | solve_frame | discriminate | solve_sound | idtac ].

Ltac pub_step :=
  first
    [ match goal with
      | |- wp (write_file (if match ?f !! ?p with _ => _ end then _ else _) _) _ _ =>
          destruct (f !! p) as [[?|]|] eqn:?
      end
    | wp_quiet_step; wflat
    | run_any
    | match goal with
      | |- context [<[?p := ?x]> ?f !! ?p] => rewrite (lookup_insert_eq f p x)
      end
    | match goal with
      | |- match ?f !! ?p with _ => _ end => destruct (f !! p) as [[?|]|] eqn:?
      | |- wp (match ?f !! ?p with _ => _ end) _ _ => destruct (f !! p) as [[?|]|] eqn:?
      | |- if negb (?rc =? 0) then _ else _ => destruct (negb (rc =? 0))
      | |- context [bool_decide (is_Some (?f !! ?p))] =>
          destruct (bool_decide (is_Some (f !! p)))
      end
    | progress cbn [andb negb] ].

Lemma publish_formula_sound w :
  sound (fs w) -> cwd w = c ->
  wp (publish_formula env)
    (fun o w' => sound (fs w') /\ frame w w' /\ original_dir w' = Some c) w.
Proof.
  destruct w as [f0 d0 co ca cv nv tn rn dr od]. wflat. intros Hsound ->.
  unfold publish_formula, bind_original_dir, copy2.
  repeat pub_step.
  all: try solve [pub_leaf].
  all: eapply Rules.wp_conseq;
    [ apply (TapFacts.update_formula_checksum_sound env c False keeps);
      [apply TapFacts.tap_formula_path_not_tap | wflat; solve_sound] |].
  all: intros o [f1 d1 co1 ca1 cv1 nv1 tn1 rn1 dr1 od1]; wflat;
    intros (-> & Hs1 & Hd1 & Ho1 & Hf1); subst; repeat pub_step.
  all: try solve [pub_leaf].
Qed.

Lemma finish w0 (o : outcome unit) w :
  sound (fs w) -> frame w0 w ->
  original_dir w = Some c \/ (original_dir w = None /\ cwd w = c) ->
  wp (chdir_original_dir)
    (fun o2 w'' =>
       match o2 with
       | Ok _ =>
           cwd w'' = c /\ (Ok tt = Ok tt \/ Ok tt = Raise (UnboundLocalError "original_dir"))
           /\ sound (fs w'') /\ frame w0 w''
       | Raise e =>
           cwd w'' = c
           /\ (Raise e = Ok tt \/ @Raise unit e = Raise (UnboundLocalError "original_dir"))
           /\ sound (fs w'') /\ frame w0 w''
       end) w.
Proof.
  destruct w as [f1 d1 co1 ca1 cv1 nv1 tn1 rn1 dr1 od1]. wflat.
  intros Hs Hf [->|[-> ->]]; unfold chdir_original_dir; wp_walk.
  - rewrite (proj1 Hs). wflat. split; [reflexivity|]. split; [left; reflexivity|].
    split; [exact Hs|]. eapply FrameFacts.frame_trans; [exact Hf|]. solve_frame.
  - split; [reflexivity|]. split; [right; reflexivity|]. split; [exact Hs|exact Hf].
Qed.

Lemma submit_to_homebrew_sound w :
  sound (fs w) -> cwd w = c ->
  wp (submit_to_homebrew env)
    (fun o w' =>
       cwd w' = c
       /\ (o = Ok tt \/ o = Raise (UnboundLocalError "original_dir"))
       /\ sound (fs w') /\ frame w w') w.
Proof.
  destruct w as [f0 d0 co ca cv nv tn rn dr od]. wflat. intros Hsound ->.
  unfold submit_to_homebrew. wp_walk. destruct dr.
  { wp_walk. pub_leaf. left. reflexivity. }
  wp_walk.
  match goal with
  | |- wp (if ?b then _ else _) _ _ =>
      destruct b;
      (eapply Rules.wp_conseq;
       [ first [ apply (TapFacts.reset_tap_sound env c False never keeps)
               | apply (TapFacts.clone_tap_sound env c False never keeps outside) ];
         wflat; first [assumption | reflexivity] |])
  end.
  all: intros o [f1 d1 co1 ca1 cv1 nv1 tn1 rn1 dr1 od1];
    unfold TapFacts.tap_post, TapFacts.bound_or_home; wflat;
    intros (Hs1 & Hf1 & Hb1 & Hc1 & _); destruct o as [[]|e].
  1,3: specialize (Hc1 eq_refl); subst d1;
    (eapply Rules.wp_conseq;
     [apply publish_formula_sound; wflat; [exact Hs1|reflexivity]|]);
    intros o2 [f2 d2 co2 ca2 cv2 nv2 tn2 rn2 dr2 od2]; wflat;
    intros (Hs2 & Hf2 & ->); destruct o2 as [[]|e2]; wp_walk.
  all: wp_walk.
  all: (eapply Rules.wp_conseq;
        [ eapply (finish _ (Ok tt)); wflat;
          [ eassumption | | first [left; reflexivity | exact Hb1] ]
        | intros [u|e'] w''; exact id ]).
  all: solve_frame.
Qed.

End Submit.
End SubmitFacts.

(** X18. If the working directory is a directory outside the tap that no
    external program removes, [submit_to_homebrew] ends in it however
    the synchronisation goes: a normal return, a failure of any [git],
    [gh], [curl] or [shasum] command reported as a warning, or the
    [UnboundLocalError] of the [finally] clause raised before any
    directory change. No other exception leaves the function, and the
    release attributes are kept. *)
Theorem submit_to_homebrew_restores_cwd (env : Env) (w : World) :
  fs w !! cwd w = Some Dir ->
  preserved env (fun f => f !! cwd w = Some Dir) ->
  outside_tap env (cwd w) ->
  let r := submit_to_homebrew env w in
  cwd r.2 = cwd w
  /\ (r.1 = Ok tt \/ r.1 = Raise (UnboundLocalError "original_dir"))
  /\ fs r.2 !! cwd w = Some Dir
  /\ frame w r.2.
Proof.
  intros Hdir Hkeeps Hout r. subst r.
  assert (Hk : preserved env (sound_files env (cwd w) False)).
  { intros n argv d f [H _]. split; [apply Hkeeps, H|intros []]. }
  pose proof (SubmitFacts.submit_to_homebrew_sound env (cwd w) Hk Hout w) as H.
  unfold wp in H. destruct H as (H1 & H2 & H3 & H4).
  - split; [exact Hdir|intros []].
  - reflexivity.
  - split; [exact H1|]. split; [exact H2|]. split; [exact (proj1 H3)|exact H4].
Qed.

Module DemoFacts.

(** No program of the sample environment touches the project root. *)
Lemma process_keeps_root fails gh :
  preserved (Demo.env fails gh) (fun f => f !! "/proj" = Some Dir).
Proof.
  intros n argv d f H. unfold Demo.env, Demo.make. cbn [run_process].
  unfold Demo.process.
  repeat match goal with
         | |- context [if ?b then _ else _] => destruct b
         end;
    cbn [snd]; rewrite ?lookup_insert_ne by discriminate; exact H.
Qed.

End DemoFacts.

(** The sample project: its root is never touched. *)
Lemma submit_to_homebrew_restores_cwd_witness :
  let env := Demo.env Demo.nothing true in
  let w := Demo.tap_world Demo.unpinned_formula in
  cwd (submit_to_homebrew env w).2 = "/proj".
Proof.
  intros env w.
  refine (proj1 (submit_to_homebrew_restores_cwd env w _ _ _)).
  - reflexivity.
  - apply DemoFacts.process_keeps_root.
  - split; [discriminate|reflexivity].
Defined.

(** X19. Outside a dry run, when the tap path is a regular file, or is
    missing while [git clone] cannot be started, the error is reported
    as a warning but the [finally] clause then reads the local variable
    [original_dir] before any assignment: [submit_to_homebrew] raises
    [UnboundLocalError]. The working directory and the files are as they
    were. *)
Theorem submit_to_homebrew_unbound (env : Env) (w : World) :
  dry_run w = false ->
  ((exists x, fs w !! homebrew_tap_dir env = Some (File x))
   /\ fs w !! (homebrew_tap_dir env +:+ "/.git") = None)
  \/ (fs w !! homebrew_tap_dir env = None
      /\ (run_process env (length (calls w))
            ["git"; "clone"; "https://github.com/barnuri/homebrew-brew";
             homebrew_tap_dir env] (cwd w) (fs w)).1 = LaunchFailed) ->
  let r := submit_to_homebrew env w in
  r.1 = Raise (UnboundLocalError "original_dir")
  /\ cwd r.2 = cwd w
  /\ fs r.2 = fs w
  /\ In "You may need to update the formula manually in the tap repository."
       (console r.2).
Proof.
  intros Hdry Hcase r. subst r. revert Hcase.
  change (((exists x, fs w !! homebrew_tap_dir env = Some (File x))
           /\ fs w !! (homebrew_tap_dir env +:+ "/.git") = None)
          \/ (fs w !! homebrew_tap_dir env = None
              /\ (run_process env (length (calls w))
                    ["git"; "clone"; "https://github.com/barnuri/homebrew-brew";
                     homebrew_tap_dir env] (cwd w) (fs w)).1 = LaunchFailed) ->
          wp (submit_to_homebrew env)
            (fun o w' =>
               o = Raise (UnboundLocalError "original_dir")
               /\ cwd w' = cwd w /\ fs w' = fs w
               /\ In "You may need to update the formula manually in the tap repository."
                    (console w')) w).
  destruct w as [f0 d0 co ca cv nv tn rn dr od]. cbn in Hdry. subst dr. wflat.
  intros [[[x Hx] Hgit]|[Hnone Hrun]]; unfold submit_to_homebrew, clone_tap, chdir_original_dir.
  - wp_all. repeat split; rewrite ?in_app_iff; cbn [In]; tauto.
  - repeat (first [fs_case | wp_quiet_step]; wflat; cbn [andb]).
    apply Rules.wp_subprocess_run. wflat. intros r fs' E. rewrite E in Hrun.
    cbn [fst] in Hrun. subst r. wflat. cbn [is_CalledProcessError].
    wp_all. repeat split; rewrite ?in_app_iff; cbn [In]; tauto.
Qed.

(** The sample project with a regular file in the place of the tap. *)
Lemma submit_to_homebrew_unbound_witness :
  let env := Demo.env Demo.nothing true in
  let w := Demo.world (<[Demo.tap := File "not a repository"]> Demo.files) false in
  (submit_to_homebrew env w).1 = Raise (UnboundLocalError "original_dir").
Proof.
  intros env w.
  refine (proj1 (submit_to_homebrew_unbound env w _ _)).
  - reflexivity.
  - left. split; [eexists; reflexivity|reflexivity].
Defined.
